(** * FontClassificationTool: [util.py]

    A shallow embedding of the measurement and normalisation helpers of
    [util.py], of its CSV store and of its blocklist test, with the
    properties the specification states about them and other properties
    that the code has.

    Conventions of the embedding.
    - A Python [float] is a primitive binary64 [float]; its arithmetic is the
      kernel's, specified by [FloatAxioms] over [SpecFloat].
    - A Python [int] is a [Z].
    - A Python exception is the [Raise] branch of [result].
    - A Python [dict] keeps insertion order: it is an association list with
      unique keys, updated in place ([PyDict]).
    - The rasteriser (cairo, freetype) is a parameter.
    - A character is a code point below 256, a text a list of characters,
      and the files are a mapping from names to texts; a file opened for
      reading translates the carriage returns, a file opened for writing
      keeps the line feeds.
    - The module is read as CPython 3.11 runs it, which is what its first
      line asks for: names, operators and built-in functions have their
      Python 3 meaning.
    - The [csv] reader and writer are the state machine and the quoting of
      CPython 3.11, with its limits on the length of a field and on the
      digits of a decimal conversion. *)

From Stdlib Require Import ZArith QArith Qpower Qround List String Ascii Bool Lia Lqa.
From Stdlib Require Import Floats.
From Stdlib Require Import Sorting.Mergesort Sorting.Permutation Sorting.Sorted.
From Stdlib Require Import Orders DecimalString DecimalZ DecimalPos.
Import ListNotations.

Set Warnings "-inexact-float".

Local Open Scope Z_scope.

(** ** Exceptions *)

(** The built-in exceptions the modelled code can raise, and [CairoError] for
    whatever the rasteriser raises (an [IOError], a [RuntimeError]...). *)
Inductive exn : Type :=
| ValueError
| ZeroDivisionError
| OverflowError
| TypeError
| KeyError
| IndexError
| StopIteration
| IOError
| NameError
| CsvError
| CairoError.

Inductive result (A : Type) : Type :=
| Ok (a : A)
| Raise (e : exn).

Arguments Ok {A} a.
Arguments Raise {A} e.

Definition bind {A B : Type} (c : result A) (k : A -> result B) : result B :=
  match c with
  | Ok a => k a
  | Raise e => Raise e
  end.

Declare Scope py_scope.
Delimit Scope py_scope with py.
Notation "x <- c ;; k" := (bind c (fun x => k))
  (at level 61, c at next level, right associativity) : py_scope.
Notation "' p <- c ;; k" := (bind c (fun x => match x with p => k end))
  (at level 61, p pattern, c at next level, right associativity) : py_scope.
Local Open Scope py_scope.

(** A [for] loop whose body may raise. *)
Fixpoint foldM {A B : Type} (f : A -> B -> result A) (l : list B) (a : A)
  : result A :=
  match l with
  | [] => Ok a
  | b :: l' => a' <- f a b ;; foldM f l' a'
  end.

(** ** Dictionaries *)

Module PyDict.

Definition dict (V : Type) : Type := list (string * V).

Section Ops.
Context {V : Type}.

Fixpoint get (k : string) (d : dict V) : option V :=
  match d with
  | [] => None
  | (k', v) :: d' => if String.eqb k' k then Some v else get k d'
  end.

(** [d[k] = v]: an existing key keeps its place. *)
Fixpoint set (k : string) (v : V) (d : dict V) : dict V :=
  match d with
  | [] => [(k, v)]
  | (k', v') :: d' =>
      if String.eqb k' k then (k', v) :: d' else (k', v') :: set k v d'
  end.

Definition keys (d : dict V) : list string := map fst d.
Definition values (d : dict V) : list V := map snd d.

(** [d[k]] *)
Definition item (k : string) (d : dict V) : result V :=
  match get k d with
  | Some v => Ok v
  | None => Raise KeyError
  end.
End Ops.

End PyDict.

Abbreviation dict := PyDict.dict.

(** ** Floats *)

Module PyFloat.

(** [x / y] *)
Definition truediv (x y : float) : result float :=
  if PrimFloat.eqb y 0%float then Raise ZeroDivisionError
  else Ok (x / y)%float.

(** The integer part of a finite binary64 value, rounded down. *)
Definition floor_finite (s : bool) (m : positive) (e : Z) : Z :=
  let v := if s then Z.neg m else Z.pos m in
  if 0 <=? e then v * 2 ^ e else v / 2 ^ (- e).

(** [math.floor(x)] *)
Definition floor (x : float) : result Z :=
  match Prim2SF x with
  | S754_nan => Raise ValueError
  | S754_infinity _ => Raise OverflowError
  | S754_zero _ => Ok 0
  | S754_finite s m e => Ok (floor_finite s m e)
  end.

(** [min(l)] over an iterable keeps the first item and replaces it by each
    later item that compares less ([item < cur]). *)
Definition min_step (cur item : float) : float :=
  if PrimFloat.ltb item cur then item else cur.

Definition min (l : list float) : result float :=
  match l with
  | [] => Raise ValueError
  | x :: l' => Ok (fold_left min_step l' x)
  end.

(** [max(l)] replaces the kept item by each later item that compares
    greater ([item > cur]). *)
Definition max_step (cur item : float) : float :=
  if PrimFloat.ltb cur item then item else cur.

Definition max (l : list float) : result float :=
  match l with
  | [] => Raise ValueError
  | x :: l' => Ok (fold_left max_step l' x)
  end.

(** [int(x)]: the integer part, towards zero. *)
Definition to_int (x : float) : result Z :=
  match Prim2SF x with
  | S754_nan => Raise ValueError
  | S754_infinity _ => Raise OverflowError
  | S754_zero _ => Ok 0
  | S754_finite s m e =>
      let t := if 0 <=? e then Z.pos m * 2 ^ e else Z.pos m / 2 ^ (- e) in
      Ok (if s then - t else t)
  end.

(** [float(n)] for an [int]: the nearest binary64 value. *)
Definition of_int (n : Z) : result float :=
  match binary_normalize prec emax n 0 false with
  | S754_infinity _ => Raise OverflowError
  | f => Ok (SF2Prim f)
  end.

End PyFloat.

(** ** Batch normaliser: [find_extremes], [group_by_attributes] *)

Definition find_extremes (d : dict float) : result (float * float) :=
  let values := PyDict.values d in
  lo <- PyFloat.min values ;;
  hi <- PyFloat.max values ;;
  Ok (lo, hi).

(** [min(10, int(1 + floor(10 * ((v - lo) / range))))], the expression of
    lines 39 and 50. *)
Definition score (v lo range : float) : result Z :=
  q <- PyFloat.truediv (v - lo)%float range ;;
  k <- PyFloat.floor (10 * q)%float ;;
  Ok (Z.min 10 (1 + k)).

(** The float whose floor [score] takes. *)
Definition product (v lo range : float) : float :=
  (10 * ((v - lo) / range))%float.

Definition font : Type := string * option string.

(** [weights = {name: 5 for name, _ in fonts}], one font at a time. *)
Definition fives (acc : dict Z) (f : font) : dict Z := PyDict.set (fst f) 5 acc.

(** [weights[name] = min(10, int(1 + floor(...)))], the body of the loop of
    lines 38-39 (and 49-50). *)
Definition score_step (values : dict float) (lo range : float)
  (acc : dict Z) (f : font) : result (dict Z) :=
  v <- PyDict.item (fst f) values ;;
  b <- score v lo range ;;
  Ok (PyDict.set (fst f) b acc).

(** Lines 31-39 and lines 42-50 are the same code over [darkness] and over
    [width]: [normalize fonts values] is that code. *)
Definition normalize (fonts : list font) (values : dict float) : result (dict Z) :=
  '(lo, hi) <- find_extremes values ;;
  let range := (hi - lo)%float in
  if PrimFloat.eqb range 0%float then Ok (fold_left fives fonts [])
  else foldM (score_step values lo range) fonts [].

Section GroupByAttributes.

(** [compute_darkness_and_width], as the loop of [group_by_attributes]
    calls it. *)
Variable measure : string -> option string -> result (float * float).

(** [darkness[name], width[name] = compute_darkness_and_width(name, subsets)] *)
Definition measure_step (acc : dict float * dict float) (f : font)
  : result (dict float * dict float) :=
  '(d, w) <- measure (fst f) (snd f) ;;
  Ok (PyDict.set (fst f) d (fst acc), PyDict.set (fst f) w (snd acc)).

Definition measure_all (fonts : list font)
  : result (dict float * dict float) :=
  foldM measure_step fonts ([], []).

Definition group_by_attributes (fonts : list font)
  : result (dict Z * dict Z) :=
  '(darkness, width) <- measure_all fonts ;;
  weights <- normalize fonts darkness ;;
  widths <- normalize fonts width ;;
  Ok (weights, widths).

End GroupByAttributes.

(** ** Metric extractor: [compute_darkness_and_width] *)

Definition FONT_SIZE : Z := 30.

Definition LATIN_TEXT : string :=
  "AaBbCcDdEeFfGgHhIiJjKkLlMmNnOoPpQqRrSsTtUuVvXxYyZz".

(** The bytes of [KHMER_TEXT]. *)
Definition KHMER_TEXT : string :=
  string_of_list_ascii (map ascii_of_nat [
  225; 158; 154; 225; 158; 155; 225; 158; 128; 225; 158; 148; 225; 158;
     128; 225; 159; 139; 225; 158; 148; 225; 159; 132; 225; 158; 128; 225;
     158; 147; 225; 158; 182; 225; 158; 155; 225; 159; 146; 225; 158; 132;
     225; 158; 182; 225; 158; 133; 225; 158; 138; 225; 159; 143; 225; 158;
     128; 225; 158; 142; 225; 159; 146; 225; 158; 143; 225; 159; 132; 225;
     158; 133; 225; 158; 128; 225; 158; 142; 225; 159; 146; 225; 158; 143;
     225; 159; 130; 225; 158; 132
  ]%nat).

Definition KHMER_XHEIGHT : string :=
  string_of_list_ascii (map ascii_of_nat [225; 158; 133]%nat).

(** ['khmer' in subsets] *)
Definition has_khmer (subsets : option string) : result bool :=
  match subsets with
  | None => Raise TypeError
  | Some s =>
      Ok (match String.index 0 "khmer" s with Some _ => true | None => false end)
  end.

(** [xrange]: a name that Python 3 does not have and that the module does
    not define; the look-up raises [NameError] before the argument is
    evaluated. *)
Definition xrange (n : Z) : result (list Z) := Raise NameError.

(** [ord(b)] for an item of [surface.get_data()]: the item is an [int],
    and [ord] takes a string of one character. *)
Definition ord (b : Z) : result Z := Raise TypeError.

(** [l[i]], with Python's negative indices. *)
Definition py_index {A : Type} (l : list A) (i : Z) : result A :=
  let j := if i <? 0 then i + Z.of_nat (List.length l) else i in
  if j <? 0 then Raise IndexError
  else match nth_error l (Z.to_nat j) with
       | Some a => Ok a
       | None => Raise IndexError
       end.

(** What [surface.get_data()], [get_width()], [get_stride()] and
    [get_height()] give: the bytes of the ARGB32 pixels, row by row. *)
Record surface : Type := {
  pixel_data : list Z;
  data_width : Z;
  data_stride : Z;
  data_height : Z
}.

(** [ctx.text_extents(text)]: the four components the code keeps. *)
Record extents : Type := {
  xbearing : float;
  ybearing : float;
  text_width : float;
  text_height : float
}.

(** Lines 295-296, for the pixel at column [x] and row [y]:
    [alpha = ord(pixel_data[y*data_stride + 4*x + 3])], then
    [avg += alpha/255.0]. *)
Definition add_pixel (s : surface) (x : Z) (avg : float) (y : Z) : result float :=
  b <- py_index (pixel_data s) (y * data_stride s + 4 * x + 3) ;;
  alpha <- ord b ;;
  a <- PyFloat.of_int alpha ;;
  q <- PyFloat.truediv a 255%float ;;
  Ok (avg + q)%float.

(** Line 294: [for y in xrange(data_height)]. *)
Definition add_column (s : surface) (avg : float) (x : Z) : result float :=
  ys <- xrange (data_height s) ;;
  foldM (add_pixel s x) ys avg.

(** Lines 287-298: the darkness of a rendered surface. The loop of line 293
    is [for x in xrange(data_width)]. *)
Definition surface_darkness (s : surface) : result float :=
  xs <- xrange (data_width s) ;;
  avg <- foldM (add_column s) xs 0%float ;;
  area <- PyFloat.of_int (data_width s * data_height s) ;;
  PyFloat.truediv avg area.

Section Cairo.

(** The rasteriser: a font face, the extents of a text at [FONT_SIZE], and
    the surface of the given size on which the text is shown at the given
    origin. *)
Variable face : Type.
Variable create_cairo_font_face_for_file : string -> Z -> result face.
Variable text_extents : face -> Z -> string -> result extents.
Variable show_text : face -> Z -> Z -> Z -> float -> float -> string -> result surface.

(** Lines 256-285: what is rendered, with the width of the text and the
    height of the reference glyph. *)
Definition render_sample (fontfile : string) (subsets : option string)
  : result (float * float * surface) :=
  khmer <- has_khmer subsets ;;
  let sample_text := if khmer then KHMER_TEXT else LATIN_TEXT in
  let sample_xheight := if khmer then KHMER_XHEIGHT else "x"%string in
  f <- create_cairo_font_face_for_file fontfile 0 ;;
  e <- text_extents f FONT_SIZE sample_text ;;
  ex <- text_extents f FONT_SIZE sample_xheight ;;
  let x_height := text_height ex in
  w <- PyFloat.to_int (text_width e) ;;
  h <- PyFloat.to_int (text_height e) ;;
  s <- show_text f FONT_SIZE w h (- xbearing e)%float (- ybearing e)%float sample_text ;;
  Ok (text_width e, x_height, s).

Definition compute_darkness_and_width (fontfile : string) (subsets : option string)
  : result (float * float) :=
  '(text_width, x_height, s) <- render_sample fontfile subsets ;;
  darkness <- surface_darkness s ;;
  width <- PyFloat.truediv text_width x_height ;;
  Ok (darkness, width).

End Cairo.

(** A rasteriser for a font without ink: every text has empty extents and
    the surface has no pixel. *)
Definition blank_extents : extents :=
  {| xbearing := 0; ybearing := 0; text_width := 0; text_height := 0 |}.


Definition blank_face (_ : string) (_ : Z) : result unit := Ok tt.

Definition blank_text_extents (_ : unit) (_ : Z) (_ : string) : result extents :=
  Ok blank_extents.

Definition blank_show_text (_ : unit) (_ w h : Z) (_ _ : float) (_ : string)
  : result surface :=
  Ok {| pixel_data := []; data_width := w; data_stride := 4 * w; data_height := h |}.

(** ** Integers as text: [str(n)] and [int(s)]

    Characters are the code points below 256. *)

Module PyInt.

(** The interpreter's limit on the digits of a decimal conversion. *)
Definition max_str_digits : Z := 4300.

Definition decimal (n : Z) : string := NilZero.string_of_int (Z.to_int n).

Definition num_digits (n : Z) : Z :=
  Z.of_nat (String.length (decimal (Z.abs n))).

(** [str(n)] *)
Definition str (n : Z) : result string :=
  if max_str_digits <? num_digits n then Raise ValueError else Ok (decimal n).

(** The white space that [int] skips. *)
Definition is_space (c : ascii) : bool :=
  let n := Z.of_nat (nat_of_ascii c) in
  (9 <=? n) && (n <=? 13) || (n =? 32) || (n =? 133) || (n =? 160).

Definition is_digit (c : ascii) : bool :=
  let n := Z.of_nat (nat_of_ascii c) in (48 <=? n) && (n <=? 57).

Fixpoint lstrip (l : list ascii) : list ascii :=
  match l with
  | c :: t => if is_space c then lstrip t else l
  | [] => []
  end.

Definition strip (l : list ascii) : list ascii := rev (lstrip (rev (lstrip l))).

(** The digits of a literal, without the underscores that may stand, one at
    a time, between two digits; [prev] tells that a digit comes just before. *)
Fixpoint digits (prev : bool) (l : list ascii) : option (list ascii) :=
  match l with
  | [] => if prev then Some [] else None
  | c :: t =>
      if is_digit c then option_map (cons c) (digits true t)
      else if Ascii.eqb c "_" && prev then
        match t with
        | d :: _ => if is_digit d then digits false t else None
        | [] => None
        end
      else None
  end.

(** [int(s)] for a string: a decimal literal with an optional sign, between
    optional white space. *)
Definition of_string (s : string) : result Z :=
  let l := strip (list_ascii_of_string s) in
  let '(neg, body) :=
    match l with
    | c :: t =>
        if Ascii.eqb c "-" then (true, t)
        else if Ascii.eqb c "+" then (false, t) else (false, l)
    | [] => (false, l)
    end in
  match digits false body with
  | None => Raise ValueError
  | Some ds =>
      if max_str_digits <? Z.of_nat (List.length ds) then Raise ValueError
      else
        match NilEmpty.uint_of_string (string_of_list_ascii ds) with
        | Some d => Ok (if neg then - Z.of_uint d else Z.of_uint d)
        | None => Raise ValueError
        end
  end.

End PyInt.

Fixpoint mapM {A B : Type} (f : A -> result B) (l : list A) : result (list B) :=
  match l with
  | [] => Ok []
  | a :: l' => b <- f a ;; bs <- mapM f l' ;; Ok (b :: bs)
  end.

(** ** The [csv] module, for the dialect of [save_csv] and [read_csv]

    The delimiter is the comma, the quote character the double quote and
    the line terminator of the writer the line feed; quoting is minimal,
    a quote inside a quoted field is doubled, there is no escape character
    and the reader is not strict. *)

Inductive cell : Type :=
| CInt (n : Z)
| CStr (s : string)
| CNone.

Module Csv.

Definition comma : ascii := ascii_of_nat 44.
Definition quote : ascii := ascii_of_nat 34.
Definition lf : ascii := ascii_of_nat 10.
Definition cr : ascii := ascii_of_nat 13.

(** *** The writer *)

(** What the writer writes for a field: [str] of the value, nothing for
    [None]. *)
Definition cell_text (c : cell) : result (list ascii) :=
  match c with
  | CInt n => s <- PyInt.str n ;; Ok (list_ascii_of_string s)
  | CStr s => Ok (list_ascii_of_string s)
  | CNone => Ok []
  end.

(** A field is quoted when it holds the delimiter, the quote character or a
    character of the line terminator. *)
Definition special (c : ascii) : bool :=
  Ascii.eqb c comma || Ascii.eqb c quote || Ascii.eqb c lf.

Definition needs_quote (f : list ascii) : bool := existsb special f.

Definition escape (f : list ascii) : list ascii :=
  flat_map (fun c => if Ascii.eqb c quote then [quote; quote] else [c]) f.

Definition encode_field (f : list ascii) : list ascii :=
  if needs_quote f then quote :: escape f ++ [quote] else f.

Fixpoint join (fs : list (list ascii)) : list ascii :=
  match fs with
  | [] => []
  | [f] => f
  | f :: fs' => f ++ comma :: join fs'
  end.

(** The line of a record; a record made of one empty field is written as
    two quotes. *)
Definition line (texts : list (list ascii)) : list ascii :=
  match texts, join (map encode_field texts) with
  | _ :: _, [] => [quote; quote; lf]
  | _, l => l ++ [lf]
  end.

(** [writer.writerow(row)], as the text it appends to the file. *)
Definition writerow (row : list cell) : result (list ascii) :=
  texts <- mapM cell_text row ;; Ok (line texts).

(** *** The reader *)

Inductive state : Type :=
| START_RECORD
| START_FIELD
| IN_FIELD
| IN_QUOTED_FIELD
| QUOTE_IN_QUOTED_FIELD
| EAT_CRNL.

Record parser : Type := {
  st : state;
  field : list ascii;
  fields : list string
}.

Definition field_limit : Z := 131072.

Definition reset : parser := {| st := START_RECORD; field := []; fields := [] |}.

Definition goto (p : parser) (s : state) : parser :=
  {| st := s; field := field p; fields := fields p |}.

(** [parse_save_field] *)
Definition save_field (p : parser) (s : state) : parser :=
  {| st := s; field := [];
     fields := fields p ++ [string_of_list_ascii (field p)] |}.

(** [parse_add_char] *)
Definition add_char (p : parser) (c : ascii) (s : state) : result parser :=
  if field_limit <=? Z.of_nat (List.length (field p)) then Raise CsvError
  else Ok {| st := s; field := field p ++ [c]; fields := fields p |}.

Definition newline (c : ascii) : bool := Ascii.eqb c lf || Ascii.eqb c cr.

(** The cases of [START_FIELD]; [None] is the end of the line. *)
Definition start_field (p : parser) (c : option ascii) : result parser :=
  match c with
  | None => Ok (save_field p START_RECORD)
  | Some ch =>
      if newline ch then Ok (save_field p EAT_CRNL)
      else if Ascii.eqb ch quote then Ok (goto p IN_QUOTED_FIELD)
      else if Ascii.eqb ch comma then Ok (save_field p START_FIELD)
      else add_char p ch IN_FIELD
  end.

(** [parse_process_char] *)
Definition process_char (p : parser) (c : option ascii) : result parser :=
  match st p with
  | START_RECORD =>
      match c with
      | None => Ok p
      | Some ch => if newline ch then Ok (goto p EAT_CRNL) else start_field p c
      end
  | START_FIELD => start_field p c
  | IN_FIELD =>
      match c with
      | None => Ok (save_field p START_RECORD)
      | Some ch =>
          if newline ch then Ok (save_field p EAT_CRNL)
          else if Ascii.eqb ch comma then Ok (save_field p START_FIELD)
          else add_char p ch IN_FIELD
      end
  | IN_QUOTED_FIELD =>
      match c with
      | None => Ok p
      | Some ch =>
          if Ascii.eqb ch quote then Ok (goto p QUOTE_IN_QUOTED_FIELD)
          else add_char p ch IN_QUOTED_FIELD
      end
  | QUOTE_IN_QUOTED_FIELD =>
      match c with
      | None => Ok (save_field p START_RECORD)
      | Some ch =>
          if Ascii.eqb ch quote then add_char p ch IN_QUOTED_FIELD
          else if Ascii.eqb ch comma then Ok (save_field p START_FIELD)
          else if newline ch then Ok (save_field p EAT_CRNL)
          else add_char p ch IN_FIELD
      end
  | EAT_CRNL =>
      match c with
      | None => Ok (goto p START_RECORD)
      | Some ch => if newline ch then Ok p else Raise CsvError
      end
  end.

Definition at_start (p : parser) : bool :=
  match st p with START_RECORD => true | _ => false end.

(** At the end of the input a record is pending when a field has
    characters or a quoted field is open. *)
Definition pending (p : parser) : bool :=
  match field p, st p with
  | _ :: _, _ => true
  | _, IN_QUOTED_FIELD => true
  | _, _ => false
  end.

(** [for row in reader: acc = body(row, acc)] over the text that the file
    object gives. The file gives its lines, each ended by its line feed, and
    the reader feeds the state machine with each character of a line and
    then with the end of the line; a row is complete when the machine is
    back at [START_RECORD]. [midline] tells that the current line has
    characters. *)
Fixpoint for_rows {A : Type} (body : list string -> A -> result A)
  (p : parser) (midline : bool) (text : list ascii) (acc : A) : result A :=
  match text with
  | [] =>
      p1 <- (if midline then process_char p None else Ok p) ;;
      if midline && at_start p1 then body (fields p1) acc
      else if pending p1 then body (fields (save_field p1 START_RECORD)) acc
      else Ok acc
  | c :: text' =>
      p1 <- process_char p (Some c) ;;
      if Ascii.eqb c lf then
        p2 <- process_char p1 None ;;
        if at_start p2 then
          acc' <- body (fields p2) acc ;;
          for_rows body reset false text' acc'
        else for_rows body p2 false text' acc
      else for_rows body p1 true text' acc
  end.

(** All the rows of a text. *)
Definition rows (text : list ascii) : result (list (list string)) :=
  for_rows (fun row acc => Ok (acc ++ [row])) reset false text [].

End Csv.

(** ** Text files *)

(** The files, by name. *)
Definition files : Type := dict (list ascii).

(** What [open(filename)] gives to read: in text mode every carriage
    return, with the line feed after it if any, is read as a line feed. *)
Fixpoint universal_newlines (text : list ascii) : list ascii :=
  match text with
  | [] => []
  | c :: t =>
      if Ascii.eqb c Csv.cr then
        Csv.lf :: match t with
                  | c' :: t' =>
                      if Ascii.eqb c' Csv.lf then universal_newlines t'
                      else universal_newlines t
                  | [] => []
                  end
      else c :: universal_newlines t
  end.

Definition open_read (filename : string) (fs : files) : result (list ascii) :=
  match PyDict.get filename fs with
  | Some text => Ok (universal_newlines text)
  | None => Raise IOError
  end.

(** ** Classification record store: [save_csv], [read_csv] *)

Record record : Type := {
  weight_int : Z;
  angle_int : Z;
  width_int : Z;
  usage : string;
  subsets : option string
}.

Module StringOrder <: TotalLeBool.
Definition t := string.
Definition leb := String.leb.
Definition leb_total : forall x y, leb x y = true \/ leb y x = true :=
  String.leb_total.
End StringOrder.

Module StringSort := Sort StringOrder.

(** [sorted(keys)] *)
Definition sorted (keys : list string) : list string := StringSort.sort keys.

(** [fwe-1 not in range(10)] *)
Definition out_of_range (b : Z) : bool := negb ((0 <=? b - 1) && (b - 1 <? 10)).

Definition band_cell (cleanup : bool) (b : Z) : cell :=
  if cleanup && out_of_range b then CStr "" else CInt b.

(** [usage not in ['body', 'header']] *)
Definition usage_cell (cleanup : bool) (u : string) : cell :=
  if cleanup && negb (String.eqb u "body" || String.eqb u "header")
  then CStr "" else CStr u.

Definition subsets_cell (s : option string) : cell :=
  match s with
  | Some s => CStr s
  | None => CNone
  end.

Definition header_row (cleanup : bool) : list cell :=
  map CStr (["GFN"%string; "FWE"%string; "FIA"%string; "FWI"%string;
             "USAGE"%string]
            ++ (if cleanup then [] else ["SUBSETS"%string])).

Definition data_row (cleanup : bool) (gfn : string) (data : record) : list cell :=
  [CStr gfn; band_cell cleanup (weight_int data);
   band_cell cleanup (angle_int data); band_cell cleanup (width_int data);
   usage_cell cleanup (usage data)]
  ++ (if cleanup then [] else [subsets_cell (subsets data)]).

(** The rows are written one after the other to the file, which exists
    with what has been written only when no row raises. *)
Definition save_csv (filename : string) (metadata : dict record)
  (cleanup_for_publishing : bool) (fs : files) : result files :=
  header <- Csv.writerow (header_row cleanup_for_publishing) ;;
  lines <- mapM (fun gfn =>
                   data <- PyDict.item gfn metadata ;;
                   Csv.writerow (data_row cleanup_for_publishing gfn data))
                (sorted (PyDict.keys metadata)) ;;
  Ok (PyDict.set filename (header ++ List.concat lines) fs).

(** The body of the loop of [read_csv]. *)
Definition read_row (row : list string) : result (string * record) :=
  gfn <- py_index row 0 ;;
  subsets <- (if (Z.of_nat (List.length row) <? 6) then Ok None
              else s <- py_index row 5 ;; Ok (Some s)) ;;
  fwe <- (s <- py_index row 1 ;; PyInt.of_string s) ;;
  fia <- (s <- py_index row 2 ;; PyInt.of_string s) ;;
  fwi <- (s <- py_index row 3 ;; PyInt.of_string s) ;;
  usage <- py_index row 4 ;;
  Ok (gfn, {| weight_int := fwe; angle_int := fia; width_int := fwi;
              usage := usage; subsets := subsets |}).

(** [next(existing_data)] takes the first row the reader gives, and the
    loop every other row: the accumulator tells whether the first row has
    been taken. *)
Definition read_body (row : list string) (acc : bool * dict record)
  : result (bool * dict record) :=
  if fst acc then
    '(gfn, data) <- read_row row ;;
    Ok (true, PyDict.set gfn data (snd acc))
  else Ok (true, snd acc).

Definition read_csv (filename : string) (fs : files) : result (dict record) :=
  text <- open_read filename fs ;;
  '(skipped, metadata) <- Csv.for_rows read_body Csv.reset false text (false, []) ;;
  if skipped then Ok metadata else Raise StopIteration.

(** ** Blocklist: [is_blocklisted] *)

Definition BLOCKLIST : list string :=
  ["KumarOne"; "Rubik-BlackItalic"; "Rubik-Black"; "Rubik-BoldItalic";
   "Rubik-Bold"; "Rubik-Italic"; "Rubik-LightItalic"; "Rubik-Light";
   "Rubik-MediumItalic"; "Rubik-Medium"; "Rubik-Regular"]%string.

(** [sub in s], for two strings. *)
Definition str_contains (sub s : string) : bool :=
  match String.index 0 sub s with
  | Some _ => true
  | None => false
  end.

(** The loop of [is_blocklisted] over the names that are left. *)
Fixpoint blocklist_loop (names : list string) (filename : string) : option bool :=
  match names with
  | [] => None
  | name :: names' =>
      if str_contains name filename then Some true
      else blocklist_loop names' filename
  end.

(** [is_blocklisted(filename)]: [True], or [None] when the loop ends without
    a [return]. *)
Definition is_blocklisted (filename : string) : option bool :=
  blocklist_loop BLOCKLIST filename.

(** The batch of the specification's worked example. *)
Definition example_fonts : list font :=
  [("FontA"%string, None); ("FontB"%string, None); ("FontC"%string, None)].

Definition example_measure (name : string) (_ : option string)
  : result (float * float) :=
  if String.eqb name "FontA" then Ok (0.10, 10.5)%float
  else if String.eqb name "FontB" then Ok (0.30, 12.25)%float
  else if String.eqb name "FontC" then Ok (0.50, 11)%float
  else Raise CairoError.

Definition example_darkness : dict float :=
  [("FontA"%string, 0.10%float); ("FontB"%string, 0.30%float);
   ("FontC"%string, 0.50%float)].

Definition example_width : dict float :=
  [("FontA"%string, 10.5%float); ("FontB"%string, 12.25%float);
   ("FontC"%string, 11%float)].

Definition example_weights : dict Z :=
  [("FontA"%string, 1); ("FontB"%string, 5); ("FontC"%string, 10)].

Definition example_widths : dict Z :=
  [("FontA"%string, 1); ("FontB"%string, 10); ("FontC"%string, 3)].

(** A batch whose fonts all measure the same. *)
Definition flat_measure (name : string) (_ : option string)
  : result (float * float) := Ok (0.25, 1.5)%float.

Definition flat_values (v : float) : dict float :=
  [("FontA"%string, v); ("FontB"%string, v); ("FontC"%string, v)].

Definition all_five : dict Z :=
  [("FontA"%string, 5); ("FontB"%string, 5); ("FontC"%string, 5)].

Definition weights_of (r : result (dict Z * dict Z)) : option (dict Z) :=
  match r with
  | Ok (weights, _) => Some weights
  | Raise _ => None
  end.

(** ** What the store holds and what the reader takes *)

(** A field that the store can hold: no carriage return, and no longer than
    the reader's limit. *)
Definition no_cr (l : list ascii) : bool :=
  forallb (fun c => negb (Ascii.eqb c Csv.cr)) l.

Definition field_ok (f : list ascii) : bool :=
  no_cr f && (Z.of_nat (List.length f) <=? Csv.field_limit).

(** The parser with one more field. *)
Definition saved (p : Csv.parser) (f : list ascii) (s : Csv.state) : Csv.parser :=
  {| Csv.st := s; Csv.field := [];
     Csv.fields := Csv.fields p ++ [string_of_list_ascii f] |}.

Definition filling (p : Csv.parser) (f : list ascii) (s : Csv.state) : Csv.parser :=
  {| Csv.st := s; Csv.field := Csv.field p ++ f; Csv.fields := Csv.fields p |}.

Definition subsets_text (s : option string) : string :=
  match s with
  | Some s => s
  | None => EmptyString
  end.

(** A record can be stored when its strings are fields that the reader
    takes and its bands have a decimal writing. *)
Definition storable (gfn : string) (data : record) : bool :=
  field_ok (list_ascii_of_string gfn)
  && field_ok (list_ascii_of_string (usage data))
  && field_ok (list_ascii_of_string (subsets_text (subsets data)))
  && (PyInt.num_digits (weight_int data) <=? PyInt.max_str_digits)
  && (PyInt.num_digits (angle_int data) <=? PyInt.max_str_digits)
  && (PyInt.num_digits (width_int data) <=? PyInt.max_str_digits).

(** A record as it is read back: subsets that were [None] are read as the
    empty string. *)
Definition reread (data : record) : record :=
  {| weight_int := weight_int data;
     angle_int := angle_int data;
     width_int := width_int data;
     usage := usage data;
     subsets := Some (subsets_text (subsets data)) |}.

Definition row_texts (gfn : string) (data : record) : list (list ascii) :=
  [list_ascii_of_string gfn;
   list_ascii_of_string (PyInt.decimal (weight_int data));
   list_ascii_of_string (PyInt.decimal (angle_int data));
   list_ascii_of_string (PyInt.decimal (width_int data));
   list_ascii_of_string (usage data);
   list_ascii_of_string (subsets_text (subsets data))].

Definition row_of (metadata : dict record) (gfn : string) : list (list ascii) :=
  match PyDict.get gfn metadata with
  | Some data => row_texts gfn data
  | None => []
  end.

Definition reread_step (metadata : dict record) (acc : dict record)
  (gfn : string) : dict record :=
  match PyDict.get gfn metadata with
  | Some data => PyDict.set gfn (reread data) acc
  | None => acc
  end.

Definition header_texts : list (list ascii) :=
  map list_ascii_of_string
    ["GFN"%string; "FWE"%string; "FIA"%string; "FWI"%string; "USAGE"%string;
     "SUBSETS"%string].

Definition all_storable (metadata : dict record) : bool :=
  forallb (fun kv => storable (fst kv) (snd kv)) metadata.

Definition example_metadata : dict record :=
  [("Lato-Bold.ttf"%string,
    {| weight_int := 7; angle_int := 1; width_int := 5;
       usage := "header"; subsets := Some "latin,latin-ext"%string |});
   ("Abel-Regular.ttf"%string,
    {| weight_int := 3; angle_int := -1; width_int := 11;
       usage := String "a" (String Csv.quote (String Csv.lf "b"));
       subsets := None |})].

Definition cr_usage : string := String "x" (String Csv.cr "y").

Definition cr_metadata : dict record :=
  [("a.ttf"%string,
    {| weight_int := 1; angle_int := 2; width_int := 3;
       usage := cr_usage; subsets := None |})].

Definition is_ok {A : Type} (r : result A) : bool :=
  match r with
  | Ok _ => true
  | Raise _ => false
  end.

(** A row of five fields or more whose three bands are integer literals. *)
Definition at_least_five_fields (row : list string) : bool :=
  match row with
  | _ :: fwe :: fia :: fwi :: _ :: _ =>
      is_ok (PyInt.of_string fwe) && is_ok (PyInt.of_string fia)
      && is_ok (PyInt.of_string fwi)
  | _ => false
  end.

(** [row[0]] of a row that has fields. *)
Definition first_field (row : list string) : string := hd EmptyString row.

Definition text_of_lines (lines : list string) : list ascii :=
  List.concat (map (fun l => list_ascii_of_string l ++ [Csv.lf]) lines).

Definition mixed_files : files :=
  [("fonts.csv"%string,
    text_of_lines ["GFN,FWE,FIA,FWI,USAGE,SUBSETS"%string;
                   "Abel-Regular.ttf,3,1,4,body,latin"%string;
                   "Lato-Bold.ttf, 7 ,1,+5,"%string])].

Definition three_field_files : files :=
  [("fonts.csv"%string,
    text_of_lines ["GFN,FWE,FIA,FWI,USAGE"%string; "a.ttf,1,2"%string])].

(** A band as it is published: its decimal writing when it is in the range
    1-10, blank otherwise. *)
Definition published_band (b : Z) : string :=
  if (1 <=? b) && (b <=? 10) then PyInt.decimal b else EmptyString.

(** A usage tag as it is published: [body] and [header] are kept, any
    other tag is blank. *)
Definition published_usage (u : string) : string :=
  if String.eqb u "body" || String.eqb u "header" then u else EmptyString.

Definition published_header : list (list ascii) :=
  map list_ascii_of_string
    ["GFN"%string; "FWE"%string; "FIA"%string; "FWI"%string; "USAGE"%string].

Definition published_row (gfn : string) (data : record) : list (list ascii) :=
  map list_ascii_of_string
    [gfn; published_band (weight_int data); published_band (angle_int data);
     published_band (width_int data); published_usage (usage data)].

Definition published_line (metadata : dict record) (gfn : string) : list ascii :=
  match PyDict.get gfn metadata with
  | Some data => Csv.line (published_row gfn data)
  | None => []
  end.

(** ** The values of binary64 floats

    What the proofs say about [SpecFloat]: the rational value of a float, the
    place of a real number between two consecutive multiples of a power of
    two, and the rounding to nearest, ties to even. *)

Definition bpow (e : Z) : Q := Qpower 2 e.

Definition F2Q (s : bool) (m : positive) (e : Z) : Q :=
  if s then (- (inject_Z (Zpos m) * bpow e))%Q else (inject_Z (Zpos m) * bpow e)%Q.

(** The rank of a binary64 value in the order of the floats: its value when
    finite, and [2^1024] in magnitude for an infinity. *)
Definition B2Q (x : spec_float) : Q :=
  match x with
  | S754_zero _ => 0%Q
  | S754_nan => 0%Q
  | S754_infinity s => if s then (- bpow 1024)%Q else bpow 1024
  | S754_finite s m e => F2Q s m e
  end.

Definition is_nan_sf (x : spec_float) : bool :=
  match x with S754_nan => true | _ => false end.

Definition is_finite_sf (x : spec_float) : bool :=
  match x with S754_zero _ | S754_finite _ _ _ => true | _ => false end.

(** [u] lies in [m, m+1), at the place [l] says. *)
Definition loc_int (u : Q) (m : Z) (l : location) : Prop :=
  match l with
  | loc_Exact => (u == inject_Z m)%Q
  | loc_Inexact c =>
      (inject_Z m < u)%Q /\ (u < inject_Z m + 1)%Q /\
      (u ?= inject_Z m + (1 # 2))%Q = c
  end.

(** [x] lies in [m * 2^e, (m+1) * 2^e), at the place [l] says. *)
Definition located (x : Q) (m e : Z) (l : location) : Prop :=
  loc_int (x * bpow (- e)) m l.

(** A triple whose exponent is the canonical exponent of the value. *)
Definition canon (x : Q) (m e : Z) (l : location) : Prop :=
  located x m e l /\ 0 <= m < 2 ^ 53 /\ -1074 <= e /\ (-1074 < e -> 2 ^ 52 <= m).

(** The second half of [binary_round_aux]: renormalise the rounded mantissa
    and detect the overflow. *)
Definition finish (sx : bool) (m e : Z) : spec_float :=
  let '(mrs, e') := shr_fexp prec emax m e loc_Exact in
  match shr_m mrs with
  | Z0 => S754_zero sx
  | Zpos p => if e' <=? emax - prec then S754_finite sx p e' else S754_infinity sx
  | Zneg _ => S754_nan
  end.

(** The exponent of the rounded value, after renormalisation. *)
Definition final_exp (m e : Z) : Z := if m <? 2 ^ 53 then e else e + 1.

(** [v] is the rank of the binary64 value nearest to [x >= 0]. *)
Definition rank_of (x v : Q) : Prop :=
  exists m e l,
    canon x m e l /\ (v == B2Q (finish false (round_nearest_even m l) e))%Q.

Definition ten_sf : spec_float := S754_finite false 5629499534213120 (-49).

(** The rank, the NaN test and the finiteness test of a primitive float. *)
Definition fval (x : float) : Q := B2Q (Prim2SF x).

Definition fnan (x : float) : bool := is_nan_sf (Prim2SF x).

Definition ffinite (x : float) : bool := is_finite_sf (Prim2SF x).

(** ** Surfaces, batches and files for the properties *)

(** A measurement that is finite and not negative. *)
Definition measurable (x : float) : bool :=
  ffinite x && negb (PrimFloat.ltb x 0).

Definition wider_fonts : list font :=
  example_fonts ++ [("FontD"%string, None)].

Definition wider_darkness : dict float :=
  example_darkness ++ [("FontD"%string, 0.2%float)].

Definition abel_record : record :=
  {| weight_int := 3; angle_int := 1; width_int := 4;
     usage := "body"; subsets := Some "latin"%string |}.

Definition lato_record : record :=
  {| weight_int := 7; angle_int := 1; width_int := 5;
     usage := "header"; subsets := None |}.

Definition two_fonts : dict record :=
  [("Lato-Bold.ttf"%string, lato_record); ("Abel-Regular.ttf"%string, abel_record)].

Definition two_fonts_swapped : dict record :=
  [("Abel-Regular.ttf"%string, abel_record); ("Lato-Bold.ttf"%string, lato_record)].

Definition read_step (acc : dict record) (row : list string) : result (dict record) :=
  '(gfn, data) <- read_row row ;; Ok (PyDict.set gfn data acc).

Definition headed_files : files :=
  [("fonts.csv"%string,
    text_of_lines ["GFN,FWE,FIA,FWI,USAGE,SUBSETS"%string;
                   "Abel-Regular.ttf,3,1,4,body,latin"%string]);
   ("other.csv"%string,
    text_of_lines ["Lato-Bold.ttf,7,1,5,header,"%string;
                   "Abel-Regular.ttf,3,1,4,body,latin"%string])].

Definition twice_files : files :=
  [("fonts.csv"%string,
    text_of_lines ["GFN,FWE,FIA,FWI,USAGE,SUBSETS"%string;
                   "Abel-Regular.ttf,3,1,4,body,latin"%string;
                   "Lato-Bold.ttf,7,1,5,header,"%string;
                   "Abel-Regular.ttf,9,1,4,header,latin"%string])].

Definition header_only_files : files :=
  [("fonts.csv"%string, text_of_lines ["GFN,FWE,FIA,FWI,USAGE,SUBSETS"%string])].

Definition bold_files : files :=
  [("fonts.csv"%string,
    text_of_lines ["GFN,FWE,FIA,FWI,USAGE,SUBSETS"%string;
                   "Abel-Regular.ttf,3,1,4,body,latin"%string;
                   "Lato-Bold.ttf,bold,1,5,header,"%string;
                   "Lato-Regular.ttf,4,1,5,body,"%string])].

(** A record whose three bands are in the range 1-10. *)
Definition in_range (b : Z) : bool := (1 <=? b) && (b <=? 10).

Definition publishable (data : record) : bool :=
  in_range (weight_int data) && in_range (angle_int data)
  && in_range (width_int data).

(** A record as it is read back from a published file. *)
Definition published (data : record) : record :=
  {| weight_int := weight_int data;
     angle_int := angle_int data;
     width_int := width_int data;
     usage := published_usage (usage data);
     subsets := None |}.

(** The font identifiers are fields that the reader takes. *)
Definition readable_keys (metadata : dict record) : bool :=
  forallb (fun k => field_ok (list_ascii_of_string k)) (PyDict.keys metadata).

Definition publish_step (metadata : dict record) (acc : dict record)
  (gfn : string) : result (dict record) :=
  match PyDict.get gfn metadata with
  | Some data =>
      if publishable data then Ok (PyDict.set gfn (published data) acc)
      else Raise ValueError
  | None => Ok acc
  end.

Definition published_step (metadata : dict record) (acc : dict record)
  (gfn : string) : dict record :=
  match PyDict.get gfn metadata with
  | Some data => PyDict.set gfn (published data) acc
  | None => acc
  end.

Definition decorative_fonts : dict record :=
  [("Lato-Bold.ttf"%string,
    {| weight_int := 7; angle_int := 1; width_int := 5;
       usage := "decorative"; subsets := Some "latin"%string |});
   ("Abel-Regular.ttf"%string,
    {| weight_int := 3; angle_int := 1; width_int := 4;
       usage := "body"; subsets := None |})].

Definition unclassified_fonts : dict record :=
  [("Lato-Bold.ttf"%string,
    {| weight_int := 7; angle_int := 0; width_int := 5;
       usage := "header"; subsets := Some "latin"%string |});
   ("Abel-Regular.ttf"%string,
    {| weight_int := 3; angle_int := 1; width_int := 4;
       usage := "body"; subsets := None |})].

(** * Properties *)

(** ** Binary64 arithmetic *)

Lemma bpow_pos e : (0 < bpow e)%Q.
Proof. apply Qpower_0_lt. reflexivity. Qed.

Lemma bpow_add a b : (bpow (a + b) == bpow a * bpow b)%Q.
Proof. apply Qpower_plus. discriminate. Qed.

Lemma bpow_le a b : a <= b -> (bpow a <= bpow b)%Q.
Proof. intros H. apply Qpower_le_compat_l; [exact H | discriminate]. Qed.

Lemma bpow_lt a b : a < b -> (bpow a < bpow b)%Q.
Proof. intros H. apply Qpower_lt_compat_l; [exact H | reflexivity]. Qed.

Lemma bpow_lt_inv a b : (bpow a < bpow b)%Q -> a < b.
Proof. intros H. apply (Qpower_lt_compat_l_inv 2); [exact H | reflexivity]. Qed.

Lemma bpow_Z n : 0 <= n -> (bpow n == inject_Z (2 ^ n))%Q.
Proof. intros H. unfold bpow. rewrite Zpower_Qpower by exact H. reflexivity. Qed.

Lemma bpow_succ e : (bpow (e + 1) == 2 * bpow e)%Q.
Proof. rewrite bpow_add. change (bpow 1) with 2%Q. ring. Qed.

Lemma digits2_pos_bounds m :
  2 ^ (Zpos (digits2_pos m) - 1) <= Zpos m < 2 ^ Zpos (digits2_pos m).
Proof.
  induction m as [p IH|p IH|]; cbn [digits2_pos].
  - rewrite Pos2Z.inj_succ, (Pos2Z.inj_xI p).
    replace (Z.succ (Zpos (digits2_pos p)) - 1) with (Z.succ (Zpos (digits2_pos p) - 1)) by lia.
    rewrite !Z.pow_succ_r by lia. revert IH.
    generalize (2 ^ (Zpos (digits2_pos p) - 1)) (2 ^ Zpos (digits2_pos p)). lia.
  - rewrite Pos2Z.inj_succ, (Pos2Z.inj_xO p).
    replace (Z.succ (Zpos (digits2_pos p)) - 1) with (Z.succ (Zpos (digits2_pos p) - 1)) by lia.
    rewrite !Z.pow_succ_r by lia. revert IH.
    generalize (2 ^ (Zpos (digits2_pos p) - 1)) (2 ^ Zpos (digits2_pos p)). lia.
  - cbn. lia.
Qed.

Lemma Zdigits2_nonneg m : 0 <= Zdigits2 m.
Proof. destruct m; cbn; lia. Qed.

Lemma Zdigits2_upper m : 0 <= m -> m < 2 ^ Zdigits2 m.
Proof.
  destruct m as [|p|p]; cbn [Zdigits2]; intros H; [cbn; lia | | lia].
  apply digits2_pos_bounds.
Qed.

Lemma Zdigits2_lower m : 0 < m -> 2 ^ (Zdigits2 m - 1) <= m.
Proof.
  destruct m as [|p|p]; cbn [Zdigits2]; intros H; [lia | | lia].
  apply digits2_pos_bounds.
Qed.

Lemma Zdigits2_le m k : 0 <= m -> 0 <= k -> m < 2 ^ k -> Zdigits2 m <= k.
Proof.
  intros Hm Hk H.
  destruct (Z.eq_dec m 0) as [->|Hz]; [cbn; lia|].
  destruct (Z.le_gt_cases (Zdigits2 m) k) as [L|G]; [exact L|exfalso].
  pose proof (Zdigits2_lower m ltac:(lia)) as Hl.
  assert (2 ^ k <= 2 ^ (Zdigits2 m - 1)) by (apply Z.pow_le_mono_r; lia).
  lia.
Qed.

Lemma Zdigits2_ge m k : 0 <= m -> 2 ^ (k - 1) <= m -> 1 <= k -> k <= Zdigits2 m.
Proof.
  intros Hm H Hk.
  pose proof (Zdigits2_upper m Hm) as Hu.
  pose proof (Zdigits2_nonneg m) as Hn.
  destruct (Z.le_gt_cases k (Zdigits2 m)) as [L|G]; [exact L|exfalso].
  assert (2 ^ Zdigits2 m <= 2 ^ (k - 1)) by (apply Z.pow_le_mono_r; lia).
  lia.
Qed.

Lemma fexp_eq e : fexp prec emax e = Z.max (e - 53) (-1074).
Proof. reflexivity. Qed.

Lemma bounded_inv m e :
  bounded prec emax m e = true ->
  e = Z.max (Zpos (digits2_pos m) + e - 53) (-1074) /\ e <= 971.
Proof.
  unfold bounded, canonical_mantissa. rewrite fexp_eq.
  intros H. apply andb_prop in H. destruct H as [H1 H2].
  apply Z.eqb_eq in H1. apply Z.leb_le in H2.
  change (emax - prec) with 971 in H2. lia.
Qed.

(** Among canonical representations the exponent orders the values. *)
Lemma canonical_lt m1 e1 m2 e2 :
  bounded prec emax m1 e1 = true -> bounded prec emax m2 e2 = true ->
  e1 < e2 ->
  (inject_Z (Zpos m1) * bpow e1 < inject_Z (Zpos m2) * bpow e2)%Q.
Proof.
  intros B1 B2 Hlt.
  apply bounded_inv in B1, B2. destruct B1 as [B1 _], B2 as [B2 _].
  pose proof (digits2_pos_bounds m1) as D1.
  pose proof (digits2_pos_bounds m2) as D2.
  assert (Hd2 : Zpos (digits2_pos m2) = 53) by lia.
  assert (Hd1 : Zpos (digits2_pos m1) <= 53) by lia.
  rewrite Hd2 in D2.
  assert (H1 : Zpos m1 < 2 ^ 53).
  { eapply Z.lt_le_trans; [apply D1|]. apply Z.pow_le_mono_r; lia. }
  apply Qlt_le_trans with (inject_Z (2 ^ 53) * bpow e1)%Q.
  - apply Qmult_lt_compat_r; [apply bpow_pos|]. rewrite <- Zlt_Qlt. exact H1.
  - apply Qle_trans with (inject_Z (2 ^ 52) * bpow e2)%Q.
    + rewrite <- !bpow_Z by lia. rewrite <- !bpow_add. apply bpow_le. lia.
    + apply Qmult_le_compat_r; [|apply Qlt_le_weak, bpow_pos].
      rewrite <- Zle_Qle. apply D2.
Qed.

Lemma bounded_lt_1024 m e :
  bounded prec emax m e = true -> (inject_Z (Zpos m) * bpow e < bpow 1024)%Q.
Proof.
  intros B. apply bounded_inv in B. destruct B as [B1 B2].
  pose proof (digits2_pos_bounds m) as D.
  assert (H1 : Zpos m < 2 ^ 53).
  { eapply Z.lt_le_trans; [apply D|]. apply Z.pow_le_mono_r; lia. }
  apply Qlt_le_trans with (inject_Z (2 ^ 53) * bpow e)%Q.
  - apply Qmult_lt_compat_r; [apply bpow_pos|]. rewrite <- Zlt_Qlt. exact H1.
  - rewrite <- bpow_Z by lia. rewrite <- bpow_add. apply bpow_le. lia.
Qed.

Lemma F2Q_pos m e : (0 < inject_Z (Zpos m) * bpow e)%Q.
Proof.
  apply Qmult_lt_0_compat; [|apply bpow_pos]. 
  change 0%Q with (inject_Z 0). rewrite <- Zlt_Qlt. lia.
Qed.

Lemma Qcompare_Lt a b : (a < b)%Q -> (a ?= b)%Q = Lt.
Proof. intros H. apply Qlt_alt. exact H. Qed.

Lemma Qcompare_Gt a b : (b < a)%Q -> (a ?= b)%Q = Gt.
Proof. intros H. apply Qgt_alt. exact H. Qed.

Lemma Qcompare_Eq a b : (a == b)%Q -> (a ?= b)%Q = Eq.
Proof. intros H. apply Qeq_alt. exact H. Qed.

Lemma mag_compare m1 e1 m2 e2 :
  bounded prec emax m1 e1 = true -> bounded prec emax m2 e2 = true ->
  match Z.compare e1 e2 with
  | Lt => Lt
  | Gt => Gt
  | Eq => Pos.compare_cont Eq m1 m2
  end = (inject_Z (Zpos m1) * bpow e1 ?= inject_Z (Zpos m2) * bpow e2)%Q.
Proof.
  intros B1 B2. symmetry.
  destruct (Z.compare_spec e1 e2) as [E|L|G].
  - subst e2. change (Pos.compare_cont Eq m1 m2) with (Pos.compare m1 m2).
    pose proof (bpow_pos e1) as Hp.
    destruct (Pos.compare_spec m1 m2) as [E|L|G].
    + subst m2. apply Qcompare_Eq. reflexivity.
    + apply Qcompare_Lt. apply Qmult_lt_compat_r; [exact Hp|].
      rewrite <- Zlt_Qlt. lia.
    + apply Qcompare_Gt. apply Qmult_lt_compat_r; [exact Hp|].
      rewrite <- Zlt_Qlt. lia.
  - apply Qcompare_Lt. apply canonical_lt; assumption.
  - apply Qcompare_Gt. apply canonical_lt; assumption || lia.
Qed.

Lemma Qcompare_opp a b : (- a ?= - b)%Q = CompOpp (a ?= b)%Q.
Proof.
  destruct (Qcompare_spec a b) as [E|L|G]; cbn [CompOpp].
  - apply Qcompare_Eq. rewrite E. reflexivity.
  - apply Qcompare_Gt. lra.
  - apply Qcompare_Lt. lra.
Qed.

(** [SFcompare] is the order of the values. *)
Lemma SFcompare_correct x y :
  valid_binary x = true -> valid_binary y = true ->
  is_nan_sf x = false -> is_nan_sf y = false ->
  SFcompare x y = Some (B2Q x ?= B2Q y)%Q.
Proof.
  intros Vx Vy Nx Ny.
  pose proof (bpow_pos 1024) as H1024.
  destruct x as [sx|sx| |sx mx ex], y as [sy|sy| |sy my ey];
    try discriminate; cbn [SFcompare B2Q F2Q valid_binary] in *;
    try (pose proof (F2Q_pos mx ex) as Px; pose proof (bounded_lt_1024 mx ex Vx) as Lx);
    try (pose proof (F2Q_pos my ey) as Py; pose proof (bounded_lt_1024 my ey Vy) as Ly);
    f_equal; symmetry;
    destruct sx, sy; unfold F2Q;
    try (first [apply Qcompare_Eq; lra | apply Qcompare_Lt; lra | apply Qcompare_Gt; lra]).
  - rewrite Qcompare_opp. 
    transitivity (CompOpp match Z.compare ex ey with
                          | Lt => Lt | Gt => Gt | Eq => Pos.compare_cont Eq mx my end).
    + f_equal. symmetry. apply mag_compare; assumption.
    + destruct (Z.compare ex ey); reflexivity.
  - symmetry. apply mag_compare; assumption.
Qed.

Lemma SFltb_correct x y :
  valid_binary x = true -> valid_binary y = true ->
  is_nan_sf x = false -> is_nan_sf y = false ->
  SFltb x y = true <-> (B2Q x < B2Q y)%Q.
Proof.
  intros Vx Vy Nx Ny. unfold SFltb.
  rewrite (SFcompare_correct x y Vx Vy Nx Ny).
  destruct (Qcompare_spec (B2Q x) (B2Q y)) as [E|L|G]; split; intros H;
    try discriminate; try reflexivity; try lra.
Qed.

Lemma SFltb_false x y :
  valid_binary x = true -> valid_binary y = true ->
  is_nan_sf x = false -> is_nan_sf y = false ->
  SFltb x y = false <-> (B2Q y <= B2Q x)%Q.
Proof.
  intros Vx Vy Nx Ny. unfold SFltb.
  rewrite (SFcompare_correct x y Vx Vy Nx Ny).
  destruct (Qcompare_spec (B2Q x) (B2Q y)) as [E|L|G]; split; intros H;
    try discriminate; try reflexivity; try lra.
Qed.

Lemma SFltb_nan_l y : SFltb S754_nan y = false.
Proof. reflexivity. Qed.

Lemma SFltb_nan_r x : SFltb x S754_nan = false.
Proof. destruct x; reflexivity. Qed.

(** ** Rounding *)

Ltac qcmp_hyps :=
  repeat match goal with
    | H : (_ ?= _)%Q = Lt |- _ => apply Qlt_alt in H
    | H : (_ ?= _)%Q = Gt |- _ => apply Qgt_alt in H
    | H : (_ ?= _)%Q = Eq |- _ => apply Qeq_alt in H
    end.

Ltac qcmp_goal :=
  first [ lra
        | apply Qcompare_Eq; lra
        | apply Qcompare_Lt; lra
        | apply Qcompare_Gt; lra ].

Lemma loc_int_ext u u' m l : (u == u')%Q -> loc_int u m l -> loc_int u' m l.
Proof.
  intros E. destruct l as [|c]; cbn [loc_int].
  - intros H. rewrite <- E. exact H.
  - intros (H1 & H2 & H3). rewrite <- E. auto.
Qed.

Lemma loc_int_bounds u m l :
  loc_int u m l -> (inject_Z m <= u)%Q /\ (u < inject_Z m + 1)%Q.
Proof.
  destruct l as [|c]; cbn [loc_int].
  - intros H. lra.
  - intros (H1 & H2 & _). lra.
Qed.

Lemma inject_Z_xI p : (inject_Z (Zpos p~1) == 2 * inject_Z (Zpos p) + 1)%Q.
Proof. rewrite (Pos2Z.inj_xI p), inject_Z_plus, inject_Z_mult. reflexivity. Qed.

Lemma inject_Z_xO p : (inject_Z (Zpos p~0) == 2 * inject_Z (Zpos p))%Q.
Proof. rewrite (Pos2Z.inj_xO p), inject_Z_mult. reflexivity. Qed.

Lemma shr_1_loc u r :
  0 <= shr_m r -> loc_int u (shr_m r) (loc_of_shr_record r) ->
  0 <= shr_m (shr_1 r) /\
  loc_int (u * (1 # 2)) (shr_m (shr_1 r)) (loc_of_shr_record (shr_1 r)).
Proof.
  destruct r as [m r s]. cbn [shr_m]. intros Hm H.
  destruct m as [|[p|p|]|p]; try lia;
    try (pose proof (inject_Z_xI p) as E1; pose proof (inject_Z_xO p) as E0);
    destruct r, s; cbn in H |- *;
    change (inject_Z 0) with 0%Q in *; change (inject_Z 1) with 1%Q in *;
    (split; [lia|]);
    repeat match goal with H : _ /\ _ |- _ => destruct H end;
    qcmp_hyps; repeat split; qcmp_goal.
Qed.

Lemma bpow_opp_succ e : (bpow (- (e + 1)) == bpow (- e) * (1 # 2))%Q.
Proof.
  replace (- (e + 1)) with (- e + -1) by lia. rewrite bpow_add. reflexivity.
Qed.

Lemma bpow_inv e : (bpow (- e) * bpow e == 1)%Q.
Proof. rewrite <- bpow_add. replace (- e + e) with 0 by lia. reflexivity. Qed.

Lemma iter_pos_shr x p :
  forall r e,
    0 <= shr_m r -> located x (shr_m r) e (loc_of_shr_record r) ->
    0 <= shr_m (iter_pos shr_1 p r) /\
    located x (shr_m (iter_pos shr_1 p r)) (e + Zpos p)
      (loc_of_shr_record (iter_pos shr_1 p r)).
Proof.
  assert (Step : forall r e,
    0 <= shr_m r -> located x (shr_m r) e (loc_of_shr_record r) ->
    0 <= shr_m (shr_1 r) /\
    located x (shr_m (shr_1 r)) (e + 1) (loc_of_shr_record (shr_1 r))).
  { intros r e Hm H. destruct (shr_1_loc _ r Hm H) as [H1 H2]. split; [exact H1|].
    unfold located. eapply loc_int_ext; [|exact H2].
    rewrite bpow_opp_succ. ring. }
  induction p as [p IH|p IH|]; intros r e Hm H; cbn [iter_pos].
  - destruct (Step r e Hm H) as [H1 H2].
    destruct (IH _ _ H1 H2) as [H3 H4].
    destruct (IH _ _ H3 H4) as [H5 H6].
    split; [exact H5|].
    replace (e + Zpos p~1) with (e + 1 + Zpos p + Zpos p) by lia. exact H6.
  - destruct (IH _ _ Hm H) as [H3 H4].
    destruct (IH _ _ H3 H4) as [H5 H6].
    split; [exact H5|].
    replace (e + Zpos p~0) with (e + Zpos p + Zpos p) by lia. exact H6.
  - apply Step; assumption.
Qed.

Lemma shr_record_of_loc_m m l : shr_m (shr_record_of_loc m l) = m.
Proof. destruct l as [|[]]; reflexivity. Qed.

Lemma loc_of_shr_record_of_loc m l :
  loc_of_shr_record (shr_record_of_loc m l) = l.
Proof. destruct l as [|[]]; reflexivity. Qed.

Lemma shr_fexp_spec x m e l :
  0 <= m -> located x m e l -> e <= fexp prec emax (Zdigits2 m + e) ->
  exists r',
    shr_fexp prec emax m e l = (r', fexp prec emax (Zdigits2 m + e)) /\
    0 <= shr_m r' /\
    located x (shr_m r') (fexp prec emax (Zdigits2 m + e)) (loc_of_shr_record r').
Proof.
  intros Hm H He. unfold shr_fexp, shr.
  set (n := fexp prec emax (Zdigits2 m + e) - e).
  assert (Hn : 0 <= n) by (unfold n; lia).
  assert (En : fexp prec emax (Zdigits2 m + e) = e + n) by (unfold n; lia).
  rewrite En. clearbody n.
  destruct n as [|p|p]; try lia.
  - exists (shr_record_of_loc m l).
    rewrite shr_record_of_loc_m, loc_of_shr_record_of_loc.
    replace (e + 0) with e by lia. auto.
  - exists (iter_pos shr_1 p (shr_record_of_loc m l)). split; [reflexivity|].
    apply iter_pos_shr.
    + rewrite shr_record_of_loc_m. exact Hm.
    + rewrite shr_record_of_loc_m, loc_of_shr_record_of_loc. exact H.
Qed.

Lemma located_bounds x m e l :
  located x m e l ->
  (inject_Z m * bpow e <= x)%Q /\ (x < (inject_Z m + 1) * bpow e)%Q.
Proof.
  intros H. apply loc_int_bounds in H. destruct H as [H1 H2].
  pose proof (bpow_pos e) as Hp. pose proof (bpow_inv e) as Hi.
  assert (E : (x == x * bpow (- e) * bpow e)%Q).
  { rewrite <- Qmult_assoc, Hi. ring. }
  split.
  - rewrite E. apply Qmult_le_compat_r; [exact H1|lra].
  - rewrite E at 1. apply Qmult_lt_compat_r; [exact Hp|exact H2].
Qed.

Lemma Qlt_bpow_Z a b e :
  (inject_Z a * bpow e < inject_Z b * bpow e)%Q -> a < b.
Proof.
  intros H. apply Qmult_lt_r in H; [|apply bpow_pos].
  rewrite <- Zlt_Qlt in H. exact H.
Qed.

Lemma mul_bpow_le a k e :
  0 <= k -> a <= 2 ^ k -> (inject_Z a * bpow e <= bpow (k + e))%Q.
Proof.
  intros Hk H. rewrite bpow_add, (bpow_Z k Hk).
  apply Qmult_le_compat_r; [|apply Qlt_le_weak, bpow_pos].
  rewrite <- Zle_Qle. exact H.
Qed.

Lemma bpow_le_mul a k e :
  0 <= k -> 2 ^ k <= a -> (bpow (k + e) <= inject_Z a * bpow e)%Q.
Proof.
  intros Hk H. rewrite bpow_add, (bpow_Z k Hk).
  apply Qmult_le_compat_r; [|apply Qlt_le_weak, bpow_pos].
  rewrite <- Zle_Qle. exact H.
Qed.

Lemma inject_Z_succ m : (inject_Z (m + 1) == inject_Z m + 1)%Q.
Proof. rewrite inject_Z_plus. reflexivity. Qed.

(** A located value below the next power of two of its mantissa. *)
Lemma located_upper x m e l :
  0 <= m -> located x m e l -> (x < bpow (Zdigits2 m + e))%Q.
Proof.
  intros Hm H. apply located_bounds in H. destruct H as [_ H].
  eapply Qlt_le_trans; [exact H|].
  rewrite <- inject_Z_succ.
  apply mul_bpow_le; [apply Zdigits2_nonneg|].
  pose proof (Zdigits2_upper m Hm). lia.
Qed.

Lemma located_lower x m e l :
  0 < m -> located x m e l -> (bpow (Zdigits2 m - 1 + e) <= x)%Q.
Proof.
  intros Hm H. apply located_bounds in H. destruct H as [H _].
  eapply Qle_trans; [|exact H].
  apply bpow_le_mul.
  - destruct m; cbn [Zdigits2]; lia.
  - apply Zdigits2_lower. exact Hm.
Qed.

Lemma shr_fexp_canon x m e l :
  0 <= m -> located x m e l -> e <= fexp prec emax (Zdigits2 m + e) ->
  exists r',
    shr_fexp prec emax m e l = (r', fexp prec emax (Zdigits2 m + e)) /\
    canon x (shr_m r') (fexp prec emax (Zdigits2 m + e)) (loc_of_shr_record r').
Proof.
  intros Hm H He.
  destruct (shr_fexp_spec x m e l Hm H He) as (r' & E & Hm' & H').
  exists r'. split; [exact E|].
  pose proof (located_upper x m e l Hm H) as Hu.
  pose proof (located_bounds _ _ _ _ H') as [Hl' Hu'].
  pose proof (Zdigits2_nonneg m) as Hd.
  revert He E H' Hl' Hu'. rewrite fexp_eq.
  set (e' := Z.max (Zdigits2 m + e - 53) (-1074)). intros He E H' Hl' Hu'.
  split; [exact H'|]. split; [|split].
  - split; [exact Hm'|].
    apply (Qlt_bpow_Z _ _ e').
    eapply Qle_lt_trans; [exact Hl'|]. eapply Qlt_le_trans; [exact Hu|].
    rewrite <- (bpow_Z 53) by lia. rewrite <- bpow_add. apply bpow_le. lia.
  - lia.
  - intros Hgt.
    assert (Hpos : 0 < m).
    { destruct (Z.eq_dec m 0) as [->|]; [|lia]. cbn [Zdigits2] in *. lia. }
    pose proof (located_lower x m e l Hpos H) as Hl.
    assert (L : 2 ^ 52 < shr_m r' + 1).
    { apply (Qlt_bpow_Z _ _ e'). rewrite inject_Z_succ.
      eapply Qle_lt_trans; [|exact Hu']. eapply Qle_trans; [|exact Hl].
      rewrite <- (bpow_Z 52) by lia. rewrite <- bpow_add. apply bpow_le. lia. }
    lia.
Qed.

Lemma rne_bounds m l : m <= round_nearest_even m l <= m + 1.
Proof. destruct l as [|[]]; cbn; try lia. destruct (Z.even m); lia. Qed.

Lemma rne_mono u1 u2 m1 m2 l1 l2 :
  (u1 <= u2)%Q -> loc_int u1 m1 l1 -> loc_int u2 m2 l2 ->
  round_nearest_even m1 l1 <= round_nearest_even m2 l2.
Proof.
  intros Hu H1 H2.
  pose proof (rne_bounds m1 l1) as B1. pose proof (rne_bounds m2 l2) as B2.
  pose proof (loc_int_bounds _ _ _ H1) as [L1 U1].
  pose proof (loc_int_bounds _ _ _ H2) as [L2 U2].
  destruct (Z.lt_trichotomy m1 m2) as [L|[E|G]].
  - lia.
  - subst m2. clear B1 B2.
    destruct l1 as [|[]], l2 as [|[]]; cbn in *; destruct (Z.even m1); try lia;
      exfalso;
      repeat match goal with H : _ /\ _ |- _ => destruct H end;
      qcmp_hyps; lra.
  - exfalso. assert (Hq : (inject_Z m2 + 1 <= inject_Z m1)%Q).
    { rewrite <- inject_Z_succ, <- Zle_Qle. lia. }
    lra.
Qed.

Lemma binary_round_aux_finish sx mx ex lx :
  binary_round_aux prec emax sx mx ex lx =
  let '(mrs', e') := shr_fexp prec emax mx ex lx in
  finish sx (round_nearest_even (shr_m mrs') (loc_of_shr_record mrs')) e'.
Proof. reflexivity. Qed.

Lemma finish_small sx m e :
  0 <= m < 2 ^ 53 -> -1074 <= e ->
  finish sx m e =
  match m with
  | Z0 => S754_zero sx
  | Zpos p => if e <=? 971 then S754_finite sx p e else S754_infinity sx
  | Zneg _ => S754_nan
  end.
Proof.
  intros Hm He. unfold finish, shr_fexp, shr.
  assert (Hd : Zdigits2 m <= 53) by (apply Zdigits2_le; lia).
  pose proof (Zdigits2_nonneg m) as Hn.
  rewrite fexp_eq.
  destruct (Z.max (Zdigits2 m + e - 53) (-1074) - e) as [|p|p] eqn:En; try lia;
    cbn [shr_record_of_loc shr_m]; reflexivity.
Qed.

Lemma finish_carry sx e :
  -1074 <= e ->
  finish sx 9007199254740992 e =
  if e + 1 <=? 971 then S754_finite sx 4503599627370496 (e + 1)
  else S754_infinity sx.
Proof.
  intros He. unfold finish, shr_fexp, shr.
  change (Zdigits2 9007199254740992) with 54. rewrite fexp_eq.
  replace (Z.max (54 + e - 53) (-1074) - e) with 1 by lia.
  reflexivity.
Qed.

Lemma finish_rank m e :
  0 <= m <= 2 ^ 53 -> -1074 <= e ->
  (B2Q (finish false m e) ==
   if m =? 0 then 0
   else if final_exp m e <=? 971 then inject_Z m * bpow e else bpow 1024)%Q.
Proof.
  intros Hm He. unfold final_exp.
  destruct (Z.ltb_spec m (2 ^ 53)) as [L|G].
  - rewrite finish_small by lia.
    destruct m as [|p|p]; try lia; cbn [Z.eqb].
    + reflexivity.
    + destruct (e <=? 971); reflexivity.
  - assert (m = 9007199254740992) by lia. subst m.
    rewrite finish_carry by lia. cbn [Z.eqb].
    destruct (e + 1 <=? 971); cbn [B2Q F2Q]; [|reflexivity].
    rewrite (Z.add_comm e 1), bpow_add. change (bpow 1) with 2%Q.
    assert (E : (inject_Z 9007199254740992 == 2 * inject_Z 4503599627370496)%Q)
      by reflexivity.
    rewrite E. ring.
Qed.

Lemma finish_not_nan sx m e :
  0 <= m <= 2 ^ 53 -> -1074 <= e -> is_nan_sf (finish sx m e) = false.
Proof.
  intros Hm He.
  destruct (Z.ltb_spec m (2 ^ 53)) as [L|G].
  - rewrite finish_small by lia.
    destruct m as [|p|p]; try lia; [reflexivity|].
    destruct (e <=? 971); reflexivity.
  - assert (m = 9007199254740992) by lia. subst m.
    rewrite finish_carry by lia. destruct (e + 1 <=? 971); reflexivity.
Qed.

Lemma finish_mono x y m1 e1 l1 m2 e2 l2 :
  (x <= y)%Q -> canon x m1 e1 l1 -> canon y m2 e2 l2 -> e1 <= e2 ->
  (B2Q (finish false (round_nearest_even m1 l1) e1) <=
   B2Q (finish false (round_nearest_even m2 l2) e2))%Q.
Proof.
  intros Hxy (H1 & M1 & E1 & N1) (H2 & M2 & E2 & N2) He.
  pose proof (rne_bounds m1 l1) as B1. pose proof (rne_bounds m2 l2) as B2.
  set (r1 := round_nearest_even m1 l1) in *.
  set (r2 := round_nearest_even m2 l2) in *.
  rewrite !finish_rank by lia.
  pose proof (bpow_pos 1024) as P1024.
  assert (R1 : 0 < r1 -> final_exp r1 e1 <= 971 ->
               (inject_Z r1 * bpow e1 < bpow 1024)%Q).
  { intros Hp Hf. unfold final_exp in Hf.
    destruct (Z.ltb_spec r1 (2 ^ 53)) as [L|G].
    - apply Qlt_le_trans with (inject_Z (2 ^ 53) * bpow e1)%Q.
      + apply Qmult_lt_compat_r; [apply bpow_pos|]. rewrite <- Zlt_Qlt. exact L.
      + rewrite <- (bpow_Z 53) by lia. rewrite <- bpow_add. apply bpow_le. lia.
    - eapply Qle_lt_trans; [apply (mul_bpow_le r1 53 e1); lia|].
      apply bpow_lt. lia. }
  assert (P2 : (0 <= inject_Z r2 * bpow e2)%Q).
  { apply Qmult_le_0_compat; [|apply Qlt_le_weak, bpow_pos].
    change 0%Q with (inject_Z 0). rewrite <- Zle_Qle. lia. }
  destruct (Z.eqb_spec r1 0) as [Z1|NZ1].
  { destruct (r2 =? 0); [lra|]. destruct (final_exp r2 e2 <=? 971); lra. }
  assert (Hr : e1 = e2 -> r1 <= r2).
  { intros ->. unfold located in H1, H2.
    apply (rne_mono (x * bpow (- e2)) (y * bpow (- e2))); try assumption.
    apply Qmult_le_compat_r; [exact Hxy|]. apply Qlt_le_weak, bpow_pos. }
  assert (Hf : final_exp r1 e1 <= final_exp r2 e2).
  { unfold final_exp.
    destruct (Z.ltb_spec r1 (2 ^ 53)), (Z.ltb_spec r2 (2 ^ 53)); lia. }
  assert (V : final_exp r2 e2 <= 971 ->
              (inject_Z r1 * bpow e1 <= inject_Z r2 * bpow e2)%Q).
  { intros _. destruct (Z.eq_dec e1 e2) as [E|NE].
    - specialize (Hr E). subst e2.
      apply Qmult_le_compat_r; [|apply Qlt_le_weak, bpow_pos].
      rewrite <- Zle_Qle. exact Hr.
    - eapply Qle_trans; [apply (mul_bpow_le r1 53 e1); lia|].
      eapply Qle_trans; [|apply (bpow_le_mul r2 52 e2); lia].
      apply bpow_le. lia. }
  destruct (Z.eqb_spec r2 0) as [Z2|NZ2].
  { exfalso. destruct (Z.eq_dec e1 e2) as [E|NE]; [specialize (Hr E); lia|lia]. }
  destruct (Z.leb_spec (final_exp r1 e1) 971), (Z.leb_spec (final_exp r2 e2) 971);
    try lia.
  - apply V. lia.
  - apply Qlt_le_weak, R1; lia.
  - lra.
Qed.

Lemma binary_round_aux_mono x y m1 e1 l1 m2 e2 l2 :
  (x <= y)%Q -> 0 <= m1 -> 0 <= m2 ->
  located x m1 e1 l1 -> located y m2 e2 l2 ->
  e1 <= fexp prec emax (Zdigits2 m1 + e1) ->
  e2 <= fexp prec emax (Zdigits2 m2 + e2) ->
  (B2Q (binary_round_aux prec emax false m1 e1 l1) <=
   B2Q (binary_round_aux prec emax false m2 e2 l2))%Q.
Proof.
  intros Hxy Hm1 Hm2 H1 H2 P1 P2.
  destruct (shr_fexp_canon x m1 e1 l1 Hm1 H1 P1) as (r1 & E1 & C1).
  destruct (shr_fexp_canon y m2 e2 l2 Hm2 H2 P2) as (r2 & E2 & C2).
  rewrite !binary_round_aux_finish, E1, E2.
  apply (finish_mono x y); try assumption.
  rewrite !fexp_eq.
  destruct (Z.eq_dec m1 0) as [->|NZ].
  - cbn [Zdigits2] in *. rewrite fexp_eq in P1. lia.
  - pose proof (located_lower x m1 e1 l1 ltac:(lia) H1) as L.
    pose proof (located_upper y m2 e2 l2 Hm2 H2) as U.
    assert (Hlt : (bpow (Zdigits2 m1 - 1 + e1) < bpow (Zdigits2 m2 + e2))%Q) by lra.
    apply bpow_lt_inv in Hlt. lia.
Qed.

Lemma binary_round_aux_not_nan sx m e l x :
  0 <= m -> located x m e l -> e <= fexp prec emax (Zdigits2 m + e) ->
  is_nan_sf (binary_round_aux prec emax sx m e l) = false.
Proof.
  intros Hm H P.
  destruct (shr_fexp_canon x m e l Hm H P) as (r & E & (_ & M & Ee & _)).
  rewrite binary_round_aux_finish, E.
  pose proof (rne_bounds (shr_m r) (loc_of_shr_record r)).
  apply finish_not_nan; lia.
Qed.

Lemma canon_exp_le x y m1 e1 l1 m2 e2 l2 :
  (x <= y)%Q -> canon x m1 e1 l1 -> canon y m2 e2 l2 -> e1 <= e2.
Proof.
  intros Hxy (H1 & M1 & E1 & N1) (H2 & M2 & E2 & N2).
  destruct (Z.le_gt_cases e1 e2) as [L|G]; [exact L|exfalso].
  apply located_bounds in H1, H2. destruct H1 as [L1 _], H2 as [_ U2].
  assert (A : (bpow (52 + e1) <= x)%Q).
  { eapply Qle_trans; [|exact L1]. apply bpow_le_mul; lia. }
  assert (B : (y < bpow (52 + e1))%Q).
  { eapply Qlt_le_trans; [exact U2|]. rewrite <- inject_Z_succ.
    eapply Qle_trans; [apply (mul_bpow_le _ 53 e2); lia|]. apply bpow_le. lia. }
  lra.
Qed.

Lemma rank_mono x y v w :
  (x <= y)%Q -> rank_of x v -> rank_of y w -> (v <= w)%Q.
Proof.
  intros Hxy (m1 & e1 & l1 & C1 & E1) (m2 & e2 & l2 & C2 & E2).
  rewrite E1, E2. apply (finish_mono x y); try assumption.
  exact (canon_exp_le x y _ _ _ _ _ _ Hxy C1 C2).
Qed.

Lemma located_exact m e : located (inject_Z m * bpow e) m e loc_Exact.
Proof.
  unfold located, loc_int. rewrite <- Qmult_assoc, (Qmult_comm (bpow e)), bpow_inv.
  ring.
Qed.

Lemma canon_zero : canon 0 0 (-1074) loc_Exact.
Proof.
  split; [|lia]. unfold located, loc_int. ring.
Qed.

Lemma rank_zero : rank_of 0 0.
Proof. exists 0, (-1074), loc_Exact. split; [apply canon_zero|reflexivity]. Qed.

Lemma rank_nonneg x v : rank_of x v -> (0 <= v)%Q.
Proof.
  intros (m & e & l & (H & M & E & N) & Ev). rewrite Ev.
  pose proof (rne_bounds m l) as B.
  rewrite finish_rank by lia.
  pose proof (bpow_pos 1024). pose proof (bpow_pos e).
  destruct (_ =? 0); [lra|]. destruct (_ <=? 971); [|lra].
  apply Qmult_le_0_compat; [|lra].
  change 0%Q with (inject_Z 0). rewrite <- Zle_Qle. lia.
Qed.

Lemma bra_rank x m e l :
  0 <= m -> located x m e l -> e <= fexp prec emax (Zdigits2 m + e) ->
  rank_of x (B2Q (binary_round_aux prec emax false m e l)).
Proof.
  intros Hm H P.
  destruct (shr_fexp_canon x m e l Hm H P) as (r & E & C).
  rewrite binary_round_aux_finish, E.
  exists (shr_m r), (fexp prec emax (Zdigits2 m + e)), (loc_of_shr_record r).
  split; [exact C|reflexivity].
Qed.

(** A valid positive float is its own rounding. *)
Lemma rank_valid m e :
  bounded prec emax m e = true ->
  rank_of (inject_Z (Zpos m) * bpow e) (inject_Z (Zpos m) * bpow e).
Proof.
  intros B. pose proof (bounded_inv m e B) as [B1 B2].
  pose proof (digits2_pos_bounds m) as D.
  assert (Hm : Zpos m < 2 ^ 53).
  { eapply Z.lt_le_trans; [apply D|]. apply Z.pow_le_mono_r; lia. }
  exists (Zpos m), e, loc_Exact. split.
  - split; [apply located_exact|]. split; [lia|]. split; [lia|].
    intros G. assert (Zpos (digits2_pos m) = 53) as E53 by lia.
    rewrite E53 in D. apply D.
  - cbn [round_nearest_even]. rewrite finish_small by lia.
    apply Z.leb_le in B2. rewrite B2. reflexivity.
Qed.

(** The sign of a rounded value is the sign given. *)
Lemma bra_sign sx m e l :
  match binary_round_aux prec emax sx m e l with
  | S754_zero s | S754_infinity s | S754_finite s _ _ => s = sx
  | S754_nan => True
  end.
Proof.
  unfold binary_round_aux.
  destruct (shr_fexp prec emax m e l) as [r1 e1].
  destruct (shr_fexp prec emax _ e1 loc_Exact) as [r2 e2].
  destruct (shr_m r2); [reflexivity| |exact I].
  destruct (_ <=? _); reflexivity.
Qed.

Lemma finish_valid sx m e :
  0 <= m <= 2 ^ 53 -> -1074 <= e -> (-1074 < e -> 2 ^ 52 <= m) ->
  valid_binary (finish sx m e) = true.
Proof.
  intros Hm He Hn.
  destruct (Z.ltb_spec m (2 ^ 53)) as [L|G].
  - rewrite finish_small by lia.
    destruct m as [|p|p]; try lia; [reflexivity|].
    destruct (Z.leb_spec e 971) as [Le|Ge]; [|reflexivity].
    cbn [valid_binary]. unfold bounded, canonical_mantissa.
    apply andb_true_intro. split; [|apply Z.leb_le; exact Le].
    apply Z.eqb_eq. rewrite fexp_eq.
    assert (D1 : Zdigits2 (Zpos p) <= 53) by (apply Zdigits2_le; lia).
    cbn [Zdigits2] in D1.
    destruct (Z.eq_dec e (-1074)) as [->|NE]; [lia|].
    assert (D2 : 53 <= Zdigits2 (Zpos p)) by (apply Zdigits2_ge; lia).
    cbn [Zdigits2] in D2. lia.
  - assert (m = 9007199254740992) by lia. subst m.
    rewrite finish_carry by lia.
    destruct (Z.leb_spec (e + 1) 971) as [Le|Ge]; [|reflexivity].
    cbn [valid_binary]. unfold bounded, canonical_mantissa.
    apply andb_true_intro. split; [|apply Z.leb_le; exact Le].
    apply Z.eqb_eq. rewrite fexp_eq.
    change (Zpos (digits2_pos 4503599627370496)) with 53. lia.
Qed.

Lemma bra_valid x sx m e l :
  0 <= m -> located x m e l -> e <= fexp prec emax (Zdigits2 m + e) ->
  valid_binary (binary_round_aux prec emax sx m e l) = true.
Proof.
  intros Hm H P.
  destruct (shr_fexp_canon x m e l Hm H P) as (r & E & (_ & M & Ee & N)).
  rewrite binary_round_aux_finish, E.
  pose proof (rne_bounds (shr_m r) (loc_of_shr_record r)).
  apply finish_valid; lia.
Qed.

Lemma rank_of_ext x x' v : (x == x')%Q -> rank_of x v -> rank_of x' v.
Proof.
  intros E (m & e & l & (H & C) & Ev). exists m, e, l. split; [|exact Ev].
  split; [|exact C]. unfold located in *.
  eapply loc_int_ext; [|exact H]. rewrite E. reflexivity.
Qed.

(** *** Division *)

Lemma new_location_loc q r d :
  0 < d -> 0 <= r < d ->
  loc_int (inject_Z q + inject_Z r / inject_Z d) q (new_location d r).
Proof.
  intros Hd Hr.
  assert (Qd : (0 < inject_Z d)%Q).
  { change 0%Q with (inject_Z 0). rewrite <- Zlt_Qlt. exact Hd. }
  assert (W0 : 0 < r -> (0 < inject_Z r / inject_Z d)%Q).
  { intros Hp. apply Qlt_shift_div_l; [exact Qd|].
    rewrite Qmult_0_l. change 0%Q with (inject_Z 0). rewrite <- Zlt_Qlt. exact Hp. }
  assert (W1 : (inject_Z r / inject_Z d < 1)%Q).
  { apply Qlt_shift_div_r; [exact Qd|]. rewrite Qmult_1_l, <- Zlt_Qlt. lia. }
  assert (WL : 2 * r < d -> (inject_Z r / inject_Z d < 1 # 2)%Q).
  { intros L. apply Qlt_shift_div_r; [exact Qd|].
    assert (E : (inject_Z (2 * r) < inject_Z d)%Q) by (rewrite <- Zlt_Qlt; exact L).
    rewrite inject_Z_mult in E. change (inject_Z 2) with 2%Q in E. lra. }
  assert (WG : d < 2 * r -> ((1 # 2) < inject_Z r / inject_Z d)%Q).
  { intros L. apply Qlt_shift_div_l; [exact Qd|].
    assert (E : (inject_Z d < inject_Z (2 * r))%Q) by (rewrite <- Zlt_Qlt; exact L).
    rewrite inject_Z_mult in E. change (inject_Z 2) with 2%Q in E. lra. }
  assert (WE : 2 * r = d -> (inject_Z r / inject_Z d == 1 # 2)%Q).
  { intros E. rewrite <- E, inject_Z_mult. change (inject_Z 2) with 2%Q.
    field. intros Z0. rewrite <- E, inject_Z_mult in Qd.
    change (inject_Z 2) with 2%Q in Qd. lra. }
  assert (WZ : r = 0 -> (inject_Z r / inject_Z d == 0)%Q).
  { intros ->. change (inject_Z 0) with 0%Q. unfold Qdiv. ring. }
  revert W0 W1 WL WG WE WZ. generalize (inject_Z r / inject_Z d)%Q.
  intros w W0 W1 WL WG WE WZ.
  unfold new_location, new_location_even, new_location_odd.
  destruct (Z.even d) eqn:Ev; destruct (Z.eqb_spec r 0) as [Z0|NZ];
    try (specialize (WZ Z0); cbn [loc_int]; lra);
    specialize (W0 ltac:(lia)).
  - destruct (Z.compare_spec (2 * r) d) as [E|L|G]; cbn [loc_int];
      [specialize (WE E)|specialize (WL L)|specialize (WG G)];
      repeat split; qcmp_goal.
  - assert (Hne : 2 * r <> d).
    { intros E. rewrite <- E, Z.even_mul in Ev. discriminate Ev. }
    destruct (Z.compare_spec (2 * r + 1) d) as [E|L|G]; cbn [loc_int];
      [specialize (WL ltac:(lia))|specialize (WL ltac:(lia))|specialize (WG ltac:(lia))];
      repeat split; qcmp_goal.
Qed.

Lemma SFdiv_core_located m1 e1 m2 e2 :
  exists q e' l,
    SFdiv_core_binary prec emax (Zpos m1) e1 (Zpos m2) e2 = (q, e', l) /\
    0 <= q /\
    located ((inject_Z (Zpos m1) * bpow e1) / (inject_Z (Zpos m2) * bpow e2)) q e' l /\
    e' <= fexp prec emax (Zdigits2 q + e').
Proof.
  unfold SFdiv_core_binary.
  set (d1 := Zdigits2 (Zpos m1)). set (d2 := Zdigits2 (Zpos m2)).
  set (e' := Z.min (fexp prec emax (d1 + e1 - (d2 + e2))) (e1 - e2)).
  set (s := e1 - e2 - e').
  assert (Hs : 0 <= s) by (unfold s, e'; lia).
  set (m' := match s with Zpos _ => Z.shiftl (Zpos m1) s | Z0 => Zpos m1 | Zneg _ => 0 end).
  assert (Em' : m' = Zpos m1 * 2 ^ s).
  { unfold m'. destruct s as [|p|p]; [cbn; lia| |lia].
    rewrite Z.shiftl_mul_pow2 by lia. reflexivity. }
  pose proof (Z_div_mod m' (Zpos m2) ltac:(lia)) as DM.
  destruct (Z.div_eucl m' (Zpos m2)) as [q r]. destruct DM as [DM Hr].
  exists q, e', (new_location (Zpos m2) r).
  split; [reflexivity|].
  pose proof (Zdigits2_lower (Zpos m1) ltac:(lia)) as L1.
  pose proof (Zdigits2_upper (Zpos m2) ltac:(lia)) as U2.
  pose proof (Zdigits2_nonneg (Zpos m1)) as N1.
  pose proof (Zdigits2_nonneg (Zpos m2)) as N2.
  assert (P1 : 1 <= d1) by (unfold d1; cbn [Zdigits2]; lia).
  fold d1 in L1, N1. fold d2 in U2, N2.
  assert (P2s : 0 < 2 ^ s) by (apply Z.pow_pos_nonneg; lia).
  assert (Hq : 0 <= q).
  { assert (0 <= m') by (rewrite Em'; nia). nia. }
  split; [exact Hq|]. split.
  - unfold located.
    eapply loc_int_ext; [|apply (new_location_loc q r (Zpos m2)); lia].
    assert (E : (inject_Z (Zpos m1) * bpow e1 ==
                 (inject_Z q * inject_Z (Zpos m2) + inject_Z r) * bpow e' * bpow e2)%Q).
    { rewrite <- inject_Z_mult, <- inject_Z_plus.
      replace (q * Zpos m2 + r) with (Zpos m1 * 2 ^ s) by lia.
      rewrite inject_Z_mult, <- (bpow_Z s Hs), <- !Qmult_assoc, <- !bpow_add.
      replace (s + (e' + e2)) with e1 by (unfold s; lia). reflexivity. }
    rewrite E.
    pose proof (bpow_pos e2). pose proof (bpow_pos e'). pose proof (bpow_inv e') as I.
    assert (Q2 : (0 < inject_Z (Zpos m2))%Q).
    { change 0%Q with (inject_Z 0). rewrite <- Zlt_Qlt. lia. }
    transitivity ((inject_Z q + inject_Z r / inject_Z (Zpos m2)) * (bpow (- e') * bpow e'))%Q.
    + rewrite I. ring.
    + field. split; lra.
  - rewrite fexp_eq.
    assert (He' : e' <= Z.max (d1 + e1 - (d2 + e2) - 53) (-1074)).
    { unfold e'. rewrite fexp_eq. lia. }
    assert (Es : s = e1 - e2 - e') by reflexivity.
    clearbody e' s.
    destruct (Z.le_gt_cases e' (-1074)) as [Le|Gt]; [lia|].
    assert (Hds : 52 <= d1 - 1 + s - d2) by lia.
    assert (Hq52 : 2 ^ 52 <= q).
    { assert (A : 2 ^ (d1 - 1 + s) <= Zpos m1 * 2 ^ s).
      { rewrite Z.pow_add_r by lia.
        apply Z.mul_le_mono_nonneg_r; lia. }
      assert (B : 2 ^ (d1 - 1 + s) = 2 ^ (d1 - 1 + s - d2) * 2 ^ d2).
      { rewrite <- Z.pow_add_r by lia. f_equal. lia. }
      assert (C : 2 ^ 52 <= 2 ^ (d1 - 1 + s - d2)) by (apply Z.pow_le_mono_r; lia).
      nia. }
    assert (53 <= Zdigits2 q) by (apply Zdigits2_ge; lia).
    lia.
Qed.

Lemma SFdiv_rank mt et mr er :
  rank_of ((inject_Z (Zpos mt) * bpow et) / (inject_Z (Zpos mr) * bpow er))
    (B2Q (SF64div (S754_finite false mt et) (S754_finite false mr er))).
Proof.
  destruct (SFdiv_core_located mt et mr er) as (q & e' & l & E & Hq & H & P).
  unfold SF64div, SFdiv. rewrite E. cbn [xorb].
  apply bra_rank; assumption.
Qed.

Lemma SFdiv_valid st mt et sr mr er :
  valid_binary (SF64div (S754_finite st mt et) (S754_finite sr mr er)) = true.
Proof.
  destruct (SFdiv_core_located mt et mr er) as (q & e' & l & E & Hq & H & P).
  unfold SF64div, SFdiv. rewrite E.
  eapply bra_valid; eassumption.
Qed.

(** *** Multiplication by ten *)

Lemma mul_ten_located m e :
  located (10 * (inject_Z (Zpos m) * bpow e))
    (Zpos (5629499534213120 * m)) (-49 + e) loc_Exact /\
  -49 + e <= fexp prec emax (Zdigits2 (Zpos (5629499534213120 * m)) + (-49 + e)).
Proof.
  split.
  - unfold located.
    eapply loc_int_ext; [|apply (located_exact (Zpos (5629499534213120 * m)) (-49 + e))].
    apply Qmult_comp; [|reflexivity].
    rewrite Pos2Z.inj_mul, inject_Z_mult, bpow_add.
    assert (E : (inject_Z 5629499534213120 * bpow (-49) == 10)%Q) by reflexivity.
    rewrite <- E. ring.
  - rewrite fexp_eq.
    assert (53 <= Zdigits2 (Zpos (5629499534213120 * m))).
    { apply Zdigits2_ge; lia. }
    lia.
Qed.

Lemma SFmul_ten_rank m e :
  rank_of (10 * (inject_Z (Zpos m) * bpow e))
    (B2Q (SF64mul ten_sf (S754_finite false m e))).
Proof.
  destruct (mul_ten_located m e) as [H P].
  unfold SF64mul, SFmul, ten_sf. cbn [xorb].
  apply bra_rank; [lia|exact H|exact P].
Qed.

Lemma SFmul_ten_valid s m e :
  valid_binary (SF64mul ten_sf (S754_finite s m e)) = true.
Proof.
  destruct (mul_ten_located m e) as [H P].
  unfold SF64mul, SFmul, ten_sf.
  eapply bra_valid; [lia|exact H|exact P].
Qed.

(** *** Subtraction *)

Lemma iter_xO_value m d : Zpos (Pos.iter xO m d) = Zpos m * 2 ^ Zpos d.
Proof.
  pose proof (shift_pos_correct d m) as H. unfold shift_pos in H.
  rewrite H. change (Z.pow_pos 2 d) with (2 ^ Zpos d). lia.
Qed.

Lemma iter_xO_digits m d :
  Zpos (digits2_pos (Pos.iter xO m d)) = Zpos (digits2_pos m) + Zpos d.
Proof.
  induction d as [|d IH] using Pos.peano_ind.
  - cbn [Pos.iter digits2_pos]. lia.
  - rewrite Pos.iter_succ. cbn [digits2_pos]. lia.
Qed.

Lemma shl_align_spec mx ex ex' :
  exists mz ez,
    shl_align mx ex ex' = (mz, ez) /\ ez = Z.min ex ex' /\
    Zpos mz = Zpos mx * 2 ^ (ex - ez) /\
    Zpos (digits2_pos mz) = Zpos (digits2_pos mx) + (ex - ez).
Proof.
  unfold shl_align. destruct (ex' - ex) as [|d|d] eqn:E.
  - exists mx, ex. replace (ex - ex) with 0 by lia. cbn. repeat split; lia.
  - exists mx, ex. replace (ex - ex) with 0 by lia. cbn. repeat split; lia.
  - exists (Pos.iter xO mx d), ex'.
    replace (ex - ex') with (Zpos d) by lia.
    rewrite iter_xO_value, iter_xO_digits. repeat split; lia.
Qed.

Lemma align_value mz mx ex ez :
  ez <= ex -> Zpos mz = Zpos mx * 2 ^ (ex - ez) ->
  (inject_Z (Zpos mz) * bpow ez == inject_Z (Zpos mx) * bpow ex)%Q.
Proof.
  intros L E. rewrite E, inject_Z_mult, <- (bpow_Z (ex - ez)) by lia.
  rewrite <- Qmult_assoc, <- bpow_add. replace (ex - ez + ez) with ex by lia.
  reflexivity.
Qed.

Lemma binary_round_aligned p e :
  exists mz ez,
    (forall sx, binary_round prec emax sx p e =
                binary_round_aux prec emax sx (Zpos mz) ez loc_Exact) /\
    located (inject_Z (Zpos p) * bpow e) (Zpos mz) ez loc_Exact /\
    ez <= fexp prec emax (Zdigits2 (Zpos mz) + ez).
Proof.
  destruct (shl_align_spec p e (fexp prec emax (Zpos (digits2_pos p) + e)))
    as (mz & ez & E & Ez & Em & Ed).
  exists mz, ez. split; [|split].
  - intros sx. unfold binary_round. rewrite E. reflexivity.
  - unfold located. eapply loc_int_ext; [|apply (located_exact (Zpos mz) ez)].
    apply Qmult_comp; [|reflexivity]. apply align_value; [lia|exact Em].
  - cbn [Zdigits2]. rewrite Ed.
    replace (Zpos (digits2_pos p) + (e - ez) + ez) with (Zpos (digits2_pos p) + e) by lia.
    lia.
Qed.

Lemma binary_round_rank p e :
  rank_of (inject_Z (Zpos p) * bpow e) (B2Q (binary_round prec emax false p e)).
Proof.
  destruct (binary_round_aligned p e) as (mz & ez & E & H & P).
  rewrite E. apply bra_rank; [lia|exact H|exact P].
Qed.

Lemma binary_round_valid sx p e :
  valid_binary (binary_round prec emax sx p e) = true.
Proof.
  destruct (binary_round_aligned p e) as (mz & ez & E & H & P).
  rewrite E. eapply bra_valid; [lia|exact H|exact P].
Qed.

Lemma binary_normalize_valid m e :
  valid_binary (binary_normalize prec emax m e false) = true.
Proof. destruct m; cbn [binary_normalize]; [reflexivity| |]; apply binary_round_valid. Qed.

Lemma cond_Zopp_value s mz mx ex ez :
  ez <= ex -> Zpos mz = Zpos mx * 2 ^ (ex - ez) ->
  (inject_Z (cond_Zopp s (Zpos mz)) * bpow ez == F2Q s mx ex)%Q.
Proof.
  intros L E. pose proof (align_value mz mx ex ez L E) as V.
  destruct s; unfold cond_Zopp, F2Q; [|exact V].
  change (- Zpos mz) with (Z.opp (Zpos mz)). rewrite inject_Z_opp, <- V. ring.
Qed.

Lemma SFsub_finite sx mx ex sy my ey :
  exists D,
    SF64sub (S754_finite sx mx ex) (S754_finite sy my ey)
    = binary_normalize prec emax D (Z.min ex ey) false /\
    (inject_Z D * bpow (Z.min ex ey) == F2Q sx mx ex - F2Q sy my ey)%Q.
Proof.
  unfold SF64sub, SFsub. set (ez := Z.min ex ey).
  destruct (shl_align_spec mx ex ez) as (m1 & z1 & E1 & Z1 & V1 & _).
  destruct (shl_align_spec my ey ez) as (m2 & z2 & E2 & Z2 & V2 & _).
  rewrite E1, E2. cbn [fst].
  assert (Hz1 : z1 = ez) by (unfold ez in *; lia).
  assert (Hz2 : z2 = ez) by (unfold ez in *; lia).
  clear Z1 Z2. subst z1 z2.
  eexists. split; [reflexivity|].
  pose proof (cond_Zopp_value sx m1 mx ex ez ltac:(unfold ez; lia) V1) as A.
  pose proof (cond_Zopp_value sy m2 my ey ez ltac:(unfold ez; lia) V2) as B.
  unfold Z.sub. rewrite inject_Z_plus, inject_Z_opp, <- A, <- B. ring.
Qed.

(** The difference of two finite values, the greater first, is the
    rounding of the exact difference. *)
Lemma SFsub_rank a c :
  valid_binary a = true -> valid_binary c = true ->
  is_finite_sf a = true -> is_finite_sf c = true ->
  (B2Q c <= B2Q a)%Q ->
  rank_of (B2Q a - B2Q c) (B2Q (SF64sub a c)).
Proof.
  intros Va Vc Fa Fc Hle.
  destruct a as [sa|sa| |sa ma ea], c as [sc|sc| |sc mc ec]; try discriminate;
    cbn [valid_binary B2Q] in *.
  - apply (rank_of_ext 0); [ring|].
    destruct sa, sc; cbn; apply rank_zero.
  - pose proof (F2Q_pos mc ec). destruct sc; unfold F2Q in *; [|lra].
    cbn [SF64sub SFsub negb B2Q F2Q].
    eapply rank_of_ext; [|apply (rank_valid mc ec Vc)]. ring.
  - pose proof (F2Q_pos ma ea). destruct sa; unfold F2Q in *; [lra|].
    cbn [SF64sub SFsub B2Q F2Q].
    eapply rank_of_ext; [|apply (rank_valid ma ea Va)]. ring.
  - destruct (SFsub_finite sa ma ea sc mc ec) as (D & E & V).
    rewrite E. eapply rank_of_ext; [exact V|].
    assert (HD : 0 <= D).
    { destruct (Z.le_gt_cases 0 D) as [L|G]; [exact L|exfalso].
      assert (Q : (inject_Z D * bpow (Z.min ea ec) < 0)%Q).
      { pose proof (bpow_pos (Z.min ea ec)) as Hp.
        assert (I : (inject_Z D < 0)%Q).
        { change 0%Q with (inject_Z 0). rewrite <- Zlt_Qlt. exact G. }
        setoid_replace 0%Q with (0 * bpow (Z.min ea ec))%Q by ring.
        apply Qmult_lt_compat_r; assumption. }
      lra. }
    destruct D as [|p|p]; try lia; cbn [binary_normalize].
    + eapply rank_of_ext; [|apply rank_zero]. ring.
    + apply binary_round_rank.
Qed.

Lemma SFsub_valid a c :
  valid_binary a = true -> valid_binary c = true ->
  valid_binary (SF64sub a c) = true.
Proof.
  intros Va Vc.
  destruct a as [sa|sa| |sa ma ea], c as [sc|sc| |sc mc ec];
    try reflexivity; try exact Va; try exact Vc.
  - destruct sa, sc; reflexivity.
  - destruct sa, sc; reflexivity.
  - destruct (SFsub_finite sa ma ea sc mc ec) as (D & E & V).
    rewrite E. apply binary_normalize_valid.
Qed.

(** ** The empty batch *)

(** C10: on the empty batch [find_extremes] takes the minimum of no value:
    [group_by_attributes] raises [ValueError] and returns no band mapping. *)
Theorem group_by_attributes_empty :
  forall measure, group_by_attributes measure [] = Raise ValueError.
Proof. intros measure. reflexivity. Qed.

(** ** The worked example *)

Example example_measure_all :
  measure_all example_measure example_fonts = Ok (example_darkness, example_width).
Proof. vm_compute. reflexivity. Qed.

Example example_bands :
  group_by_attributes example_measure example_fonts
  = Ok (example_weights, example_widths).
Proof. vm_compute. reflexivity. Qed.

Example flat_measure_all :
  measure_all flat_measure example_fonts
  = Ok (flat_values 0.25, flat_values 1.5).
Proof. vm_compute. reflexivity. Qed.

Example flat_bands :
  group_by_attributes flat_measure example_fonts = Ok (all_five, all_five).
Proof. vm_compute. reflexivity. Qed.

Lemma example_batch_not_1_6_10 :
  weights_of (group_by_attributes example_measure example_fonts)
  <> Some [("FontA"%string, 1); ("FontB"%string, 6); ("FontC"%string, 10)].
Proof. vm_compute. discriminate. Qed.

(** C2 (amended): with darkness 0.10, 0.30 and 0.50 the weight bands are
    1, 5 and 10: in binary64 [(0.30 - 0.10) / (0.50 - 0.10)] is just below
    one half. *)
Theorem example_weight_bands :
  forall measure wA wB wC weights widths,
    measure "FontA"%string None = Ok (0.10%float, wA) ->
    measure "FontB"%string None = Ok (0.30%float, wB) ->
    measure "FontC"%string None = Ok (0.50%float, wC) ->
    group_by_attributes measure example_fonts = Ok (weights, widths) ->
    weights = [("FontA"%string, 1); ("FontB"%string, 5); ("FontC"%string, 10)].
Proof.
  intros measure wA wB wC weights widths HA HB HC.
  unfold group_by_attributes, measure_all, example_fonts, measure_step.
  cbn [foldM fst snd bind]. rewrite HA. cbn [foldM fst snd bind].
  rewrite HB. cbn [foldM fst snd bind]. rewrite HC. cbn [foldM fst snd bind].
  match goal with
  | |- context [normalize ?f (PyDict.set ?a ?x (PyDict.set ?b ?y (PyDict.set ?c ?z [])))] =>
      let r := eval vm_compute in (normalize f (PyDict.set a x (PyDict.set b y (PyDict.set c z [])))) in
      change (normalize f (PyDict.set a x (PyDict.set b y (PyDict.set c z [])))) with r
  end.
  cbn [bind].
  destruct (normalize _ _); cbn [bind]; intros H; inversion H; reflexivity.
Qed.

Lemma example_weight_bands_witness :
  weights_of (group_by_attributes example_measure example_fonts)
  = Some [("FontA"%string, 1); ("FontB"%string, 5); ("FontC"%string, 10)].
Proof.
  destruct (group_by_attributes example_measure example_fonts) as [[weights widths]|e] eqn:E.
  - cbn [weights_of]. f_equal.
    exact (example_weight_bands example_measure 10.5%float 12.25%float 11%float
             weights widths eq_refl eq_refl eq_refl E).
  - vm_compute in E. discriminate E.
Defined.

(** *** The floor *)

Lemma bpow_neg e : (bpow e == / bpow (- e))%Q.
Proof.
  unfold bpow. rewrite Qpower_opp, Qinv_involutive. reflexivity.
Qed.

Lemma floor_finite_spec s m e :
  PyFloat.floor_finite s m e = Qfloor (F2Q s m e).
Proof.
  unfold PyFloat.floor_finite.
  set (v := if s then Z.neg m else Z.pos m).
  assert (E : (F2Q s m e == inject_Z v * bpow e)%Q).
  { unfold F2Q, v. destruct s; [|reflexivity].
    change (Z.neg m) with (- Z.pos m). rewrite inject_Z_opp. ring. }
  rewrite E. clearbody v.
  destruct (Z.leb_spec 0 e) as [L|G].
  - rewrite (bpow_Z e L), <- inject_Z_mult, Qfloor_Z. reflexivity.
  - rewrite (bpow_neg e), (bpow_Z (- e)) by lia.
    apply Zdiv_Qdiv.
Qed.

Lemma floor_ok x k :
  PyFloat.floor x = Ok k ->
  ffinite x = true /\ k = Qfloor (fval x).
Proof.
  unfold PyFloat.floor, ffinite, fval.
  destruct (Prim2SF x) as [s|s| |s m e]; try discriminate; intros H;
    injection H as <-; cbn [is_finite_sf B2Q]; split; try reflexivity.
  apply floor_finite_spec.
Qed.

Lemma floor_total x : ffinite x = true -> exists k, PyFloat.floor x = Ok k.
Proof.
  unfold PyFloat.floor, ffinite.
  destruct (Prim2SF x) as [s|s| |s m e]; try discriminate; intros _; eauto.
Qed.

(** *** The order of the floats *)

Lemma ltb_fval x y :
  PrimFloat.ltb x y = true -> (fval x < fval y)%Q /\ fnan x = false /\ fnan y = false.
Proof.
  rewrite ltb_spec. unfold fval, fnan. intros H.
  destruct (is_nan_sf (Prim2SF x)) eqn:Nx.
  { destruct (Prim2SF x); try discriminate; discriminate H. }
  destruct (is_nan_sf (Prim2SF y)) eqn:Ny.
  { destruct (Prim2SF y); try discriminate; rewrite SFltb_nan_r in H; discriminate H. }
  split; [|split; reflexivity].
  apply (SFltb_correct _ _ (Prim2SF_valid x) (Prim2SF_valid y) Nx Ny). exact H.
Qed.

Lemma ltb_false_fval x y :
  PrimFloat.ltb x y = false -> fnan x = false -> fnan y = false ->
  (fval y <= fval x)%Q.
Proof.
  rewrite ltb_spec. unfold fval, fnan. intros H Nx Ny.
  apply (SFltb_false _ _ (Prim2SF_valid x) (Prim2SF_valid y) Nx Ny). exact H.
Qed.

Lemma ltb_nan_r x y : fnan y = true -> PrimFloat.ltb x y = false.
Proof.
  rewrite ltb_spec. unfold fnan. destruct (Prim2SF y); try discriminate.
  intros _. apply SFltb_nan_r.
Qed.

Lemma ltb_nan_l x y : fnan x = true -> PrimFloat.ltb x y = false.
Proof.
  rewrite ltb_spec. unfold fnan. destruct (Prim2SF x); try discriminate.
  intros _. reflexivity.
Qed.

(** *** [min] and [max] *)

Lemma fold_min_nan l x :
  fnan x = true -> fold_left PyFloat.min_step l x = x.
Proof.
  intros N. induction l as [|i l IH]; cbn [fold_left]; [reflexivity|].
  unfold PyFloat.min_step at 2. rewrite (ltb_nan_r i x N). exact IH.
Qed.

Lemma fold_max_nan l x :
  fnan x = true -> fold_left PyFloat.max_step l x = x.
Proof.
  intros N. induction l as [|i l IH]; cbn [fold_left]; [reflexivity|].
  unfold PyFloat.max_step at 2. rewrite (ltb_nan_l x i N). exact IH.
Qed.

Lemma fold_min_spec l :
  forall x,
    In (fold_left PyFloat.min_step l x) (x :: l) /\
    (fnan (fold_left PyFloat.min_step l x) = false ->
     forall d, In d (x :: l) -> fnan d = false ->
               (fval (fold_left PyFloat.min_step l x) <= fval d)%Q).
Proof.
  induction l as [|i l IH]; intros x; cbn [fold_left].
  - split; [left; reflexivity|]. intros _ d [<-|[]] _. apply Qle_refl.
  - unfold PyFloat.min_step at 2 4 6. destruct (PrimFloat.ltb i x) eqn:L.
    + destruct (IH i) as [HI HM]. split; [right; exact HI|].
      intros Nr d Hd Nd.
      destruct (ltb_fval i x L) as (Lt & Ni & Nx).
      pose proof (HM Nr i (or_introl eq_refl) Ni) as Hi.
      destruct Hd as [<-|Hd]; [lra|]. apply HM; assumption.
    + destruct (IH x) as [HI HM]. split.
      * destruct HI as [E|HI]; [left; exact E|right; right; exact HI].
      * intros Nr d Hd Nd.
        assert (Nx : fnan x = false).
        { destruct (fnan x) eqn:N; [|reflexivity].
          rewrite (fold_min_nan l x N) in Nr. congruence. }
        pose proof (HM Nr x (or_introl eq_refl) Nx) as Hx.
        destruct Hd as [<-|[<-|Hd]].
        -- exact Hx.
        -- pose proof (ltb_false_fval i x L Nd Nx). lra.
        -- apply HM; [exact Nr|right; exact Hd|exact Nd].
Qed.

Lemma fold_max_spec l :
  forall x,
    In (fold_left PyFloat.max_step l x) (x :: l) /\
    (fnan (fold_left PyFloat.max_step l x) = false ->
     forall d, In d (x :: l) -> fnan d = false ->
               (fval d <= fval (fold_left PyFloat.max_step l x))%Q).
Proof.
  induction l as [|i l IH]; intros x; cbn [fold_left].
  - split; [left; reflexivity|]. intros _ d [<-|[]] _. apply Qle_refl.
  - unfold PyFloat.max_step at 2 4 6. destruct (PrimFloat.ltb x i) eqn:L.
    + destruct (IH i) as [HI HM]. split; [right; exact HI|].
      intros Nr d Hd Nd.
      destruct (ltb_fval x i L) as (Lt & Nx & Ni).
      pose proof (HM Nr i (or_introl eq_refl) Ni) as Hi.
      destruct Hd as [<-|Hd]; [lra|]. apply HM; assumption.
    + destruct (IH x) as [HI HM]. split.
      * destruct HI as [E|HI]; [left; exact E|right; right; exact HI].
      * intros Nr d Hd Nd.
        assert (Nx : fnan x = false).
        { destruct (fnan x) eqn:N; [|reflexivity].
          rewrite (fold_max_nan l x N) in Nr. congruence. }
        pose proof (HM Nr x (or_introl eq_refl) Nx) as Hx.
        destruct Hd as [<-|[<-|Hd]].
        -- exact Hx.
        -- pose proof (ltb_false_fval x i L Nx Nd). lra.
        -- apply HM; [exact Nr|right; exact Hd|exact Nd].
Qed.

Lemma find_extremes_spec values lo hi :
  find_extremes values = Ok (lo, hi) ->
  In lo (PyDict.values values) /\ In hi (PyDict.values values) /\
  (fnan lo = false -> forall d, In d (PyDict.values values) -> fnan d = false ->
                      (fval lo <= fval d)%Q) /\
  (fnan hi = false -> forall d, In d (PyDict.values values) -> fnan d = false ->
                      (fval d <= fval hi)%Q).
Proof.
  unfold find_extremes, PyFloat.min, PyFloat.max.
  destruct (PyDict.values values) as [|x l]; [discriminate|].
  cbn [bind]. intros H. injection H as <- <-.
  destruct (fold_min_spec l x) as [A B], (fold_max_spec l x) as [C D].
  auto.
Qed.

(** *** Kinds of results *)

Lemma rank_unique x v w : rank_of x v -> rank_of x w -> (v == w)%Q.
Proof.
  intros Hv Hw.
  pose proof (rank_mono x x v w (Qle_refl x) Hv Hw).
  pose proof (rank_mono x x w v (Qle_refl x) Hw Hv).
  lra.
Qed.

Lemma finite_of_rank f :
  is_nan_sf f = false -> (0 <= B2Q f)%Q -> (B2Q f < bpow 1024)%Q ->
  is_finite_sf f = true.
Proof.
  pose proof (bpow_pos 1024).
  destruct f as [s|s| |s m e]; cbn [is_nan_sf B2Q is_finite_sf];
    try reflexivity; try discriminate.
  destruct s; intros _ A B; lra.
Qed.

Lemma finite_lt_1024 f :
  valid_binary f = true -> is_finite_sf f = true -> (B2Q f < bpow 1024)%Q.
Proof.
  pose proof (bpow_pos 1024).
  destruct f as [s|s| |s m e]; cbn [is_finite_sf B2Q valid_binary];
    try discriminate; intros V _; [lra|].
  pose proof (bounded_lt_1024 m e V). pose proof (F2Q_pos m e).
  destruct s; unfold F2Q; lra.
Qed.

Lemma finite_nonneg_sign s m e : (0 <= B2Q (S754_finite s m e))%Q -> s = false.
Proof.
  cbn [B2Q]. pose proof (F2Q_pos m e). destruct s; unfold F2Q; [lra|reflexivity].
Qed.

Lemma SFmul_ten_inv q :
  is_finite_sf (SF64mul ten_sf q) = true -> is_finite_sf q = true.
Proof. destruct q; cbn; intros H; try discriminate H; reflexivity. Qed.

Lemma SFdiv_inv t r :
  is_finite_sf (SF64div t r) = true ->
  is_finite_sf t = true /\
  match r with S754_finite _ _ _ | S754_infinity _ => True | _ => False end.
Proof.
  destruct t, r; cbn [SF64div SFdiv is_finite_sf]; intros H;
    try discriminate H; split; trivial.
Qed.

Lemma SFsub_inv a c :
  is_finite_sf (SF64sub a c) = true ->
  is_finite_sf a = true /\ is_finite_sf c = true.
Proof.
  destruct a as [sa|sa| |sa ma ea], c as [sc|sc| |sc mc ec];
    cbn [SF64sub SFsub is_finite_sf]; intros H;
    try discriminate H; try (split; reflexivity).
  destruct sa, sc; discriminate H.
Qed.

Lemma SFsub_not_nan a c :
  is_finite_sf a = true -> is_finite_sf c = true ->
  is_nan_sf (SF64sub a c) = false.
Proof.
  destruct a as [sa|sa| |sa ma ea], c as [sc|sc| |sc mc ec];
    try discriminate; intros _ _; try reflexivity.
  - destruct sa, sc; reflexivity.
  - destruct (SFsub_finite sa ma ea sc mc ec) as (D & E & _). rewrite E.
    destruct D as [|p|p]; cbn [binary_normalize]; [reflexivity| |];
      destruct (binary_round_aligned p (Z.min ea ec)) as (mz & ez & Er & H & P);
      rewrite Er; eapply binary_round_aux_not_nan; try eassumption; lia.
Qed.

Lemma SFdiv_not_nan t sr mr er :
  is_finite_sf t = true ->
  is_nan_sf (SF64div t (S754_finite sr mr er)) = false.
Proof.
  destruct t as [st|st| |st mt et]; try discriminate; intros _; [reflexivity|].
  destruct (SFdiv_core_located mt et mr er) as (q & e' & l & E & Hq & H & P).
  unfold SF64div, SFdiv. rewrite E.
  eapply binary_round_aux_not_nan; eassumption.
Qed.

Lemma SFmul_ten_not_nan q :
  is_finite_sf q = true -> is_nan_sf (SF64mul ten_sf q) = false.
Proof.
  destruct q as [s|s| |s m e]; try discriminate; intros _; [reflexivity|].
  destruct (mul_ten_located m e) as [H P].
  unfold SF64mul, SFmul, ten_sf.
  eapply binary_round_aux_not_nan; [|exact H|exact P]. lia.
Qed.

Lemma SFdiv_rank_gen t mr er :
  is_finite_sf t = true -> (0 <= B2Q t)%Q ->
  rank_of (B2Q t / (inject_Z (Zpos mr) * bpow er))
    (B2Q (SF64div t (S754_finite false mr er))).
Proof.
  destruct t as [st|st| |st mt et]; try discriminate; intros _ Hn.
  - cbn [SF64div SFdiv B2Q]. eapply rank_of_ext; [|apply rank_zero].
    unfold Qdiv. ring.
  - rewrite (finite_nonneg_sign _ _ _ Hn). apply SFdiv_rank.
Qed.

Lemma SFmul_ten_rank_gen q :
  is_finite_sf q = true -> (0 <= B2Q q)%Q ->
  rank_of (10 * B2Q q) (B2Q (SF64mul ten_sf q)).
Proof.
  destruct q as [s|s| |s m e]; try discriminate; intros _ Hn.
  - cbn [SF64mul SFmul ten_sf B2Q]. eapply rank_of_ext; [|apply rank_zero]. ring.
  - rewrite (finite_nonneg_sign _ _ _ Hn). apply SFmul_ten_rank.
Qed.

Lemma SFdiv_valid_gen t r :
  valid_binary (SF64div t r) = true.
Proof.
  destruct t, r; try reflexivity. apply SFdiv_valid.
Qed.

Lemma SFmul_ten_valid_gen q : valid_binary (SF64mul ten_sf q) = true.
Proof. destruct q; try reflexivity. apply SFmul_ten_valid. Qed.

Lemma rank_of_ext_r x v v' : (v == v')%Q -> rank_of x v -> rank_of x v'.
Proof.
  intros E (m & e & l & C & Ev). exists m, e, l. split; [exact C|].
  rewrite <- E. exact Ev.
Qed.

Lemma rank_one : rank_of 1 1.
Proof.
  assert (E : (inject_Z 4503599627370496 * bpow (-52) == 1)%Q) by reflexivity.
  pose proof (rank_valid 4503599627370496 (-52) eq_refl) as H.
  eapply rank_of_ext; [exact E|]. eapply rank_of_ext_r; [exact E|exact H].
Qed.

Lemma rank_ten : rank_of 10 10.
Proof.
  assert (E : (inject_Z 5629499534213120 * bpow (-49) == 10)%Q) by reflexivity.
  pose proof (rank_valid 5629499534213120 (-49) eq_refl) as H.
  eapply rank_of_ext; [exact E|]. eapply rank_of_ext_r; [exact E|exact H].
Qed.

Lemma kind_cases r :
  match r with S754_finite _ _ _ | S754_infinity _ => True | _ => False end ->
  (exists s m e, r = S754_finite s m e) \/ (exists s, r = S754_infinity s).
Proof. destruct r; intros H; try contradiction; eauto. Qed.

Lemma positive_cases r :
  is_finite_sf r = true -> SFeqb r (S754_zero false) = false -> (0 <= B2Q r)%Q ->
  exists m e, r = S754_finite false m e.
Proof.
  destruct r as [s|s| |s m e]; try discriminate; intros _ NZ Hn.
  rewrite (finite_nonneg_sign _ _ _ Hn). eauto.
Qed.



(** ** The score of one font *)

Lemma ffinite_not_nan x : ffinite x = true -> fnan x = false.
Proof. unfold ffinite, fnan. destruct (Prim2SF x); try discriminate; reflexivity. Qed.

Lemma eqb_fval x y : PrimFloat.eqb x y = true -> (fval x == fval y)%Q.
Proof.
  rewrite eqb_spec. unfold SFeqb, fval. intros H.
  destruct (is_nan_sf (Prim2SF x)) eqn:Nx.
  { destruct (Prim2SF x); try discriminate; discriminate H. }
  destruct (is_nan_sf (Prim2SF y)) eqn:Ny.
  { destruct (Prim2SF y); try discriminate.
    destruct (Prim2SF x); discriminate H. }
  rewrite (SFcompare_correct _ _ (Prim2SF_valid x) (Prim2SF_valid y) Nx Ny) in H.
  apply Qeq_alt. destruct (_ ?= _)%Q; try discriminate H. reflexivity.
Qed.

Lemma eqb_zero x :
  PrimFloat.eqb x 0 = SFeqb (Prim2SF x) (S754_zero false).
Proof. rewrite eqb_spec. reflexivity. Qed.

Lemma score_inv v lo range b :
  score v lo range = Ok b ->
  PrimFloat.eqb range 0 = false /\
  ffinite (product v lo range) = true /\
  b = Z.min 10 (1 + Qfloor (fval (product v lo range))).
Proof.
  unfold score, PyFloat.truediv.
  destruct (PrimFloat.eqb range 0); [discriminate|]. cbn [bind].
  fold (product v lo range).
  destruct (PyFloat.floor (product v lo range)) as [k|e] eqn:F; [|discriminate].
  cbn [bind]. intros H. injection H as <-.
  destruct (floor_ok _ _ F) as [Hf ->]. auto.
Qed.

Lemma score_total v lo range :
  PrimFloat.eqb range 0 = false -> ffinite (product v lo range) = true ->
  score v lo range = Ok (Z.min 10 (1 + Qfloor (fval (product v lo range)))).
Proof.
  intros E F. unfold score, PyFloat.truediv. rewrite E. cbn [bind].
  fold (product v lo range).
  destruct (floor_total _ F) as [k Hk]. rewrite Hk. cbn [bind].
  destruct (floor_ok _ _ Hk) as [_ ->]. reflexivity.
Qed.

Section Score.

Variable values : dict float.
Variables lo hi : float.
Hypothesis extremes : find_extremes values = Ok (lo, hi).

Let L := Prim2SF lo.
Let R := SF64sub (Prim2SF hi) L.
Let T (v : float) := SF64sub (Prim2SF v) L.
Let Qt (v : float) := SF64div (T v) R.

Lemma product_spec v :
  Prim2SF (product v lo (hi - lo)) = SF64mul ten_sf (Qt v).
Proof.
  unfold product, Qt, T, R, L. rewrite mul_spec, div_spec, !sub_spec.
  reflexivity.
Qed.

Lemma range_spec : Prim2SF (hi - lo) = R.
Proof. unfold R, L. apply sub_spec. Qed.

Lemma lo_le_value v :
  In v (PyDict.values values) -> ffinite v = true -> ffinite lo = true ->
  (fval lo <= fval v)%Q.
Proof.
  intros Hv Fv Fl.
  destruct (find_extremes_spec _ _ _ extremes) as (_ & _ & Hmin & _).
  apply Hmin; auto using ffinite_not_nan.
Qed.

Lemma value_le_hi v :
  In v (PyDict.values values) -> ffinite v = true -> ffinite hi = true ->
  (fval v <= fval hi)%Q.
Proof.
  intros Hv Fv Fh.
  destruct (find_extremes_spec _ _ _ extremes) as (_ & _ & _ & Hmax).
  apply Hmax; auto using ffinite_not_nan.
Qed.

Lemma hi_in : In hi (PyDict.values values).
Proof. apply (find_extremes_spec _ _ _ extremes). Qed.

Lemma lo_in : In lo (PyDict.values values).
Proof. apply (find_extremes_spec _ _ _ extremes). Qed.

Lemma T_rank v :
  In v (PyDict.values values) -> ffinite v = true -> ffinite lo = true ->
  rank_of (fval v - fval lo) (B2Q (T v)).
Proof.
  intros Hv Fv Fl. unfold T, L.
  apply SFsub_rank; try apply Prim2SF_valid; try assumption.
  apply lo_le_value; assumption.
Qed.

Lemma T_valid v : valid_binary (T v) = true.
Proof. apply SFsub_valid; apply Prim2SF_valid. Qed.

Lemma R_is_T : R = T hi.
Proof. reflexivity. Qed.

(** A finite non-zero range is a positive float. *)
Lemma R_positive :
  is_finite_sf R = true -> SFeqb R (S754_zero false) = false ->
  exists mr er, R = S754_finite false mr er.
Proof.
  intros FR NZ.
  destruct (SFsub_inv _ _ FR) as [Fh Fl].
  pose proof (rank_nonneg _ _ (T_rank hi hi_in Fh Fl)) as Hn.
  rewrite <- R_is_T in Hn.
  apply positive_cases; assumption.
Qed.

(** What a finite product says about its operands. *)
Lemma product_finite_inv v :
  ffinite (product v lo (hi - lo)) = true ->
  ffinite v = true /\ ffinite lo = true /\ is_finite_sf (T v) = true /\
  is_finite_sf (Qt v) = true /\
  ((exists mr er, R = S754_finite false mr er) \/ (exists s, R = S754_infinity s)).
Proof.
  unfold ffinite. rewrite product_spec. intros FP.
  pose proof (SFmul_ten_inv _ FP) as FQ.
  destruct (SFdiv_inv _ _ FQ) as [FT HR].
  destruct (SFsub_inv _ _ FT) as [Fv Fl].
  repeat (split; [assumption|]).
  destruct (kind_cases R HR) as [(s & m & e & ER)|(s & ER)].
  - left. apply R_positive; rewrite ER; [reflexivity|destruct s; reflexivity].
  - right. eauto.
Qed.

Lemma product_rank v mr er :
  In v (PyDict.values values) -> ffinite v = true -> ffinite lo = true ->
  R = S754_finite false mr er ->
  is_finite_sf (T v) = true -> is_finite_sf (Qt v) = true ->
  rank_of (B2Q (T v) / B2Q R) (B2Q (Qt v)) /\
  rank_of (10 * B2Q (Qt v)) (fval (product v lo (hi - lo))).
Proof.
  intros Hv Fv Fl ER FT FQ.
  pose proof (rank_nonneg _ _ (T_rank v Hv Fv Fl)) as Tn.
  assert (Q1 : rank_of (B2Q (T v) / B2Q R) (B2Q (Qt v))).
  { unfold Qt. rewrite ER. apply SFdiv_rank_gen; assumption. }
  split; [exact Q1|].
  unfold fval. rewrite product_spec.
  apply SFmul_ten_rank_gen; [exact FQ|]. exact (rank_nonneg _ _ Q1).
Qed.

Lemma product_inf v s :
  R = S754_infinity s -> is_finite_sf (T v) = true ->
  fval (product v lo (hi - lo)) = 0%Q.
Proof.
  intros ER FT. unfold fval. rewrite product_spec. unfold Qt. rewrite ER.
  destruct (T v); try discriminate; reflexivity.
Qed.

Lemma product_nonneg v :
  In v (PyDict.values values) ->
  ffinite (product v lo (hi - lo)) = true ->
  (0 <= fval (product v lo (hi - lo)))%Q.
Proof.
  intros Hv FP.
  destruct (product_finite_inv v FP) as (Fv & Fl & FT & FQ & [(mr & er & ER)|(s & ER)]).
  - destruct (product_rank v mr er Hv Fv Fl ER FT FQ) as [_ H].
    exact (rank_nonneg _ _ H).
  - rewrite (product_inf v s ER FT). apply Qle_refl.
Qed.

Lemma div_le_compat a b c : (0 < c)%Q -> (a <= b)%Q -> (a / c <= b / c)%Q.
Proof.
  intros Hc Hab. unfold Qdiv. apply Qmult_le_compat_r; [exact Hab|].
  apply Qinv_le_0_compat. lra.
Qed.

Lemma product_mono vA vB :
  In vA (PyDict.values values) -> In vB (PyDict.values values) ->
  ffinite (product vA lo (hi - lo)) = true ->
  ffinite (product vB lo (hi - lo)) = true ->
  (fval vA <= fval vB)%Q ->
  (fval (product vA lo (hi - lo)) <= fval (product vB lo (hi - lo)))%Q.
Proof.
  intros HA HB FA FB Hle.
  destruct (product_finite_inv vA FA) as (FvA & Fl & FTA & FQA & HR).
  destruct (product_finite_inv vB FB) as (FvB & _ & FTB & FQB & _).
  destruct HR as [(mr & er & ER)|(s & ER)].
  - destruct (product_rank vA mr er HA FvA Fl ER FTA FQA) as [QA PA].
    destruct (product_rank vB mr er HB FvB Fl ER FTB FQB) as [QB PB].
    pose proof (T_rank vA HA FvA Fl) as TA.
    pose proof (T_rank vB HB FvB Fl) as TB.
    assert (Ht : (B2Q (T vA) <= B2Q (T vB))%Q).
    { apply (rank_mono (fval vA - fval lo) (fval vB - fval lo));
        [lra|exact TA|exact TB]. }
    assert (Hr : (0 < B2Q R)%Q) by (rewrite ER; apply F2Q_pos).
    assert (Hq : (B2Q (Qt vA) <= B2Q (Qt vB))%Q).
    { apply (rank_mono _ _ _ _ (div_le_compat _ _ _ Hr Ht) QA QB). }
    apply (rank_mono (10 * B2Q (Qt vA)) (10 * B2Q (Qt vB))); [lra|exact PA|exact PB].
  - rewrite (product_inf vA s ER FTA), (product_inf vB s ER FTB). apply Qle_refl.
Qed.



(** With finite measurements and a finite non-zero range every product is
    finite, between 0 and 10. *)
Lemma product_total v :
  In v (PyDict.values values) ->
  (forall d, In d (PyDict.values values) -> ffinite d = true) ->
  ffinite (hi - lo) = true -> PrimFloat.eqb (hi - lo) 0 = false ->
  ffinite (product v lo (hi - lo)) = true /\
  (fval (product v lo (hi - lo)) <= 10)%Q.
Proof.
  intros Hv Hfin FR NZ.
  pose proof (Hfin v Hv) as Fv. pose proof (Hfin lo lo_in) as Fl.
  pose proof (Hfin hi hi_in) as Fh.
  unfold ffinite in FR. rewrite range_spec in FR.
  rewrite eqb_zero, range_spec in NZ.
  destruct (R_positive FR NZ) as (mr & er & ER).
  pose proof (T_rank v Hv Fv Fl) as T1.
  pose proof (T_rank hi hi_in Fh Fl) as Th. rewrite <- R_is_T in Th.
  pose proof (bpow_pos 1024) as P1024.
  assert (B1 : (16 <= bpow 1024)%Q) by (apply (bpow_le 4 1024); lia).
  assert (Ht : (B2Q (T v) <= B2Q R)%Q).
  { apply (rank_mono (fval v - fval lo) (fval hi - fval lo)); [|exact T1|exact Th].
    pose proof (value_le_hi v Hv Fv Fh). lra. }
  assert (Hr : (0 < B2Q R)%Q) by (rewrite ER; apply F2Q_pos).
  pose proof (finite_lt_1024 _ (T_valid hi) FR) as Rlt. rewrite <- R_is_T in Rlt.
  pose proof (rank_nonneg _ _ T1) as Tn.
  assert (FT : is_finite_sf (T v) = true).
  { apply finite_of_rank; [apply SFsub_not_nan; assumption|exact Tn|lra]. }
  assert (Q1 : rank_of (B2Q (T v) / B2Q R) (B2Q (Qt v))).
  { unfold Qt. rewrite ER. apply SFdiv_rank_gen; assumption. }
  assert (Hq : (B2Q (Qt v) <= 1)%Q).
  { apply (rank_mono (B2Q (T v) / B2Q R) 1); [|exact Q1|apply rank_one].
    apply Qle_shift_div_r; [exact Hr|lra]. }
  pose proof (rank_nonneg _ _ Q1) as Qn.
  assert (FQ : is_finite_sf (Qt v) = true).
  { apply finite_of_rank; [|exact Qn|lra].
    unfold Qt. rewrite ER. apply SFdiv_not_nan. exact FT. }
  assert (P1 : rank_of (10 * B2Q (Qt v)) (fval (product v lo (hi - lo)))).
  { unfold fval. rewrite product_spec. apply SFmul_ten_rank_gen; assumption. }
  assert (Hp : (fval (product v lo (hi - lo)) <= 10)%Q).
  { apply (rank_mono (10 * B2Q (Qt v)) 10); [lra|exact P1|apply rank_ten]. }
  split; [|exact Hp].
  unfold ffinite. unfold fval in Hp, P1. rewrite product_spec in *.
  apply finite_of_rank; [apply SFmul_ten_not_nan; exact FQ| |lra].
  exact (rank_nonneg _ _ P1).
Qed.

End Score.

(** ** Dictionaries *)

Lemma get_set_same {V} k (v : V) d : PyDict.get k (PyDict.set k v d) = Some v.
Proof.
  induction d as [|[k' v'] d IH]; cbn [PyDict.set PyDict.get].
  - rewrite String.eqb_refl. reflexivity.
  - destruct (String.eqb k' k) eqn:E; cbn [PyDict.get]; rewrite E; [reflexivity|exact IH].
Qed.

Lemma get_set_other {V} k k' (v : V) d :
  k <> k' -> PyDict.get k (PyDict.set k' v d) = PyDict.get k d.
Proof.
  intros N. induction d as [|[k0 v0] d IH]; cbn [PyDict.set PyDict.get].
  - destruct (String.eqb_spec k' k) as [E|_]; [congruence|reflexivity].
  - destruct (String.eqb_spec k0 k') as [E|NE]; cbn [PyDict.get].
    + subst k0. destruct (String.eqb_spec k' k) as [E|_]; [congruence|reflexivity].
    + destruct (String.eqb k0 k); [reflexivity|exact IH].
Qed.

Lemma get_In_values {V} k (v : V) d :
  PyDict.get k d = Some v -> In v (PyDict.values d).
Proof.
  induction d as [|[k' v'] d IH]; cbn [PyDict.get PyDict.values map snd]; [discriminate|].
  destruct (String.eqb k' k); intros H.
  - injection H as ->. left. reflexivity.
  - right. apply IH. exact H.
Qed.

Lemma item_inv {V} k (v : V) d : PyDict.item k d = Ok v -> PyDict.get k d = Some v.
Proof. unfold PyDict.item. destruct (PyDict.get k d); intros H; inversion H; reflexivity. Qed.

(** ** The bands of a batch *)

Lemma normalize_eq fonts values :
  normalize fonts values =
  bind (find_extremes values) (fun p =>
    if PrimFloat.eqb (snd p - fst p) 0 then Ok (fold_left fives fonts [])
    else foldM (score_step values (fst p) (snd p - fst p)) fonts []).
Proof.
  unfold normalize. destruct (find_extremes values) as [[lo hi]|e]; reflexivity.
Qed.

Lemma fives_get fonts :
  forall acc name,
    PyDict.get name (fold_left fives fonts acc) =
    if in_dec string_dec name (map fst fonts) then Some 5 else PyDict.get name acc.
Proof.
  induction fonts as [|f fonts IH]; intros acc name; cbn [fold_left map].
  - reflexivity.
  - rewrite IH. destruct (in_dec string_dec name (map fst fonts)) as [I|NI].
    + destruct (in_dec string_dec name (fst f :: map fst fonts)) as [_|N];
        [reflexivity|]. exfalso. apply N. right. exact I.
    + unfold fives at 1.
      destruct (in_dec string_dec name (fst f :: map fst fonts)) as [[E|I]|N].
      * subst name. apply get_set_same.
      * contradiction.
      * apply get_set_other. intros E. apply N. left. symmetry. exact E.
Qed.

Lemma scores_get values lo range fonts :
  forall acc bands,
    foldM (score_step values lo range) fonts acc = Ok bands ->
    forall name,
      if in_dec string_dec name (map fst fonts) then
        exists v b, PyDict.get name values = Some v /\ score v lo range = Ok b /\
                    PyDict.get name bands = Some b
      else PyDict.get name bands = PyDict.get name acc.
Proof.
  induction fonts as [|f fonts IH]; intros acc bands H name; cbn [foldM map] in *.
  - injection H as <-. reflexivity.
  - unfold score_step at 1 in H.
    destruct (PyDict.item (fst f) values) as [v|e] eqn:Ev; [|discriminate H].
    cbn [bind] in H.
    destruct (score v lo range) as [b|e] eqn:Eb; [|discriminate H].
    cbn [bind] in H. specialize (IH _ _ H name).
    destruct (in_dec string_dec name (map fst fonts)) as [I|NI].
    + destruct (in_dec string_dec name (fst f :: map fst fonts)) as [_|N];
        [exact IH|]. exfalso. apply N. right. exact I.
    + destruct (in_dec string_dec name (fst f :: map fst fonts)) as [[E|I]|N].
      * subst name. exists v, b. rewrite IH, get_set_same.
        auto using item_inv.
      * contradiction.
      * rewrite IH. apply get_set_other. intros E. apply N. left. symmetry. exact E.
Qed.

Lemma scores_total values lo range fonts :
  (forall name, In name (map fst fonts) ->
                exists v b, PyDict.get name values = Some v /\ score v lo range = Ok b) ->
  forall acc, exists bands, foldM (score_step values lo range) fonts acc = Ok bands.
Proof.
  induction fonts as [|f fonts IH]; intros H acc; cbn [foldM].
  - eauto.
  - destruct (H (fst f) (or_introl eq_refl)) as (v & b & Hv & Hb).
    unfold score_step at 1. unfold PyDict.item. rewrite Hv. cbn [bind].
    rewrite Hb. cbn [bind]. apply IH. intros name I. apply H. right. exact I.
Qed.

(** The bands [normalize] returns, font by font. *)
Lemma normalize_get fonts values bands lo hi :
  normalize fonts values = Ok bands ->
  find_extremes values = Ok (lo, hi) ->
  forall name,
    if in_dec string_dec name (map fst fonts) then
      if PrimFloat.eqb (hi - lo) 0 then PyDict.get name bands = Some 5
      else exists v b, PyDict.get name values = Some v /\
                       score v lo (hi - lo) = Ok b /\
                       PyDict.get name bands = Some b
    else PyDict.get name bands = None.
Proof.
  rewrite normalize_eq. intros H E. rewrite E in H. cbn [bind fst snd] in H.
  intros name. destruct (PrimFloat.eqb (hi - lo) 0).
  - injection H as <-. rewrite fives_get.
    destruct (in_dec string_dec name (map fst fonts)); reflexivity.
  - pose proof (scores_get _ _ _ _ _ _ H name) as G.
    destruct (in_dec string_dec name (map fst fonts)); exact G.
Qed.

(** ** Degenerate and non-degenerate ranges *)





Lemma zero_of_value f :
  is_nan_sf f = false -> (B2Q f == 0)%Q -> SFeqb f (S754_zero false) = true.
Proof.
  pose proof (bpow_pos 1024).
  destruct f as [s|s| |s m e]; cbn [B2Q is_nan_sf]; intros N H0;
    try discriminate; try reflexivity; exfalso.
  - destruct s; lra.
  - pose proof (F2Q_pos m e). destruct s; unfold F2Q in H0; lra.
Qed.



Lemma SFeqb_finite x y :
  SFeqb x y = true -> is_finite_sf y = true -> is_finite_sf x = true.
Proof.
  destruct x as [sx|sx| |sx mx ex], y as [sy|sy| |sy my ey];
    try discriminate; try reflexivity; destruct sx; discriminate.
Qed.

Lemma eqb_finite x y :
  PrimFloat.eqb x y = true -> ffinite y = true -> ffinite x = true.
Proof. rewrite eqb_spec. apply SFeqb_finite. Qed.

(** A batch whose values are all equal to one finite value is degenerate. *)
Lemma identical_values_degenerate values lo hi v :
  find_extremes values = Ok (lo, hi) ->
  ffinite v = true ->
  (forall d, In d (PyDict.values values) -> PrimFloat.eqb d v = true) ->
  PrimFloat.eqb (hi - lo) 0 = true.
Proof.
  intros E Fv Hall.
  pose proof (Hall lo (lo_in _ _ _ E)) as El.
  pose proof (Hall hi (hi_in _ _ _ E)) as Eh.
  pose proof (eqb_finite _ _ El Fv) as Fl.
  pose proof (eqb_finite _ _ Eh Fv) as Fh.
  apply eqb_fval in El, Eh.
  pose proof (T_rank values lo hi E hi (hi_in _ _ _ E) Fh Fl) as Hr.
  rewrite eqb_zero, sub_spec.
  apply zero_of_value; [apply SFsub_not_nan; assumption|].
  apply (rank_unique 0); [|apply rank_zero].
  eapply rank_of_ext; [|exact Hr]. lra.
Qed.

(** ** The batch *)

Lemma measure_all_keys measure fonts :
  forall d0 w0 darkness width,
    foldM (measure_step measure) fonts (d0, w0) = Ok (darkness, width) ->
    forall name,
      (PyDict.get name darkness <> None <->
       In name (map fst fonts) \/ PyDict.get name d0 <> None) /\
      (PyDict.get name width <> None <->
       In name (map fst fonts) \/ PyDict.get name w0 <> None).
Proof.
  induction fonts as [|f fonts IH]; intros d0 w0 darkness width H name;
    cbn [foldM map] in *.
  - injection H as <- <-. split; split; tauto.
  - unfold measure_step at 1 in H.
    destruct (measure (fst f) (snd f)) as [[d w]|e]; [|discriminate H].
    cbn [bind fst snd] in H.
    destruct (IH _ _ _ _ H name) as [A B].
    destruct (string_dec name (fst f)) as [->|N].
    + rewrite !get_set_same in A, B. split.
      * split; [intros _; left; left; reflexivity|].
        intros _. apply A. right. discriminate.
      * split; [intros _; left; left; reflexivity|].
        intros _. apply B. right. discriminate.
    + rewrite !get_set_other in A, B by exact N. cbn [In].
      split; [rewrite A|rewrite B]; intuition congruence.
Qed.

Lemma measure_all_names measure fonts darkness width :
  measure_all measure fonts = Ok (darkness, width) ->
  forall name,
    (PyDict.get name darkness <> None <-> In name (map fst fonts)) /\
    (PyDict.get name width <> None <-> In name (map fst fonts)).
Proof.
  intros H name.
  destruct (measure_all_keys measure fonts _ _ _ _ H name) as [A B].
  cbn [PyDict.get] in A, B. split; [rewrite A|rewrite B]; tauto.
Qed.

Lemma group_inv measure fonts weights widths :
  group_by_attributes measure fonts = Ok (weights, widths) ->
  exists darkness width,
    measure_all measure fonts = Ok (darkness, width) /\
    normalize fonts darkness = Ok weights /\
    normalize fonts width = Ok widths.
Proof.
  unfold group_by_attributes.
  destruct (measure_all measure fonts) as [[darkness width]|e]; [|discriminate].
  cbn [bind].
  destruct (normalize fonts darkness) as [ws|e] eqn:E1; [|discriminate]. cbn [bind].
  destruct (normalize fonts width) as [wd|e] eqn:E2; [|discriminate]. cbn [bind].
  intros H. injection H as <- <-. exists darkness, width. auto.
Qed.

Lemma normalize_extremes fonts values bands :
  normalize fonts values = Ok bands ->
  exists lo hi, find_extremes values = Ok (lo, hi).
Proof.
  rewrite normalize_eq.
  destruct (find_extremes values) as [[lo hi]|e]; [eauto|discriminate].
Qed.

Lemma Qfloor_nonneg x : (0 <= x)%Q -> 0 <= Qfloor x.
Proof. intros H. apply (Qfloor_resp_le 0 x) in H. exact H. Qed.

Lemma score_range values lo hi v b :
  find_extremes values = Ok (lo, hi) -> In v (PyDict.values values) ->
  score v lo (hi - lo) = Ok b -> 1 <= b <= 10.
Proof.
  intros E Hv Hs. destruct (score_inv _ _ _ _ Hs) as (_ & F & ->).
  pose proof (Qfloor_nonneg _ (product_nonneg values lo hi E v Hv F)). lia.
Qed.

Lemma score_mono values lo hi vA vB bA bB :
  find_extremes values = Ok (lo, hi) ->
  In vA (PyDict.values values) -> In vB (PyDict.values values) ->
  score vA lo (hi - lo) = Ok bA -> score vB lo (hi - lo) = Ok bB ->
  (fval vA <= fval vB)%Q -> bA <= bB.
Proof.
  intros E HA HB SA SB Hle.
  destruct (score_inv _ _ _ _ SA) as (_ & FA & ->).
  destruct (score_inv _ _ _ _ SB) as (_ & FB & ->).
  pose proof (Qfloor_resp_le _ _ (product_mono values lo hi E vA vB HA HB FA FB Hle)).
  lia.
Qed.



Lemma normalize_range fonts values bands :
  normalize fonts values = Ok bands ->
  forall name b, PyDict.get name bands = Some b -> 1 <= b <= 10.
Proof.
  intros H name b Hb.
  destruct (normalize_extremes _ _ _ H) as (lo & hi & E).
  pose proof (normalize_get _ _ _ _ _ H E name) as G.
  destruct (in_dec string_dec name (map fst fonts)); [|congruence].
  destruct (PrimFloat.eqb (hi - lo) 0).
  - assert (b = 5) by congruence. lia.
  - destruct G as (v & b' & Hv & Hs & Hb').
    assert (b' = b) by congruence. subst b'.
    exact (score_range _ _ _ _ _ E (get_In_values _ _ _ Hv) Hs).
Qed.

Lemma normalize_mono fonts values bands :
  normalize fonts values = Ok bands ->
  forall A B dA dB bA bB,
    PyDict.get A values = Some dA -> PyDict.get B values = Some dB ->
    PrimFloat.ltb dA dB = true ->
    PyDict.get A bands = Some bA -> PyDict.get B bands = Some bB ->
    bA <= bB.
Proof.
  intros H A B dA dB bA bB HA HB Hlt GA GB.
  destruct (normalize_extremes _ _ _ H) as (lo & hi & E).
  pose proof (normalize_get _ _ _ _ _ H E A) as NA.
  pose proof (normalize_get _ _ _ _ _ H E B) as NB.
  destruct (in_dec string_dec A (map fst fonts)); [|congruence].
  destruct (in_dec string_dec B (map fst fonts)); [|congruence].
  destruct (PrimFloat.eqb (hi - lo) 0).
  - assert (bA = 5) by congruence. assert (bB = 5) by congruence. lia.
  - destruct NA as (vA & bA' & HvA & SA & GA').
    destruct NB as (vB & bB' & HvB & SB & GB').
    assert (vA = dA) by congruence. assert (vB = dB) by congruence.
    assert (bA' = bA) by congruence. assert (bB' = bB) by congruence.
    subst vA vB bA' bB'.
    apply (score_mono values lo hi dA dB); eauto using get_In_values.
    apply Qlt_le_weak. apply (ltb_fval _ _ Hlt).
Qed.


Lemma normalize_degenerate fonts values lo hi :
  find_extremes values = Ok (lo, hi) ->
  PrimFloat.eqb (hi - lo) 0 = true ->
  normalize fonts values = Ok (fold_left fives fonts []) /\
  forall name, In name (map fst fonts) ->
               PyDict.get name (fold_left fives fonts []) = Some 5.
Proof.
  intros E Z. rewrite normalize_eq, E. cbn [bind fst snd]. rewrite Z.
  split; [reflexivity|]. intros name I. rewrite fives_get.
  destruct (in_dec string_dec name (map fst fonts)); [reflexivity|contradiction].
Qed.

Lemma rank_self f :
  valid_binary f = true -> is_finite_sf f = true -> (0 <= B2Q f)%Q ->
  rank_of (B2Q f) (B2Q f).
Proof.
  destruct f as [s|s| |s m e]; try discriminate; intros V _ Hn.
  - apply rank_zero.
  - rewrite (finite_nonneg_sign _ _ _ Hn). apply rank_valid.
    rewrite (finite_nonneg_sign _ _ _ Hn) in V. exact V.
Qed.

(** Finite non-negative measurements have a finite range. *)
Lemma range_finite values lo hi :
  find_extremes values = Ok (lo, hi) ->
  (forall d, In d (PyDict.values values) -> ffinite d = true /\ (0 <= fval d)%Q) ->
  ffinite (hi - lo) = true.
Proof.
  intros E Hall.
  destruct (Hall lo (lo_in _ _ _ E)) as [Fl Nl].
  destruct (Hall hi (hi_in _ _ _ E)) as [Fh Nh].
  pose proof (T_rank values lo hi E hi (hi_in _ _ _ E) Fh Fl) as Hr.
  pose proof (rank_self _ (Prim2SF_valid hi) Fh Nh) as Hh.
  fold (fval hi) in Hh.
  assert (Hx : (fval hi - fval lo <= fval hi)%Q) by lra.
  pose proof (rank_mono _ _ _ _ Hx Hr Hh) as Hle.
  pose proof (finite_lt_1024 _ (Prim2SF_valid hi) Fh) as Hlt. fold (fval hi) in Hlt.
  unfold ffinite. rewrite sub_spec. unfold fval in *.
  apply finite_of_rank; [apply SFsub_not_nan; assumption| |lra].
  exact (rank_nonneg _ _ Hr).
Qed.

Lemma normalize_total fonts values :
  fonts <> [] ->
  (forall name, In name (map fst fonts) -> PyDict.get name values <> None) ->
  (forall d, In d (PyDict.values values) -> ffinite d = true /\ (0 <= fval d)%Q) ->
  exists bands, normalize fonts values = Ok bands.
Proof.
  intros NE Keys Hall.
  assert (E : exists lo hi, find_extremes values = Ok (lo, hi)).
  { destruct fonts as [|f fonts]; [congruence|].
    destruct (PyDict.get (fst f) values) as [v|] eqn:G.
    - apply get_In_values in G. unfold find_extremes, PyFloat.min, PyFloat.max.
      destruct (PyDict.values values); [destruct G|]. cbn [bind]. eauto.
    - exfalso. apply (Keys (fst f)); [left; reflexivity|exact G]. }
  destruct E as (lo & hi & E).
  rewrite normalize_eq, E. cbn [bind fst snd].
  destruct (PrimFloat.eqb (hi - lo) 0) eqn:Z; [eauto|].
  apply scores_total. intros name I.
  destruct (PyDict.get name values) as [v|] eqn:G; [|exfalso; exact (Keys name I G)].
  exists v. eexists. split; [reflexivity|].
  apply score_total; [exact Z|].
  apply (product_total values lo hi E v (get_In_values _ _ _ G)).
  - intros d Hd. apply Hall. exact Hd.
  - apply (range_finite values lo hi E Hall).
  - exact Z.
Qed.

(** With at least one font, measurements that all succeed with finite
    non-negative values give bands: the normalisation raises nothing. *)
Lemma group_by_attributes_total measure fonts darkness width :
  fonts <> [] ->
  measure_all measure fonts = Ok (darkness, width) ->
  (forall d, In d (PyDict.values darkness) -> ffinite d = true /\ (0 <= fval d)%Q) ->
  (forall w, In w (PyDict.values width) -> ffinite w = true /\ (0 <= fval w)%Q) ->
  exists weights widths, group_by_attributes measure fonts = Ok (weights, widths).
Proof.
  intros NE M Hd Hw. unfold group_by_attributes. rewrite M. cbn [bind].
  destruct (normalize_total fonts darkness NE) as [weights E1]; [|exact Hd|].
  { intros name I. apply (measure_all_names _ _ _ _ M name). exact I. }
  destruct (normalize_total fonts width NE) as [widths E2]; [|exact Hw|].
  { intros name I. apply (measure_all_names _ _ _ _ M name). exact I. }
  rewrite E1. cbn [bind]. rewrite E2. cbn [bind]. eauto.
Qed.

(** ** The bands of [group_by_attributes] *)

Lemma group_normalize measure fonts darkness width weights widths :
  measure_all measure fonts = Ok (darkness, width) ->
  group_by_attributes measure fonts = Ok (weights, widths) ->
  normalize fonts darkness = Ok weights /\ normalize fonts width = Ok widths.
Proof.
  intros M G. destruct (group_inv _ _ _ _ G) as (d & w & M' & N1 & N2).
  rewrite M in M'. injection M' as <- <-. auto.
Qed.


(** C1: every weight band and every width band that [group_by_attributes]
    returns is an integer from 1 to 10, in the degenerate case (band 5) and
    in the non-degenerate case (the floor is never negative, and the clamp
    keeps the band of the maximum at 10). *)
Theorem bands_in_range measure fonts weights widths :
  group_by_attributes measure fonts = Ok (weights, widths) ->
  (forall name b, PyDict.get name weights = Some b -> 1 <= b <= 10) /\
  (forall name b, PyDict.get name widths = Some b -> 1 <= b <= 10).
Proof.
  intros G. destruct (group_inv _ _ _ _ G) as (d & w & _ & N1 & N2).
  split; intros name b; [apply (normalize_range _ _ _ N1)|apply (normalize_range _ _ _ N2)].
Qed.

Lemma bands_in_range_witness :
  (forall name b, PyDict.get name example_weights = Some b -> 1 <= b <= 10) /\
  (forall name b, PyDict.get name example_widths = Some b -> 1 <= b <= 10).
Proof.
  exact (bands_in_range example_measure example_fonts
           example_weights example_widths example_bands).
Defined.







(** C4: within one batch a font with the smaller darkness never gets the
    greater weight band, and a font with the smaller relative width never
    gets the greater width band. *)
Theorem bands_monotone measure fonts darkness width weights widths :
  measure_all measure fonts = Ok (darkness, width) ->
  group_by_attributes measure fonts = Ok (weights, widths) ->
  (forall A B dA dB bA bB,
      PyDict.get A darkness = Some dA -> PyDict.get B darkness = Some dB ->
      PrimFloat.ltb dA dB = true ->
      PyDict.get A weights = Some bA -> PyDict.get B weights = Some bB ->
      bA <= bB) /\
  (forall A B wA wB bA bB,
      PyDict.get A width = Some wA -> PyDict.get B width = Some wB ->
      PrimFloat.ltb wA wB = true ->
      PyDict.get A widths = Some bA -> PyDict.get B widths = Some bB ->
      bA <= bB).
Proof.
  intros M G. destruct (group_normalize _ _ _ _ _ _ M G) as [N1 N2].
  split; [apply (normalize_mono _ _ _ N1)|apply (normalize_mono _ _ _ N2)].
Qed.

Lemma bands_monotone_witness : 1 <= 5 /\ 3 <= 10.
Proof.
  pose proof (bands_monotone example_measure example_fonts _ _ _ _
                example_measure_all example_bands) as [D W].
  split.
  - exact (D "FontA"%string "FontB"%string 0.10%float 0.30%float 1 5
             eq_refl eq_refl eq_refl eq_refl eq_refl).
  - exact (W "FontC"%string "FontB"%string 11%float 12.25%float 3 10
             eq_refl eq_refl eq_refl eq_refl eq_refl).
Defined.

(** C5: when the range of a metric is zero ([hi - lo == 0]) the
    normalisation of that metric raises nothing and gives band 5 to every
    font of the batch, so that [group_by_attributes] ends as the
    normalisation of the other metric ends, with these bands; when the
    ranges of the two metrics are zero it returns band 5 for every font
    on both. *)
Theorem degenerate_band_five measure fonts darkness width :
  measure_all measure fonts = Ok (darkness, width) ->
  (forall lo hi,
      find_extremes darkness = Ok (lo, hi) -> PrimFloat.eqb (hi - lo) 0 = true ->
      exists weights,
        normalize fonts darkness = Ok weights /\
        (forall name, In name (map fst fonts) -> PyDict.get name weights = Some 5) /\
        group_by_attributes measure fonts
        = (widths <- normalize fonts width ;; Ok (weights, widths))) /\
  (forall lo hi,
      find_extremes width = Ok (lo, hi) -> PrimFloat.eqb (hi - lo) 0 = true ->
      exists widths,
        normalize fonts width = Ok widths /\
        (forall name, In name (map fst fonts) -> PyDict.get name widths = Some 5) /\
        group_by_attributes measure fonts
        = (weights <- normalize fonts darkness ;; Ok (weights, widths))) /\
  (forall lo hi lo' hi',
      find_extremes darkness = Ok (lo, hi) -> PrimFloat.eqb (hi - lo) 0 = true ->
      find_extremes width = Ok (lo', hi') -> PrimFloat.eqb (hi' - lo') 0 = true ->
      exists weights widths,
        group_by_attributes measure fonts = Ok (weights, widths) /\
        (forall name, In name (map fst fonts) ->
           PyDict.get name weights = Some 5 /\ PyDict.get name widths = Some 5)).
Proof.
  intros M. split; [|split].
  - intros lo hi E Z.
    destruct (normalize_degenerate fonts _ lo hi E Z) as [N F].
    exists (fold_left fives fonts []). split; [exact N|]. split; [exact F|].
    unfold group_by_attributes. rewrite M. cbn [bind]. rewrite N. reflexivity.
  - intros lo hi E Z.
    destruct (normalize_degenerate fonts _ lo hi E Z) as [N F].
    exists (fold_left fives fonts []). split; [exact N|]. split; [exact F|].
    unfold group_by_attributes. rewrite M. cbn [bind]. rewrite N.
    destruct (normalize fonts darkness); reflexivity.
  - intros lo hi lo' hi' E Z E' Z'.
    destruct (normalize_degenerate fonts _ lo hi E Z) as [N F].
    destruct (normalize_degenerate fonts _ lo' hi' E' Z') as [N' F'].
    exists (fold_left fives fonts []), (fold_left fives fonts []). split.
    + unfold group_by_attributes. rewrite M. cbn [bind]. rewrite N. cbn [bind].
      rewrite N'. reflexivity.
    + intros name I. split; [exact (F name I)|exact (F' name I)].
Qed.

Lemma degenerate_band_five_witness :
  exists weights widths,
    group_by_attributes flat_measure example_fonts = Ok (weights, widths) /\
    (forall name, In name (map fst example_fonts) ->
       PyDict.get name weights = Some 5 /\ PyDict.get name widths = Some 5).
Proof.
  pose proof (degenerate_band_five flat_measure example_fonts _ _ flat_measure_all)
    as (_ & _ & B).
  exact (B 0.25%float 0.25%float 1.5%float 1.5%float eq_refl eq_refl eq_refl eq_refl).
Defined.

(** ** The darkness of a surface *)




(** ** The record store *)

(** *** Integers as text *)

Lemma string_of_uint_digits d :
  Forall (fun c => PyInt.is_digit c = true)
         (list_ascii_of_string (NilEmpty.string_of_uint d)).
Proof.
  induction d; cbn [NilEmpty.string_of_uint list_ascii_of_string];
    constructor; try exact IHd; reflexivity.
Qed.

Lemma digits_all l :
  Forall (fun c => PyInt.is_digit c = true) l -> PyInt.digits true l = Some l.
Proof.
  induction 1 as [|c l C _ IH]; [reflexivity|].
  cbn [PyInt.digits]. rewrite C, IH. reflexivity.
Qed.

Lemma digits_literal c l :
  Forall (fun c => PyInt.is_digit c = true) (c :: l) ->
  PyInt.digits false (c :: l) = Some (c :: l).
Proof.
  intros H. inversion H as [|? ? C L]; subst.
  cbn [PyInt.digits]. rewrite C, (digits_all l L). reflexivity.
Qed.

Lemma digit_not_space c : PyInt.is_digit c = true -> PyInt.is_space c = false.
Proof.
  unfold PyInt.is_digit, PyInt.is_space. cbv zeta.
  generalize (Z.of_nat (nat_of_ascii c)). intros n H.
  apply andb_true_iff in H. destruct H as [A B].
  apply Z.leb_le in A. apply Z.leb_le in B.
  repeat (apply orb_false_iff; split);
    try (apply andb_false_iff; right; apply Z.leb_gt; lia);
    apply Z.eqb_neq; lia.
Qed.

Lemma lstrip_digit c l : PyInt.is_digit c = true -> PyInt.lstrip (c :: l) = c :: l.
Proof. intros H. cbn [PyInt.lstrip]. rewrite (digit_not_space c H). reflexivity. Qed.

Lemma strip_digits l :
  Forall (fun c => PyInt.is_digit c = true) l -> PyInt.strip l = l.
Proof.
  intros H. unfold PyInt.strip.
  assert (L : forall l, Forall (fun c => PyInt.is_digit c = true) l ->
                        PyInt.lstrip l = l).
  { intros [|c k] K; [reflexivity|]. inversion K; subst. apply lstrip_digit. assumption. }
  rewrite (L l H), L by (apply Forall_rev; exact H).
  apply rev_involutive.
Qed.

Lemma digit_not_sign c :
  PyInt.is_digit c = true -> Ascii.eqb c "-" = false /\ Ascii.eqb c "+" = false.
Proof.
  intros H. split; apply Ascii.eqb_neq; intros ->; discriminate H.
Qed.

Lemma length_string_of_list_ascii l :
  String.length (string_of_list_ascii l) = List.length l.
Proof. induction l as [|c l IH]; [reflexivity|]. cbn. rewrite IH. reflexivity. Qed.

Lemma length_list_ascii_of_string s :
  List.length (list_ascii_of_string s) = String.length s.
Proof. induction s as [|c s IH]; [reflexivity|]. cbn. rewrite IH. reflexivity. Qed.

(** [int] of the decimal writing of a natural number, given by its digits. *)
Lemma of_string_uint (neg : bool) d :
  d <> Decimal.Nil ->
  Z.of_nat (String.length (NilEmpty.string_of_uint d)) <= PyInt.max_str_digits ->
  PyInt.of_string ((if neg then "-" else "") ++ NilEmpty.string_of_uint d)
  = Ok (if neg then - Z.of_uint d else Z.of_uint d).
Proof.
  intros N Len.
  pose proof (string_of_uint_digits d) as D.
  remember (list_ascii_of_string (NilEmpty.string_of_uint d)) as l eqn:El.
  assert (Es : NilEmpty.string_of_uint d = string_of_list_ascii l)
    by (rewrite El, string_of_list_ascii_of_string; reflexivity).
  assert (Ll : Z.of_nat (List.length l) <= PyInt.max_str_digits).
  { rewrite El, length_list_ascii_of_string. exact Len. }
  destruct l as [|c l].
  { destruct d; try discriminate El. contradiction. }
  inversion D as [|? ? C _]; subst.
  destruct (digit_not_sign c C) as [M P].
  unfold PyInt.of_string.
  assert (St : PyInt.strip (list_ascii_of_string
                ((if neg then "-" else "") ++ NilEmpty.string_of_uint d))
               = (if neg then ["-"%char] else []) ++ c :: l).
  { rewrite Es. destruct neg.
    - cbn [String.append list_ascii_of_string].
      rewrite list_ascii_of_string_of_list_ascii.
      unfold PyInt.strip. cbn [PyInt.lstrip].
      change (PyInt.is_space "-") with false. cbv iota.
      change ("-"%char :: c :: l) with (["-"%char] ++ c :: l).
      rewrite rev_app_distr.
      destruct (rev (c :: l)) as [|x r] eqn:R.
      { apply (f_equal (@List.length _)) in R. rewrite length_rev in R. discriminate R. }
      assert (X : PyInt.is_digit x = true).
      { assert (I : In x (rev (c :: l))) by (rewrite R; left; reflexivity).
        apply in_rev in I. rewrite Forall_forall in D. apply D. exact I. }
      cbn [app]. rewrite (lstrip_digit x _ X).
      change (x :: r ++ rev ["-"%char]) with ((x :: r) ++ rev ["-"%char]).
      rewrite <- R, <- rev_app_distr, rev_involutive. reflexivity.
    - cbn [String.append]. rewrite list_ascii_of_string_of_list_ascii.
      apply strip_digits. exact D. }
  rewrite St. destruct neg; cbn [app].
  - change (Ascii.eqb "-" "-") with true. cbv iota.
    rewrite (digits_literal c l D).
    destruct (PyInt.max_str_digits <? Z.of_nat (List.length (c :: l))) eqn:E;
      [apply Z.ltb_lt in E; lia|].
    rewrite <- Es, NilEmpty.usu. reflexivity.
  - rewrite M, P. rewrite (digits_literal c l D).
    destruct (PyInt.max_str_digits <? Z.of_nat (List.length (c :: l))) eqn:E;
      [apply Z.ltb_lt in E; lia|].
    rewrite <- Es, NilEmpty.usu. reflexivity.
Qed.

Lemma decimal_pos p :
  PyInt.decimal (Z.pos p) = NilEmpty.string_of_uint (Pos.to_uint p).
Proof.
  unfold PyInt.decimal. cbn [Z.to_int NilZero.string_of_int].
  unfold NilZero.string_of_uint.
  destruct (Pos.to_uint p) eqn:E; try reflexivity.
  exfalso. exact (Unsigned.to_uint_nonnil p E).
Qed.

Lemma decimal_neg p :
  PyInt.decimal (Z.neg p)
  = String "-" (NilEmpty.string_of_uint (Pos.to_uint p)).
Proof.
  unfold PyInt.decimal. cbn [Z.to_int NilZero.string_of_int].
  unfold NilZero.string_of_uint.
  destruct (Pos.to_uint p) eqn:E; try reflexivity.
  exfalso. exact (Unsigned.to_uint_nonnil p E).
Qed.

Lemma of_uint_to_uint p : Z.of_uint (Pos.to_uint p) = Z.pos p.
Proof. unfold Z.of_uint. rewrite Unsigned.of_to. reflexivity. Qed.

(** [int(str(n)) == n] *)
Lemma of_string_str n s : PyInt.str n = Ok s -> PyInt.of_string s = Ok n.
Proof.
  unfold PyInt.str, PyInt.num_digits.
  destruct (PyInt.max_str_digits <? _) eqn:E; [discriminate|].
  apply Z.ltb_ge in E. intros [= <-].
  destruct n as [|p|p].
  - reflexivity.
  - rewrite decimal_pos. cbn [Z.abs] in E. rewrite decimal_pos in E.
    rewrite <- (of_uint_to_uint p).
    apply (of_string_uint false); [apply Unsigned.to_uint_nonnil | exact E].
  - rewrite decimal_neg. cbn [Z.abs] in E. rewrite decimal_pos in E.
    change (Z.neg p) with (- Z.pos p).
    rewrite <- (of_uint_to_uint p).
    apply (of_string_uint true); [apply Unsigned.to_uint_nonnil | exact E].
Qed.

(** *** The reader on what the writer writes *)

Lemma add_char_ok p c s :
  Z.of_nat (List.length (Csv.field p)) < Csv.field_limit ->
  Csv.add_char p c s = Ok (filling p [c] s).
Proof.
  intros H. unfold Csv.add_char.
  destruct (Csv.field_limit <=? _) eqn:E; [apply Z.leb_le in E; lia|reflexivity].
Qed.

Lemma filling_nil p : filling p [] (Csv.st p) = p.
Proof. destruct p. unfold filling. cbn. rewrite app_nil_r. reflexivity. Qed.

Lemma filling_filling p f g s s' :
  filling (filling p f s) g s' = filling p (f ++ g) s'.
Proof. unfold filling. cbn. rewrite app_assoc. reflexivity. Qed.

Lemma not_special c :
  Csv.special c = false ->
  Ascii.eqb c Csv.comma = false /\ Ascii.eqb c Csv.quote = false
  /\ Ascii.eqb c Csv.lf = false.
Proof.
  unfold Csv.special. intros H.
  apply orb_false_iff in H. destruct H as [H L].
  apply orb_false_iff in H. destruct H as [C Q]. auto.
Qed.

Section Reader.

Context {A : Type} (body : list string -> A -> result A).

Lemma for_rows_midline p m m' c t acc :
  Csv.for_rows body p m (c :: t) acc = Csv.for_rows body p m' (c :: t) acc.
Proof. reflexivity. Qed.

(** The characters of a field that is not quoted. *)
Lemma unquoted_chars f : forall p m r rest acc,
  Csv.st p = Csv.IN_FIELD ->
  Csv.needs_quote f = false -> no_cr f = true ->
  Z.of_nat (List.length (Csv.field p)) + Z.of_nat (List.length f) <= Csv.field_limit ->
  Csv.for_rows body p m (f ++ r :: rest) acc
  = Csv.for_rows body (filling p f Csv.IN_FIELD) true (r :: rest) acc.
Proof.
  induction f as [|c f IH]; intros p m r rest acc S Q N L.
  - rewrite <- S, filling_nil. reflexivity.
  - cbn [Csv.needs_quote existsb] in Q. apply orb_false_iff in Q. destruct Q as [Qc Q].
    cbn [no_cr forallb] in N. apply andb_true_iff in N. destruct N as [Nc N].
    apply negb_true_iff in Nc.
    destruct (not_special c Qc) as (C1 & C2 & C3).
    cbn [List.length] in L.
    cbn [app Csv.for_rows]. unfold Csv.process_char at 1. rewrite S.
    unfold Csv.newline. rewrite C3, Nc, C1. cbn [orb].
    rewrite add_char_ok by lia. cbn [bind].
    rewrite (IH (filling p [c] Csv.IN_FIELD) true r rest acc); try assumption; try reflexivity.
    + rewrite filling_filling. reflexivity.
    + cbn [filling Csv.field]. rewrite length_app. cbn [List.length]. lia.
Qed.

(** The characters of a quoted field, between its quotes. *)
Lemma quoted_chars f : forall p m m' r rest acc,
  Csv.st p = Csv.IN_QUOTED_FIELD ->
  Z.of_nat (List.length (Csv.field p)) + Z.of_nat (List.length f) <= Csv.field_limit ->
  Csv.for_rows body p m (Csv.escape f ++ r :: rest) acc
  = Csv.for_rows body (filling p f Csv.IN_QUOTED_FIELD) m' (r :: rest) acc.
Proof.
  induction f as [|c f IH]; intros p m m' r rest acc S L.
  - rewrite <- S, filling_nil. reflexivity.
  - cbn [List.length] in L.
    assert (L' : Z.of_nat (List.length (Csv.field (filling p [c] Csv.IN_QUOTED_FIELD)))
                 + Z.of_nat (List.length f) <= Csv.field_limit).
    { cbn [filling Csv.field]. rewrite length_app. cbn [List.length]. lia. }
    unfold Csv.escape. cbn [flat_map]. fold (Csv.escape f).
    destruct (Ascii.eqb c Csv.quote) eqn:Q.
    + apply Ascii.eqb_eq in Q. subst c.
      cbn [app Csv.for_rows]. unfold Csv.process_char at 1. rewrite S.
      change (Ascii.eqb Csv.quote Csv.quote) with true.
      change (Ascii.eqb Csv.quote Csv.lf) with false. cbn [bind].
      unfold Csv.process_char at 1. cbn [Csv.goto Csv.st].
      change (Ascii.eqb Csv.quote Csv.quote) with true. cbv iota.
      change (Csv.add_char (Csv.goto p Csv.QUOTE_IN_QUOTED_FIELD) Csv.quote Csv.IN_QUOTED_FIELD)
        with (Csv.add_char p Csv.quote Csv.IN_QUOTED_FIELD).
      rewrite add_char_ok by lia. cbn [bind].
      rewrite (IH (filling p [_] Csv.IN_QUOTED_FIELD) true m' r rest acc eq_refl L'), filling_filling. reflexivity.
    + cbn [app Csv.for_rows]. unfold Csv.process_char at 1. rewrite S, Q.
      rewrite add_char_ok by lia. cbn [bind].
      destruct (Ascii.eqb c Csv.lf).
      * unfold Csv.process_char at 1. cbn [filling Csv.st bind Csv.at_start].
        rewrite (IH (filling p [_] Csv.IN_QUOTED_FIELD) false m' r rest acc eq_refl L'), filling_filling. reflexivity.
      * rewrite (IH (filling p [_] Csv.IN_QUOTED_FIELD) true m' r rest acc eq_refl L'), filling_filling. reflexivity.
Qed.

Lemma saved_filling p f s s' :
  Csv.field p = [] -> Csv.save_field (filling p f s) s' = saved p f s'.
Proof. intros E. unfold Csv.save_field, saved, filling. cbn. rewrite E. reflexivity. Qed.

Lemma field_ok_inv f :
  field_ok f = true ->
  no_cr f = true /\ Z.of_nat (List.length f) <= Csv.field_limit.
Proof.
  unfold field_ok. intros H. apply andb_true_iff in H. destruct H as [N L].
  apply Z.leb_le in L. auto.
Qed.

(** A field up to the quote character that opens it, or up to its first
    character, from the start of a record or of a field. *)
Lemma start_cases p :
  Csv.st p = Csv.START_RECORD \/ Csv.st p = Csv.START_FIELD ->
  forall c, Csv.newline c = false ->
  Csv.process_char p (Some c) = Csv.start_field p (Some c).
Proof.
  intros [S|S] c N; unfold Csv.process_char; rewrite S; [rewrite N|]; reflexivity.
Qed.

(** A field and the delimiter after it. *)
Lemma field_comma f p m rest acc :
  Csv.st p = Csv.START_RECORD \/ Csv.st p = Csv.START_FIELD ->
  Csv.field p = [] -> field_ok f = true ->
  Csv.for_rows body p m (Csv.encode_field f ++ Csv.comma :: rest) acc
  = Csv.for_rows body (saved p f Csv.START_FIELD) true rest acc.
Proof.
  intros S E K. destruct (field_ok_inv f K) as [N L].
  unfold Csv.encode_field. destruct (Csv.needs_quote f) eqn:Q.
  - cbn [app Csv.for_rows].
    rewrite (start_cases p S Csv.quote eq_refl). cbn [Csv.start_field].
    change (Csv.newline Csv.quote) with false.
    change (Ascii.eqb Csv.quote Csv.quote) with true.
    change (Ascii.eqb Csv.quote Csv.lf) with false. cbn [bind].
    rewrite <- app_assoc. cbn [app].
    rewrite (quoted_chars f (Csv.goto p Csv.IN_QUOTED_FIELD) true true Csv.quote (Csv.comma :: rest) acc eq_refl)
      by (cbn [Csv.goto Csv.field]; rewrite E; cbn [List.length]; lia).
    cbn [Csv.for_rows]. unfold Csv.process_char at 1. cbn [filling Csv.st].
    change (Ascii.eqb Csv.quote Csv.quote) with true.
    change (Ascii.eqb Csv.quote Csv.lf) with false. cbn [bind].
    unfold Csv.process_char at 1. cbn [Csv.goto Csv.st].
    change (Ascii.eqb Csv.comma Csv.quote) with false.
    change (Ascii.eqb Csv.comma Csv.comma) with true.
    change (Ascii.eqb Csv.comma Csv.lf) with false. cbn [bind].
    unfold Csv.save_field, saved. cbn [Csv.goto Csv.field Csv.fields filling].
    rewrite E. reflexivity.
  - destruct f as [|c f].
    + cbn [app Csv.for_rows].
      rewrite (start_cases p S Csv.comma eq_refl). cbn [Csv.start_field].
      change (Csv.newline Csv.comma) with false.
      change (Ascii.eqb Csv.comma Csv.quote) with false.
      change (Ascii.eqb Csv.comma Csv.comma) with true.
      change (Ascii.eqb Csv.comma Csv.lf) with false. cbn [bind].
      unfold Csv.save_field, saved. rewrite E. reflexivity.
    + pose proof Q as Q'. pose proof N as N'.
      cbn [Csv.needs_quote existsb] in Q'. apply orb_false_iff in Q'. destruct Q' as [Qc Q'].
      cbn [no_cr forallb] in N'. apply andb_true_iff in N'. destruct N' as [Nc N'].
      apply negb_true_iff in Nc.
      destruct (not_special c Qc) as (C1 & C2 & C3).
      cbn [List.length] in L.
      cbn [app Csv.for_rows].
      rewrite (start_cases p S c) by (unfold Csv.newline; rewrite C3, Nc; reflexivity).
      cbn [Csv.start_field]. unfold Csv.newline. rewrite C3, Nc, C2, C1. cbn [orb].
      rewrite add_char_ok by (rewrite E; cbn [List.length]; lia). cbn [bind].
      rewrite (unquoted_chars f (filling p [c] Csv.IN_FIELD) true Csv.comma rest acc eq_refl Q' N')
        by (cbn [filling Csv.field]; rewrite E; cbn [app List.length]; lia).
      rewrite filling_filling. cbn [Csv.for_rows].
      unfold Csv.process_char at 1. cbn [filling Csv.st].
      change (Csv.newline Csv.comma) with false.
      change (Ascii.eqb Csv.comma Csv.comma) with true.
      change (Ascii.eqb Csv.comma Csv.lf) with false. cbn [bind].
      rewrite saved_filling by exact E. reflexivity.
Qed.

(** The last field of a record and the end of its line. *)
Lemma field_lf f p m rest acc :
  Csv.st p = Csv.START_FIELD ->
  Csv.field p = [] -> field_ok f = true ->
  Csv.for_rows body p m (Csv.encode_field f ++ Csv.lf :: rest) acc
  = (acc' <- body (Csv.fields p ++ [string_of_list_ascii f]) acc ;;
     Csv.for_rows body Csv.reset false rest acc').
Proof.
  intros S E K. destruct (field_ok_inv f K) as [N L].
  unfold Csv.encode_field. destruct (Csv.needs_quote f) eqn:Q.
  - cbn [app Csv.for_rows].
    unfold Csv.process_char at 1. rewrite S. cbn [Csv.start_field].
    change (Csv.newline Csv.quote) with false.
    change (Ascii.eqb Csv.quote Csv.quote) with true.
    change (Ascii.eqb Csv.quote Csv.lf) with false. cbn [bind].
    rewrite <- app_assoc. cbn [app].
    rewrite (quoted_chars f (Csv.goto p Csv.IN_QUOTED_FIELD) true true Csv.quote (Csv.lf :: rest) acc eq_refl)
      by (cbn [Csv.goto Csv.field]; rewrite E; cbn [List.length]; lia).
    cbn [Csv.for_rows]. unfold Csv.process_char at 1. cbn [filling Csv.st].
    change (Ascii.eqb Csv.quote Csv.quote) with true.
    change (Ascii.eqb Csv.quote Csv.lf) with false. cbn [bind].
    unfold Csv.process_char at 1. cbn [Csv.goto Csv.st].
    change (Ascii.eqb Csv.lf Csv.quote) with false.
    change (Ascii.eqb Csv.lf Csv.comma) with false.
    change (Csv.newline Csv.lf) with true.
    change (Ascii.eqb Csv.lf Csv.lf) with true. cbn [bind].
    unfold Csv.process_char at 1. cbn [Csv.save_field Csv.st bind Csv.goto Csv.at_start].
    cbn [Csv.fields Csv.field filling Csv.goto Csv.save_field app]. rewrite ?E. reflexivity.
  - destruct f as [|c f].
    + cbn [app Csv.for_rows].
      unfold Csv.process_char at 1. rewrite S. cbn [Csv.start_field].
      change (Csv.newline Csv.lf) with true.
      change (Ascii.eqb Csv.lf Csv.lf) with true. cbn [bind].
      unfold Csv.process_char at 1. cbn [Csv.save_field Csv.st bind Csv.goto Csv.at_start].
      cbn [Csv.fields Csv.field filling Csv.goto Csv.save_field app]. rewrite ?E. reflexivity.
    + pose proof Q as Q'. pose proof N as N'.
      cbn [Csv.needs_quote existsb] in Q'. apply orb_false_iff in Q'. destruct Q' as [Qc Q'].
      cbn [no_cr forallb] in N'. apply andb_true_iff in N'. destruct N' as [Nc N'].
      apply negb_true_iff in Nc.
      destruct (not_special c Qc) as (C1 & C2 & C3).
      cbn [List.length] in L.
      cbn [app Csv.for_rows].
      unfold Csv.process_char at 1. rewrite S.
      cbn [Csv.start_field]. unfold Csv.newline. rewrite C3, Nc, C2, C1. cbn [orb].
      rewrite add_char_ok by (rewrite E; cbn [List.length]; lia). cbn [bind].
      rewrite (unquoted_chars f (filling p [c] Csv.IN_FIELD) true Csv.lf rest acc eq_refl Q' N')
        by (cbn [filling Csv.field]; rewrite E; cbn [app List.length]; lia).
      rewrite filling_filling. cbn [Csv.for_rows].
      unfold Csv.process_char at 1. cbn [filling Csv.st].
      change (Csv.newline Csv.lf) with true.
      change (Ascii.eqb Csv.lf Csv.lf) with true. cbn [bind].
      unfold Csv.process_char at 1. cbn [Csv.save_field Csv.st bind Csv.goto Csv.at_start].
      cbn [Csv.fields Csv.field filling Csv.goto Csv.save_field app]. rewrite ?E. reflexivity.
Qed.

End Reader.

Section Lines.

Context {A : Type} (body : list string -> A -> result A).

Lemma line_two f1 f2 fs :
  Csv.line (f1 :: f2 :: fs)
  = Csv.join (map Csv.encode_field (f1 :: f2 :: fs)) ++ [Csv.lf].
Proof.
  unfold Csv.line. cbn [map Csv.join].
  destruct (Csv.encode_field f1); reflexivity.
Qed.

(** The fields of a record after its first, to the end of the line. *)
Lemma join_fields fs : forall f p m rest acc,
  Csv.st p = Csv.START_FIELD -> Csv.field p = [] ->
  forallb field_ok (f :: fs) = true ->
  Csv.for_rows body p m
    (Csv.join (map Csv.encode_field (f :: fs)) ++ Csv.lf :: rest) acc
  = (acc' <- body (Csv.fields p ++ map string_of_list_ascii (f :: fs)) acc ;;
     Csv.for_rows body Csv.reset false rest acc').
Proof.
  induction fs as [|g fs IH]; intros f p m rest acc S E K;
    cbn [forallb] in K; apply andb_true_iff in K; destruct K as [Kf K].
  - cbn [map Csv.join]. apply field_lf; assumption.
  - change (Csv.join (map Csv.encode_field (f :: g :: fs)))
      with (Csv.encode_field f ++ Csv.comma :: Csv.join (map Csv.encode_field (g :: fs))).
    rewrite <- app_assoc. cbn [app].
    rewrite field_comma by auto.
    rewrite (IH g (saved p f Csv.START_FIELD) true rest acc eq_refl eq_refl K).
    cbn [saved Csv.fields]. rewrite <- app_assoc. reflexivity.
Qed.

(** The reader gives back the fields of a line of the writer. *)
Lemma line_fields f1 f2 fs m rest acc :
  forallb field_ok (f1 :: f2 :: fs) = true ->
  Csv.for_rows body Csv.reset m (Csv.line (f1 :: f2 :: fs) ++ rest) acc
  = (acc' <- body (map string_of_list_ascii (f1 :: f2 :: fs)) acc ;;
     Csv.for_rows body Csv.reset false rest acc').
Proof.
  intros K. rewrite line_two.
  cbn [forallb] in K. apply andb_true_iff in K. destruct K as [K1 K].
  change (Csv.join (map Csv.encode_field (f1 :: f2 :: fs)))
    with (Csv.encode_field f1 ++ Csv.comma :: Csv.join (map Csv.encode_field (f2 :: fs))).
  rewrite <- !app_assoc. cbn [app].
  rewrite field_comma by auto.
  apply (join_fields fs f2 (saved Csv.reset f1 Csv.START_FIELD) true rest acc eq_refl eq_refl K).
Qed.

End Lines.

(** *** Lines without carriage return *)

Lemma no_cr_app l r : no_cr (l ++ r) = no_cr l && no_cr r.
Proof. apply forallb_app. Qed.

Lemma no_cr_escape f : no_cr f = true -> no_cr (Csv.escape f) = true.
Proof.
  induction f as [|c f IH]; [reflexivity|].
  cbn [no_cr forallb]. intros H. apply andb_true_iff in H. destruct H as [C H].
  unfold Csv.escape. cbn [flat_map]. fold (Csv.escape f).
  destruct (Ascii.eqb c Csv.quote); cbn [app no_cr forallb];
    fold (no_cr (Csv.escape f)); rewrite (IH H), ?C; reflexivity.
Qed.

Lemma no_cr_encode f : no_cr f = true -> no_cr (Csv.encode_field f) = true.
Proof.
  intros H. unfold Csv.encode_field. destruct (Csv.needs_quote f); [|exact H].
  change (Csv.quote :: Csv.escape f ++ [Csv.quote])
    with ([Csv.quote] ++ Csv.escape f ++ [Csv.quote]).
  rewrite !no_cr_app, (no_cr_escape f H). reflexivity.
Qed.

Lemma no_cr_join fs :
  forallb no_cr fs = true -> no_cr (Csv.join (map Csv.encode_field fs)) = true.
Proof.
  induction fs as [|f fs IH]; [reflexivity|].
  cbn [forallb]. intros H. apply andb_true_iff in H. destruct H as [F H].
  destruct fs as [|g fs].
  - cbn [map Csv.join]. apply no_cr_encode. exact F.
  - change (Csv.join (map Csv.encode_field (f :: g :: fs)))
      with (Csv.encode_field f ++ [Csv.comma] ++ Csv.join (map Csv.encode_field (g :: fs))).
    rewrite !no_cr_app, (no_cr_encode f F), (IH H). reflexivity.
Qed.

Lemma no_cr_line fs : forallb no_cr fs = true -> no_cr (Csv.line fs) = true.
Proof.
  intros H. unfold Csv.line.
  pose proof (no_cr_join fs H) as J.
  destruct fs as [|f fs]; [reflexivity|].
  destruct (Csv.join (map Csv.encode_field (f :: fs))) as [|c l]; [reflexivity|].
  rewrite no_cr_app, J. reflexivity.
Qed.

Lemma field_ok_no_cr fs : forallb field_ok fs = true -> forallb no_cr fs = true.
Proof.
  induction fs as [|f fs IH]; [reflexivity|].
  cbn [forallb]. intros H. apply andb_true_iff in H. destruct H as [F H].
  apply field_ok_inv in F. destruct F as [F _]. rewrite F, (IH H). reflexivity.
Qed.

(** Reading in text mode changes nothing in a text without carriage return. *)
Lemma universal_newlines_no_cr l : no_cr l = true -> universal_newlines l = l.
Proof.
  induction l as [|c l IH]; [reflexivity|].
  cbn [no_cr forallb]. intros H. apply andb_true_iff in H. destruct H as [C H].
  apply negb_true_iff in C. cbn [universal_newlines]. rewrite C, (IH H). reflexivity.
Qed.

Lemma no_cr_concat ls : forallb no_cr ls = true -> no_cr (List.concat ls) = true.
Proof.
  induction ls as [|l ls IH]; [reflexivity|].
  cbn [forallb]. intros H. apply andb_true_iff in H. destruct H as [L H].
  cbn [List.concat]. rewrite no_cr_app, L, (IH H). reflexivity.
Qed.

(** *** Records that the store holds *)

Lemma str_ok n :
  PyInt.num_digits n <= PyInt.max_str_digits -> PyInt.str n = Ok (PyInt.decimal n).
Proof.
  intros H. unfold PyInt.str.
  destruct (PyInt.max_str_digits <? PyInt.num_digits n) eqn:E;
    [apply Z.ltb_lt in E; lia|reflexivity].
Qed.

Lemma digits_no_cr l :
  Forall (fun c => PyInt.is_digit c = true) l -> no_cr l = true.
Proof.
  induction 1 as [|c l C _ IH]; [reflexivity|].
  cbn [no_cr forallb]. fold (no_cr l). rewrite IH, andb_true_r.
  apply negb_true_iff, Ascii.eqb_neq. intros ->. discriminate C.
Qed.

Lemma decimal_field_ok n :
  PyInt.num_digits n <= PyInt.max_str_digits ->
  field_ok (list_ascii_of_string (PyInt.decimal n)) = true.
Proof.
  unfold PyInt.num_digits. intros H.
  assert (M : PyInt.max_str_digits + 1 <= Csv.field_limit) by (vm_compute; discriminate).
  destruct n as [|p|p].
  - reflexivity.
  - cbn [Z.abs] in H. rewrite decimal_pos in *.
    unfold field_ok. rewrite (digits_no_cr _ (string_of_uint_digits _)).
    rewrite length_list_ascii_of_string. apply Z.leb_le. lia.
  - cbn [Z.abs] in H. rewrite decimal_pos in H. rewrite decimal_neg.
    unfold field_ok. cbn [list_ascii_of_string no_cr forallb List.length].
    fold (no_cr (list_ascii_of_string (NilEmpty.string_of_uint (Pos.to_uint p)))).
    rewrite (digits_no_cr _ (string_of_uint_digits _)).
    rewrite length_list_ascii_of_string. apply Z.leb_le. lia.
Qed.

Lemma storable_inv gfn data :
  storable gfn data = true ->
  field_ok (list_ascii_of_string gfn) = true
  /\ field_ok (list_ascii_of_string (usage data)) = true
  /\ field_ok (list_ascii_of_string (subsets_text (subsets data))) = true
  /\ PyInt.num_digits (weight_int data) <= PyInt.max_str_digits
  /\ PyInt.num_digits (angle_int data) <= PyInt.max_str_digits
  /\ PyInt.num_digits (width_int data) <= PyInt.max_str_digits.
Proof.
  unfold storable. intros H.
  apply andb_true_iff in H. destruct H as [H I]. apply Z.leb_le in I.
  apply andb_true_iff in H. destruct H as [H N]. apply Z.leb_le in N.
  apply andb_true_iff in H. destruct H as [H W]. apply Z.leb_le in W.
  apply andb_true_iff in H. destruct H as [H S].
  apply andb_true_iff in H. destruct H as [G U].
  repeat split; assumption.
Qed.

Lemma writerow_data_row gfn data :
  storable gfn data = true ->
  Csv.writerow (data_row false gfn data) = Ok (Csv.line (row_texts gfn data)).
Proof.
  intros H. destruct (storable_inv gfn data H) as (_ & _ & _ & W & N & I).
  unfold Csv.writerow, data_row, band_cell, usage_cell.
  cbn [andb app mapM Csv.cell_text bind].
  rewrite (str_ok _ W), (str_ok _ N), (str_ok _ I). cbn [bind].
  unfold row_texts. destruct (subsets data); reflexivity.
Qed.

Lemma row_texts_ok gfn data :
  storable gfn data = true -> forallb field_ok (row_texts gfn data) = true.
Proof.
  intros H. destruct (storable_inv gfn data H) as (G & U & S & W & N & I).
  unfold row_texts. cbn [forallb].
  rewrite G, U, S, !decimal_field_ok by assumption. reflexivity.
Qed.

Lemma read_row_six g a b c u s :
  read_row [g; a; b; c; u; s]
  = (fwe <- PyInt.of_string a ;;
     fia <- PyInt.of_string b ;;
     fwi <- PyInt.of_string c ;;
     Ok (g, {| weight_int := fwe; angle_int := fia; width_int := fwi;
               usage := u; subsets := Some s |})).
Proof. reflexivity. Qed.

Lemma read_row_five g a b c u :
  read_row [g; a; b; c; u]
  = (fwe <- PyInt.of_string a ;;
     fia <- PyInt.of_string b ;;
     fwi <- PyInt.of_string c ;;
     Ok (g, {| weight_int := fwe; angle_int := fia; width_int := fwi;
               usage := u; subsets := None |})).
Proof. reflexivity. Qed.

(** The body of the loop of [read_csv] on the fields of a stored record. *)
Lemma read_row_texts gfn data :
  storable gfn data = true ->
  read_row (map string_of_list_ascii (row_texts gfn data)) = Ok (gfn, reread data).
Proof.
  intros H. destruct (storable_inv gfn data H) as (_ & _ & _ & W & N & I).
  unfold row_texts. cbn [map]. rewrite !string_of_list_ascii_of_string.
  rewrite read_row_six.
  rewrite (of_string_str _ _ (str_ok _ W)), (of_string_str _ _ (str_ok _ N)),
          (of_string_str _ _ (str_ok _ I)).
  reflexivity.
Qed.

Section Store.

Variable metadata : dict record.

Hypothesis stored :
  forall gfn data, PyDict.get gfn metadata = Some data -> storable gfn data = true.

(** What [save_csv] writes after the header. *)
Lemma save_lines keys :
  (forall k, In k keys -> PyDict.get k metadata <> None) ->
  mapM (fun gfn => data <- PyDict.item gfn metadata ;;
                   Csv.writerow (data_row false gfn data)) keys
  = Ok (map (fun k => Csv.line (row_of metadata k)) keys).
Proof.
  induction keys as [|k keys IH]; intros H; [reflexivity|].
  cbn [mapM map]. rewrite IH by (intros; apply H; right; assumption).
  unfold PyDict.item, row_of.
  destruct (PyDict.get k metadata) as [data|] eqn:E.
  - cbn [bind]. rewrite (writerow_data_row k data (stored k data E)). reflexivity.
  - exfalso. apply (H k); [left; reflexivity|exact E].
Qed.

Lemma lines_no_cr keys :
  (forall k, In k keys -> PyDict.get k metadata <> None) ->
  forallb no_cr (map (fun k => Csv.line (row_of metadata k)) keys) = true.
Proof.
  induction keys as [|k keys IH]; intros H; [reflexivity|].
  cbn [map forallb]. rewrite IH by (intros; apply H; right; assumption).
  rewrite andb_true_r. apply no_cr_line. unfold row_of.
  destruct (PyDict.get k metadata) as [data|] eqn:E; [|reflexivity].
  apply field_ok_no_cr, row_texts_ok, (stored k data E).
Qed.

(** What the loop of [read_csv] makes of these lines. *)
Lemma read_lines keys : forall acc,
  (forall k, In k keys -> PyDict.get k metadata <> None) ->
  Csv.for_rows read_body Csv.reset false
    (List.concat (map (fun k => Csv.line (row_of metadata k)) keys)) (true, acc)
  = Ok (true, fold_left (reread_step metadata) keys acc).
Proof.
  induction keys as [|k keys IH]; intros acc H; [reflexivity|].
  cbn [map List.concat fold_left].
  unfold row_of at 1, reread_step at 2.
  destruct (PyDict.get k metadata) as [data|] eqn:E.
  - pose proof (stored k data E) as K.
    unfold row_texts at 1.
    rewrite line_fields by (apply (row_texts_ok k data K)).
    fold (row_texts k data).
    unfold read_body at 1. cbn [fst snd].
    rewrite (read_row_texts k data K). cbn [bind].
    apply IH. intros; apply H; right; assumption.
  - exfalso. apply (H k); [left; reflexivity|exact E].
Qed.

Lemma reread_get keys : forall acc gfn,
  (forall k, In k keys -> PyDict.get k metadata <> None) ->
  PyDict.get gfn (fold_left (reread_step metadata) keys acc)
  = if in_dec string_dec gfn keys
    then option_map reread (PyDict.get gfn metadata)
    else PyDict.get gfn acc.
Proof.
  induction keys as [|k keys IH]; intros acc gfn H; [reflexivity|].
  cbn [fold_left]. rewrite IH by (intros; apply H; right; assumption).
  assert (Hk : PyDict.get k metadata <> None) by (apply H; left; reflexivity).
  unfold reread_step.
  destruct (PyDict.get k metadata) as [data|] eqn:E; [|contradiction].
  destruct (in_dec string_dec gfn keys) as [I|I];
    destruct (in_dec string_dec gfn (k :: keys)) as [J|J]; try reflexivity.
  - exfalso. apply J. right. exact I.
  - destruct J as [->|J]; [|contradiction].
    rewrite get_set_same, E. reflexivity.
  - apply get_set_other. intros ->. apply J. left. reflexivity.
Qed.

End Store.

Lemma get_In_item {V} k (v : V) d : PyDict.get k d = Some v -> In (k, v) d.
Proof.
  induction d as [|[k' v'] d IH]; [discriminate|].
  cbn [PyDict.get]. destruct (String.eqb k' k) eqn:E.
  - apply String.eqb_eq in E. intros [= <-]. left. congruence.
  - intros H. right. apply IH. exact H.
Qed.

Lemma keys_get {V} k (d : dict V) : In k (PyDict.keys d) -> PyDict.get k d <> None.
Proof.
  induction d as [|[k' v'] d IH]; [intros []|].
  cbn [PyDict.keys map fst In PyDict.get]. intros [->|H].
  - rewrite String.eqb_refl. discriminate.
  - destruct (String.eqb k' k); [discriminate|]. apply IH. exact H.
Qed.

Lemma get_keys {V} k (d : dict V) : PyDict.get k d <> None -> In k (PyDict.keys d).
Proof.
  induction d as [|[k' v'] d IH]; [intros H; contradiction H; reflexivity|].
  cbn [PyDict.keys map fst In PyDict.get]. destruct (String.eqb k' k) eqn:E.
  - apply String.eqb_eq in E. auto.
  - intros H. right. apply IH. exact H.
Qed.

Lemma sorted_In k keys : In k (sorted keys) <-> In k keys.
Proof.
  unfold sorted. split; apply Permutation_in.
  - apply Permutation_sym, StringSort.Permuted_sort.
  - apply StringSort.Permuted_sort.
Qed.

Lemma sorted_keys_get {V} (d : dict V) k :
  In k (sorted (PyDict.keys d)) -> PyDict.get k d <> None.
Proof. intros H. apply keys_get, sorted_In, H. Qed.

(** C7, as amended. Writing a metadata mapping whose font identifiers,
    usage tags and subsets hold no carriage return and at most 131072
    characters, and whose bands have at most 4300 digits, with [save_csv]
    in non-cleanup mode, and reading the file back with [read_csv], gives
    for every font identifier the record that was written, with the same
    weight, angle and width bands and the same usage tag; subsets that were
    [None] are read back as the empty string. *)
Theorem save_read_round_trip filename metadata fs :
  all_storable metadata = true ->
  exists fs' metadata',
    save_csv filename metadata false fs = Ok fs'
    /\ read_csv filename fs' = Ok metadata'
    /\ forall gfn,
         PyDict.get gfn metadata' = option_map reread (PyDict.get gfn metadata).
Proof.
  intros H.
  assert (stored : forall gfn data,
             PyDict.get gfn metadata = Some data -> storable gfn data = true).
  { intros gfn data G. apply get_In_item in G.
    unfold all_storable in H. rewrite forallb_forall in H. exact (H _ G). }
  pose proof (@sorted_keys_get _ metadata) as K.
  set (keys := sorted (PyDict.keys metadata)) in *.
  set (lines := map (fun k => Csv.line (row_of metadata k)) keys).
  exists (PyDict.set filename (Csv.line header_texts ++ List.concat lines) fs).
  exists (fold_left (reread_step metadata) keys []).
  split; [|split].
  - unfold save_csv. fold keys.
    change (Csv.writerow (header_row false)) with (Ok (Csv.line header_texts)).
    cbn [bind]. rewrite (save_lines metadata stored keys K). reflexivity.
  - unfold read_csv, open_read. rewrite get_set_same. cbn [bind].
    rewrite universal_newlines_no_cr.
    2:{ rewrite no_cr_app, no_cr_concat by (apply (lines_no_cr metadata stored keys K)).
        reflexivity. }
    unfold header_texts. cbn [map].
    rewrite line_fields by reflexivity.
    unfold read_body at 1. cbn [fst snd bind].
    fold lines. unfold lines.
    rewrite (read_lines metadata stored keys [] K). reflexivity.
  - intros gfn. rewrite (reread_get metadata keys [] gfn K).
    destruct (in_dec string_dec gfn keys) as [I|I]; [reflexivity|].
    destruct (PyDict.get gfn metadata) eqn:G; [|reflexivity].
    exfalso. apply I. apply sorted_In, get_keys. rewrite G. discriminate.
Qed.

Lemma save_read_round_trip_witness :
  exists fs' metadata',
    save_csv "fonts.csv" example_metadata false [] = Ok fs'
    /\ read_csv "fonts.csv" fs' = Ok metadata'
    /\ forall gfn,
         PyDict.get gfn metadata'
         = option_map reread (PyDict.get gfn example_metadata).
Proof.
  apply (save_read_round_trip "fonts.csv" example_metadata []). reflexivity.
Defined.

(** C7 as stated fails: a usage tag with a carriage return is written
    as it is, and read as two lines. *)
Lemma carriage_return_not_read_back :
  exists fs',
    save_csv "fonts.csv" cr_metadata false [] = Ok fs'
    /\ read_csv "fonts.csv" fs' = Raise ValueError.
Proof.
  eexists. split; [reflexivity|]. vm_compute. reflexivity.
Qed.

(** *** The rows of a file *)

Lemma bind_ok {A : Type} (c : result A) : (x <- c ;; Ok x) = c.
Proof. destruct c; reflexivity. Qed.

(** When the reader gives all the rows of a text, a loop over the reader
    is the loop over these rows. *)
Lemma for_rows_rows text : forall p m pre l,
  Csv.for_rows (fun row acc => Ok (acc ++ [row])) p m text pre = Ok l ->
  exists rs, l = pre ++ rs /\
    forall (A : Type) (body : list string -> A -> result A) (acc : A),
      Csv.for_rows body p m text acc = foldM (fun a r => body r a) rs acc.
Proof.
  induction text as [|c text IH]; intros p m pre l H.
  - cbn [Csv.for_rows] in H |- *.
    destruct (if m then Csv.process_char p None else Ok p) as [p1|e]; [|discriminate H].
    cbn [bind] in H |- *.
    destruct (m && Csv.at_start p1).
    + injection H as <-. eexists. split; [reflexivity|].
      intros A body acc. cbn [foldM]. rewrite bind_ok. reflexivity.
    + destruct (Csv.pending p1).
      * injection H as <-. eexists. split; [reflexivity|].
        intros A body acc. cbn [foldM]. rewrite bind_ok. reflexivity.
      * injection H as <-. exists []. split; [rewrite app_nil_r; reflexivity|].
        intros A body acc. reflexivity.
  - cbn [Csv.for_rows] in H |- *.
    destruct (Csv.process_char p (Some c)) as [p1|e]; [|discriminate H].
    cbn [bind] in H |- *.
    destruct (Ascii.eqb c Csv.lf).
    + destruct (Csv.process_char p1 None) as [p2|e]; [|discriminate H].
      cbn [bind] in H |- *.
      destruct (Csv.at_start p2).
      * destruct (IH _ _ _ _ H) as (rs & -> & F).
        exists (Csv.fields p2 :: rs). split; [rewrite <- app_assoc; reflexivity|].
        intros A body acc. cbn [foldM].
        destruct (body (Csv.fields p2) acc); [|reflexivity].
        cbn [bind]. apply F.
      * destruct (IH _ _ _ _ H) as (rs & -> & F).
        exists rs. split; [reflexivity|]. intros A body acc. apply F.
    + destruct (IH _ _ _ _ H) as (rs & -> & F).
      exists rs. split; [reflexivity|]. intros A body acc. apply F.
Qed.

(** C9 as stated fails: a data row of three fields has fewer than six
    fields, and reading it raises [IndexError]. *)
Lemma three_field_row_raises :
  Csv.rows (text_of_lines ["GFN,FWE,FIA,FWI,USAGE"%string; "a.ttf,1,2"%string])
  = Ok [["GFN"; "FWE"; "FIA"; "FWI"; "USAGE"]; ["a.ttf"; "1"; "2"]]%string
  /\ read_csv "fonts.csv" three_field_files = Raise IndexError.
Proof. split; reflexivity. Qed.

(** *** Publishing *)

Lemma band_cell_published b :
  Csv.cell_text (band_cell true b) = Ok (list_ascii_of_string (published_band b)).
Proof.
  unfold band_cell, out_of_range, published_band. cbn [andb].
  destruct ((0 <=? b - 1) && (b - 1 <? 10)) eqn:E; cbn [negb].
  - apply andb_true_iff in E. destruct E as [L U].
    apply Z.leb_le in L. apply Z.ltb_lt in U.
    assert (C : b = 1 \/ b = 2 \/ b = 3 \/ b = 4 \/ b = 5 \/ b = 6 \/ b = 7
                \/ b = 8 \/ b = 9 \/ b = 10) by lia.
    repeat (destruct C as [->|C]; [reflexivity|]). subst b. reflexivity.
  - replace ((1 <=? b) && (b <=? 10)) with false; [reflexivity|].
    symmetry. apply andb_false_iff. apply andb_false_iff in E.
    destruct E as [E|E]; [left; apply Z.leb_gt in E; apply Z.leb_gt; lia|].
    right. apply Z.ltb_ge in E. apply Z.leb_gt. lia.
Qed.

Lemma usage_cell_published u :
  Csv.cell_text (usage_cell true u) = Ok (list_ascii_of_string (published_usage u)).
Proof.
  unfold usage_cell, published_usage. cbn [andb].
  destruct (String.eqb u "body" || String.eqb u "header"); reflexivity.
Qed.

Lemma writerow_published gfn data :
  Csv.writerow (data_row true gfn data) = Ok (Csv.line (published_row gfn data)).
Proof.
  unfold Csv.writerow, data_row. cbn [app mapM].
  rewrite !band_cell_published, usage_cell_published. reflexivity.
Qed.

Lemma published_lines metadata keys :
  (forall k, In k keys -> PyDict.get k metadata <> None) ->
  mapM (fun gfn => data <- PyDict.item gfn metadata ;;
                   Csv.writerow (data_row true gfn data)) keys
  = Ok (map (published_line metadata) keys).
Proof.
  induction keys as [|k keys IH]; intros H; [reflexivity|].
  cbn [mapM map]. rewrite IH by (intros; apply H; right; assumption).
  unfold PyDict.item, published_line.
  destruct (PyDict.get k metadata) as [data|] eqn:E.
  - cbn [bind]. rewrite writerow_published. reflexivity.
  - exfalso. apply (H k); [left; reflexivity|exact E].
Qed.

(** C8. In publish-cleanup mode [save_csv] never raises, and writes, under
    the five-column header, one line per font identifier, in sorted order,
    that holds the identifier, each band as it is published and the usage
    tag as it is published: a band out of the range 1-10 is published as
    the empty field, and so is a usage tag that is neither [body] nor
    [header], while a band in the range is published in decimal and [body]
    and [header] are published unchanged. *)
Theorem publish_cleanup_redacts filename metadata fs :
  save_csv filename metadata true fs
  = Ok (PyDict.set filename
          (Csv.line published_header
           ++ List.concat (map (published_line metadata)
                               (sorted (PyDict.keys metadata))))
          fs)
  /\ (forall b, b < 1 \/ 10 < b -> published_band b = EmptyString)
  /\ (forall b, 1 <= b <= 10 -> published_band b = PyInt.decimal b)
  /\ (forall u, u <> "body"%string -> u <> "header"%string ->
                published_usage u = EmptyString)
  /\ published_usage "body" = "body"%string
  /\ published_usage "header" = "header"%string.
Proof.
  split; [|split; [|split; [|split; [|split]]]].
  - unfold save_csv.
    change (Csv.writerow (header_row true)) with (Ok (Csv.line published_header)).
    cbn [bind]. rewrite published_lines by (apply sorted_keys_get). reflexivity.
  - intros b H. unfold published_band.
    destruct ((1 <=? b) && (b <=? 10)) eqn:E; [|reflexivity].
    apply andb_true_iff in E. destruct E as [L U].
    apply Z.leb_le in L. apply Z.leb_le in U. lia.
  - intros b [L U]. unfold published_band.
    apply Z.leb_le in L. apply Z.leb_le in U. rewrite L, U. reflexivity.
  - intros u B H. unfold published_usage.
    apply String.eqb_neq in B. apply String.eqb_neq in H. rewrite B, H. reflexivity.
  - reflexivity.
  - reflexivity.
Qed.

Lemma publish_cleanup_redacts_witness :
  save_csv "fonts.csv" example_metadata true []
  = Ok [("fonts.csv"%string,
         text_of_lines ["GFN,FWE,FIA,FWI,USAGE"%string;
                        "Abel-Regular.ttf,3,,,"%string;
                        "Lato-Bold.ttf,7,1,5,header"%string])].
Proof.
  exact (proj1 (publish_cleanup_redacts "fonts.csv" example_metadata [])).
Defined.

(** ** Other properties of [util.py] *)

(** *** The blocklist *)

Lemma prefix_append s1 s2 :
  String.prefix s1 s2 = true <-> exists post, s2 = (s1 ++ post)%string.
Proof.
  revert s2. induction s1 as [|a s1 IH]; intros s2.
  - split; [intros _; exists s2; reflexivity|]. destruct s2; reflexivity.
  - destruct s2 as [|b s2]; cbn [String.prefix String.append].
    + split; [discriminate|]. intros [post H]. discriminate H.
    + destruct (ascii_dec a b) as [->|N].
      * rewrite IH. split; intros [post H]; exists post; congruence.
      * split; [discriminate|]. intros [post H]. congruence.
Qed.

Lemma index_append sub s :
  (exists n, String.index 0 sub s = Some n)
  <-> exists pre post, s = (pre ++ sub ++ post)%string.
Proof.
  induction s as [|b s IH].
  - cbn [String.index]. destruct sub as [|a sub].
    + split; [intros _; exists EmptyString, EmptyString; reflexivity|eauto].
    + split; [intros [n H]; discriminate H|].
      intros (pre & post & H). destruct pre; discriminate H.
  - cbn [String.index].
    destruct (String.prefix sub (String b s)) eqn:P.
    + split; [|eauto]. intros _. apply prefix_append in P. destruct P as [post P].
      exists EmptyString, post. exact P.
    + split.
      * intros [n H]. destruct (String.index 0 sub s) as [m|] eqn:E; [|discriminate H].
        destruct IH as [IH _]. destruct (IH (ex_intro _ m eq_refl)) as (pre & post & ->).
        exists (String b pre), post. reflexivity.
      * intros (pre & post & H). destruct pre as [|c pre].
        -- exfalso. cbn [String.append] in H.
           assert (T : String.prefix sub (String b s) = true)
             by (apply prefix_append; exists post; exact H).
           congruence.
        -- cbn [String.append] in H. injection H as -> ->.
           destruct IH as [_ IH]. destruct IH as [m E]; [eauto|].
           rewrite E. eauto.
Qed.

(** [sub in s] holds when [sub] is a part of [s]. *)
Lemma str_contains_spec sub s :
  str_contains sub s = true <-> exists pre post, s = (pre ++ sub ++ post)%string.
Proof.
  rewrite <- index_append. unfold str_contains.
  destruct (String.index 0 sub s) as [n|]; split; try reflexivity; eauto;
    try discriminate. intros [n H]. discriminate H.
Qed.

Lemma blocklist_loop_spec names filename :
  (blocklist_loop names filename = Some true
   <-> exists name, In name names /\ str_contains name filename = true)
  /\ (blocklist_loop names filename = Some true
      \/ blocklist_loop names filename = None).
Proof.
  induction names as [|name names [IH1 IH2]]; cbn [blocklist_loop].
  - split; [|auto]. split; [discriminate|]. intros (name & [] & _).
  - destruct (str_contains name filename) eqn:E.
    + split; [|auto]. split; [|reflexivity]. intros _. exists name. split; [left; reflexivity|exact E].
    + split; [|exact IH2]. rewrite IH1. split.
      * intros (n & I & C). exists n. split; [right; exact I|exact C].
      * intros (n & [<-|I] & C); [congruence|]. exists n. auto.
Qed.

(** X1. [is_blocklisted] returns [True] exactly for the file names of
    which a name of the blocklist is a part; for every other file name it
    returns [None], never [False]. *)
Theorem is_blocklisted_spec filename :
  (is_blocklisted filename = Some true
   <-> exists name pre post,
         In name BLOCKLIST /\ filename = (pre ++ name ++ post)%string)
  /\ (is_blocklisted filename <> Some true -> is_blocklisted filename = None).
Proof.
  unfold is_blocklisted.
  destruct (blocklist_loop_spec BLOCKLIST filename) as [A B]. split.
  - rewrite A. split.
    + intros (name & I & C). apply str_contains_spec in C.
      destruct C as (pre & post & C). exists name, pre, post. auto.
    + intros (name & pre & post & I & C). exists name. split; [exact I|].
      apply str_contains_spec. eauto.
  - intros N. destruct B as [B|B]; [contradiction|exact B].
Qed.

Lemma string_append_assoc (a b c : string) : ((a ++ b) ++ c = a ++ (b ++ c))%string.
Proof. induction a as [|x a IH]; [reflexivity|]. cbn. rewrite IH. reflexivity. Qed.

(** X2. A file name that is blocklisted stays blocklisted whatever is put
    before it and after it (a directory, an extension). *)
Theorem is_blocklisted_embedded filename before after :
  is_blocklisted filename = Some true ->
  is_blocklisted (before ++ filename ++ after) = Some true.
Proof.
  unfold is_blocklisted.
  destruct (blocklist_loop_spec BLOCKLIST filename) as [A _].
  destruct (blocklist_loop_spec BLOCKLIST (before ++ filename ++ after)) as [B _].
  intros H. apply B. apply A in H. destruct H as (name & I & C).
  exists name. split; [exact I|].
  apply str_contains_spec in C. destruct C as (pre & post & ->).
  apply str_contains_spec. exists (before ++ pre)%string, (post ++ after)%string.
  rewrite !string_append_assoc. reflexivity.
Qed.

Lemma is_blocklisted_embedded_witness :
  is_blocklisted "ofl/rubik/Rubik-Bold.ttf" = Some true.
Proof.
  exact (is_blocklisted_embedded "Rubik-Bold" "ofl/rubik/" ".ttf" eq_refl).
Defined.

(** *** The extremes *)

Lemma fval_le_ltb x y :
  fnan x = false -> fnan y = false -> (fval x <= fval y)%Q ->
  PrimFloat.ltb y x = false.
Proof.
  intros Nx Ny H. rewrite ltb_spec.
  apply (SFltb_false _ _ (Prim2SF_valid y) (Prim2SF_valid x) Ny Nx). exact H.
Qed.

(** X3. On a dictionary that is not empty and holds no NaN,
    [find_extremes] returns two of its values, and no value is less than
    the first or greater than the second. *)
Theorem find_extremes_bounds (d : dict float) :
  d <> [] ->
  (forall v, In v (PyDict.values d) -> fnan v = false) ->
  exists lo hi,
    find_extremes d = Ok (lo, hi)
    /\ In lo (PyDict.values d) /\ In hi (PyDict.values d)
    /\ forall v, In v (PyDict.values d) ->
         PrimFloat.ltb v lo = false /\ PrimFloat.ltb hi v = false.
Proof.
  intros NE N.
  assert (E : exists lo hi, find_extremes d = Ok (lo, hi)).
  { unfold find_extremes, PyFloat.min, PyFloat.max.
    destruct d as [|[k x] d]; [congruence|]. cbn [PyDict.values map snd bind]. eauto. }
  destruct E as (lo & hi & E). exists lo, hi.
  destruct (find_extremes_spec d lo hi E) as (Il & Ih & Hl & Hh).
  split; [exact E|]. split; [exact Il|]. split; [exact Ih|].
  intros v Iv. split.
  - apply fval_le_ltb; auto.
  - apply fval_le_ltb; auto.
Qed.

Lemma find_extremes_bounds_witness :
  exists lo hi,
    find_extremes example_darkness = Ok (lo, hi)
    /\ In lo (PyDict.values example_darkness)
    /\ In hi (PyDict.values example_darkness)
    /\ forall v, In v (PyDict.values example_darkness) ->
         PrimFloat.ltb v lo = false /\ PrimFloat.ltb hi v = false.
Proof.
  apply (find_extremes_bounds example_darkness).
  - discriminate.
  - intros v [<-|[<-|[<-|[]]]]; reflexivity.
Defined.

(** *** The fonts of a batch *)

(** X4. The two dictionaries that [group_by_attributes] returns have a
    band for each font name of the batch, and for no other name. *)
Theorem group_by_attributes_keys measure fonts weights widths :
  group_by_attributes measure fonts = Ok (weights, widths) ->
  forall name,
    (PyDict.get name weights <> None <-> In name (map fst fonts))
    /\ (PyDict.get name widths <> None <-> In name (map fst fonts)).
Proof.
  intros G name.
  destruct (group_inv _ _ _ _ G) as (darkness & width & _ & N1 & N2).
  assert (K : forall values bands,
             normalize fonts values = Ok bands ->
             (PyDict.get name bands <> None <-> In name (map fst fonts))).
  { intros values bands N.
    destruct (normalize_extremes _ _ _ N) as (lo & hi & E).
    pose proof (normalize_get _ _ _ _ _ N E name) as H.
    destruct (in_dec string_dec name (map fst fonts)) as [I|I].
    - split; [intros _; exact I|intros _].
      destruct (PrimFloat.eqb (hi - lo) 0); [rewrite H; discriminate|].
      destruct H as (v & b & _ & _ & ->). discriminate.
    - rewrite H. split; [intros C; contradiction C; reflexivity|contradiction]. }
  split; [exact (K _ _ N1)|exact (K _ _ N2)].
Qed.

Lemma group_by_attributes_keys_witness :
  (PyDict.get "FontB" example_weights <> None
   <-> In "FontB"%string (map fst example_fonts))
  /\ (PyDict.get "FontB" example_widths <> None
      <-> In "FontB"%string (map fst example_fonts)).
Proof.
  exact (group_by_attributes_keys example_measure example_fonts
           example_weights example_widths eq_refl "FontB").
Defined.

(** The measurements up to a font whose measurement raises. *)
Lemma measure_raises measure pre : forall acc f post e,
  (forall g, In g pre -> exists d w, measure (fst g) (snd g) = Ok (d, w)) ->
  measure (fst f) (snd f) = Raise e ->
  foldM (measure_step measure) (pre ++ f :: post) acc = Raise e.
Proof.
  induction pre as [|g pre IH]; intros acc f post e H R; cbn [app foldM].
  - unfold measure_step. rewrite R. reflexivity.
  - destruct (H g (or_introl eq_refl)) as (d & w & M).
    unfold measure_step at 1. rewrite M. cbn [bind].
    apply IH; [|exact R]. intros g' I. apply H. right. exact I.
Qed.

(** X5. When the measurement of a font raises, and the measurements of
    the fonts before it do not, [group_by_attributes] raises the same
    exception: no band is returned for any font of the batch. *)
Theorem measurement_error_aborts measure pre f post e :
  (forall g, In g pre -> exists d w, measure (fst g) (snd g) = Ok (d, w)) ->
  measure (fst f) (snd f) = Raise e ->
  group_by_attributes measure (pre ++ f :: post) = Raise e.
Proof.
  intros H R. unfold group_by_attributes, measure_all.
  rewrite (measure_raises measure pre _ f post e H R). reflexivity.
Qed.

Lemma measurement_error_aborts_witness :
  group_by_attributes example_measure
    [("FontA"%string, None); ("FontZ"%string, None); ("FontC"%string, None)]
  = Raise CairoError.
Proof.
  apply (measurement_error_aborts example_measure
           [("FontA"%string, None)] ("FontZ"%string, None) [("FontC"%string, None)]).
  - intros g [<-|[]]. exists 0.10%float, 10.5%float. reflexivity.
  - reflexivity.
Defined.

(** *** Measurements that give bands *)

Lemma values_set {V} k (v x : V) d :
  In x (PyDict.values (PyDict.set k v d)) -> x = v \/ In x (PyDict.values d).
Proof.
  induction d as [|[k' v'] d IH]; cbn [PyDict.set PyDict.values map snd In].
  - intros [<-|[]]. left. reflexivity.
  - destruct (String.eqb k' k); cbn [map snd In].
    + intros [<-|H]; auto.
    + intros [<-|H]; auto. destruct (IH H); auto.
Qed.

(** Every value of the two dictionaries of measurements is the measurement
    of a font. *)
Lemma measure_all_values measure fonts : forall d0 w0 darkness width,
  foldM (measure_step measure) fonts (d0, w0) = Ok (darkness, width) ->
  (forall x, In x (PyDict.values darkness) ->
     In x (PyDict.values d0)
     \/ exists f w, In f fonts /\ measure (fst f) (snd f) = Ok (x, w))
  /\ (forall x, In x (PyDict.values width) ->
        In x (PyDict.values w0)
        \/ exists f d, In f fonts /\ measure (fst f) (snd f) = Ok (d, x)).
Proof.
  induction fonts as [|f fonts IH]; intros d0 w0 darkness width H; cbn [foldM] in H.
  - injection H as <- <-. auto.
  - unfold measure_step at 1 in H.
    destruct (measure (fst f) (snd f)) as [[d w]|e] eqn:M; [|discriminate H].
    cbn [bind fst snd] in H. destruct (IH _ _ _ _ H) as [A B]. split.
    + intros x I. destruct (A x I) as [J|(g & w' & J & K)].
      * destruct (values_set _ _ _ _ J) as [->|J']; [|auto].
        right. exists f, w. split; [left; reflexivity|exact M].
      * right. exists g, w'. split; [right; exact J|exact K].
    + intros x I. destruct (B x I) as [J|(g & d' & J & K)].
      * destruct (values_set _ _ _ _ J) as [->|J']; [|auto].
        right. exists f, d. split; [left; reflexivity|exact M].
      * right. exists g, d'. split; [right; exact J|exact K].
Qed.

Lemma measure_all_total measure fonts : forall acc,
  (forall f, In f fonts -> exists d w, measure (fst f) (snd f) = Ok (d, w)) ->
  exists darkness width,
    foldM (measure_step measure) fonts acc = Ok (darkness, width).
Proof.
  induction fonts as [|f fonts IH]; intros [d0 w0] H; cbn [foldM].
  - eauto.
  - destruct (H f (or_introl eq_refl)) as (d & w & M).
    unfold measure_step at 1. rewrite M. cbn [bind].
    apply IH. intros g I. apply H. right. exact I.
Qed.

Lemma measurable_inv x :
  measurable x = true -> ffinite x = true /\ (0 <= fval x)%Q.
Proof.
  unfold measurable. intros H. apply andb_true_iff in H. destruct H as [F L].
  apply negb_true_iff in L. split; [exact F|].
  apply (ltb_false_fval x 0 L (ffinite_not_nan x F) eq_refl).
Qed.

(** X6. On a batch that is not empty, when every measurement succeeds
    with a darkness and a width that are finite and not negative,
    [group_by_attributes] returns bands: the normalisation raises
    nothing. *)
Theorem group_by_attributes_returns measure fonts :
  fonts <> [] ->
  (forall f, In f fonts ->
     exists d w, measure (fst f) (snd f) = Ok (d, w)
                 /\ measurable d = true /\ measurable w = true) ->
  exists weights widths,
    group_by_attributes measure fonts = Ok (weights, widths).
Proof.
  intros NE H.
  destruct (measure_all_total measure fonts ([], [])) as (darkness & width & M).
  { intros f I. destruct (H f I) as (d & w & E & _). eauto. }
  destruct (measure_all_values measure fonts _ _ _ _ M) as [A B].
  apply (group_by_attributes_total measure fonts darkness width NE M).
  - intros x I. destruct (A x I) as [[]|(f & w & J & K)].
    destruct (H f J) as (d' & w' & E & Md & Mw). rewrite K in E.
    injection E as <- <-. apply measurable_inv. exact Md.
  - intros x I. destruct (B x I) as [[]|(f & d & J & K)].
    destruct (H f J) as (d' & w' & E & Md & Mw). rewrite K in E.
    injection E as <- <-. apply measurable_inv. exact Mw.
Qed.

Lemma group_by_attributes_returns_witness :
  exists weights widths,
    group_by_attributes example_measure example_fonts = Ok (weights, widths).
Proof.
  apply (group_by_attributes_returns example_measure example_fonts).
  - discriminate.
  - intros f [<-|[<-|[<-|[]]]]; eexists; eexists;
      (split; [reflexivity|split; reflexivity]).
Defined.

(** *** A batch of one font *)

Lemma eqb_refl_finite x : ffinite x = true -> PrimFloat.eqb x x = true.
Proof.
  intros F. rewrite eqb_spec. unfold SFeqb.
  rewrite (SFcompare_correct _ _ (Prim2SF_valid x) (Prim2SF_valid x)
             (ffinite_not_nan x F) (ffinite_not_nan x F)).
  rewrite Qcompare_Eq by reflexivity. reflexivity.
Qed.

Lemma sub_self_nan x : ffinite x = false -> fnan (x - x) = true.
Proof.
  unfold ffinite, fnan. rewrite sub_spec.
  destruct (Prim2SF x) as [s|s| |s m e]; try discriminate; intros _;
    [destruct s|]; reflexivity.
Qed.

Lemma eqb_nan_zero x : fnan x = true -> PrimFloat.eqb x 0 = false.
Proof.
  unfold fnan. rewrite eqb_zero.
  destruct (Prim2SF x); try discriminate. reflexivity.
Qed.

Lemma div_nan x y : fnan y = true -> fnan (x / y) = true.
Proof.
  unfold fnan. rewrite div_spec.
  destruct (Prim2SF y); try discriminate. intros _.
  destruct (Prim2SF x); reflexivity.
Qed.

Lemma mul_nan x y : fnan y = true -> fnan (x * y) = true.
Proof.
  unfold fnan. rewrite mul_spec.
  destruct (Prim2SF y); try discriminate. intros _.
  destruct (Prim2SF x); reflexivity.
Qed.

Lemma floor_nan x : fnan x = true -> PyFloat.floor x = Raise ValueError.
Proof.
  unfold fnan, PyFloat.floor. destruct (Prim2SF x); try discriminate. reflexivity.
Qed.

(** The normalisation of the one value of a batch of one font. *)
Lemma normalize_single name subsets v :
  normalize [(name, subsets)] [(name, v)]
  = if ffinite v then Ok [(name, 5)] else Raise ValueError.
Proof.
  unfold normalize, find_extremes. cbn [PyDict.values map snd PyFloat.min PyFloat.max
                                       fold_left bind].
  destruct (ffinite v) eqn:F.
  - assert (Z : PrimFloat.eqb (v - v) 0 = true).
    { apply (identical_values_degenerate [(name, v)] v v v eq_refl F).
      intros d [<-|[]]. apply eqb_refl_finite. exact F. }
    rewrite Z. reflexivity.
  - pose proof (sub_self_nan v F) as N.
    rewrite (eqb_nan_zero _ N). cbn [foldM fst]. unfold score_step at 1.
    unfold PyDict.item. cbn [PyDict.get fst]. rewrite String.eqb_refl. cbn [bind].
    unfold score, PyFloat.truediv. rewrite (eqb_nan_zero _ N). cbn [bind].
    rewrite (floor_nan _ (mul_nan _ _ (div_nan _ _ N))). reflexivity.
Qed.

(** X7. A batch of one font whose measurement succeeds gets band 5 for
    the weight and band 5 for the width when its darkness and its width
    are finite; when one of them is infinite or NaN, [group_by_attributes]
    raises [ValueError]. *)
Theorem single_font_batch measure name subsets d w :
  measure name subsets = Ok (d, w) ->
  group_by_attributes measure [(name, subsets)]
  = if ffinite d && ffinite w then Ok ([(name, 5)], [(name, 5)])
    else Raise ValueError.
Proof.
  intros M. unfold group_by_attributes, measure_all. cbn [foldM].
  unfold measure_step. cbn [fst snd]. rewrite M. cbn [bind fst snd PyDict.set].
  rewrite !normalize_single.
  destruct (ffinite d); [|reflexivity]. cbn [bind andb].
  destruct (ffinite w); reflexivity.
Qed.

Lemma single_font_batch_witness :
  group_by_attributes flat_measure [("FontA"%string, None)]
  = Ok ([("FontA"%string, 5)], [("FontA"%string, 5)]).
Proof.
  exact (single_font_batch flat_measure "FontA" None 0.25%float 1.5%float eq_refl).
Defined.

(** *** Bands and extremes *)

(** X8. The band of a font depends on its value and on the two extremes
    of the batch only: in two batches with the same extremes, a font with
    the same value gets the same band. *)
Theorem band_depends_on_extremes fonts1 values1 bands1 fonts2 values2 bands2 name :
  normalize fonts1 values1 = Ok bands1 ->
  normalize fonts2 values2 = Ok bands2 ->
  find_extremes values1 = find_extremes values2 ->
  In name (map fst fonts1) -> In name (map fst fonts2) ->
  PyDict.get name values1 = PyDict.get name values2 ->
  PyDict.get name bands1 = PyDict.get name bands2.
Proof.
  intros N1 N2 E I1 I2 V.
  destruct (normalize_extremes _ _ _ N1) as (lo & hi & E1).
  assert (E2 : find_extremes values2 = Ok (lo, hi)) by (rewrite <- E; exact E1).
  pose proof (normalize_get _ _ _ _ _ N1 E1 name) as H1.
  pose proof (normalize_get _ _ _ _ _ N2 E2 name) as H2.
  destruct (in_dec string_dec name (map fst fonts1)); [|contradiction].
  destruct (in_dec string_dec name (map fst fonts2)); [|contradiction].
  destruct (PrimFloat.eqb (hi - lo) 0); [congruence|].
  destruct H1 as (v1 & b1 & G1 & S1 & ->), H2 as (v2 & b2 & G2 & S2 & ->).
  congruence.
Qed.

Lemma band_depends_on_extremes_witness :
  exists bands,
    normalize wider_fonts wider_darkness = Ok bands
    /\ PyDict.get "FontB" example_weights = PyDict.get "FontB" bands.
Proof.
  eexists. split; [reflexivity|].
  apply (band_depends_on_extremes example_fonts example_darkness example_weights
           wider_fonts wider_darkness _ "FontB"); try reflexivity.
  - right. left. reflexivity.
  - right. left. reflexivity.
Defined.

(** *** The measurement of one font *)

(** X9. The subsets of a record that is read from a row of five fields
    are [None], and [compute_darkness_and_width] raises [TypeError] on
    them, at the test of its first lines, whatever the rasteriser would
    do. *)
Theorem five_field_record_not_measurable
  (face : Type) (create_face : string -> Z -> result face)
  (text_extents : face -> Z -> string -> result extents)
  (show_text : face -> Z -> Z -> Z -> float -> float -> string -> result surface)
  g a b c u gfn data :
  read_row [g; a; b; c; u] = Ok (gfn, data) ->
  compute_darkness_and_width face create_face text_extents show_text
    gfn (subsets data)
  = Raise TypeError.
Proof.
  rewrite read_row_five. intros H.
  destruct (PyInt.of_string a) as [w|]; [|discriminate H].
  destruct (PyInt.of_string b) as [n|]; [|discriminate H].
  destruct (PyInt.of_string c) as [i|]; [|discriminate H].
  cbn [bind] in H. injection H as <- <-. reflexivity.
Qed.

Lemma five_field_record_not_measurable_witness :
  compute_darkness_and_width unit blank_face blank_text_extents blank_show_text
    "Abel-Regular.ttf" None
  = Raise TypeError.
Proof.
  exact (five_field_record_not_measurable unit blank_face blank_text_extents
           blank_show_text "Abel-Regular.ttf" "3" "1" "4" "body"
           "Abel-Regular.ttf"
           {| weight_int := 3; angle_int := 1; width_int := 4;
              usage := "body"; subsets := None |} eq_refl).
Defined.

(** *** The order of the rows *)

Lemma ascii_compare_refl a : Ascii.compare a a = Eq.
Proof. unfold Ascii.compare. apply N.compare_refl. Qed.

Lemma ascii_compare_trans a b c o :
  Ascii.compare a b = o -> Ascii.compare b c = o -> Ascii.compare a c = o.
Proof.
  unfold Ascii.compare. destruct o; intros H1 H2.
  - apply N.compare_eq_iff in H1, H2. apply N.compare_eq_iff. congruence.
  - apply N.compare_lt_iff in H1. apply N.compare_lt_iff in H2.
    apply N.compare_lt_iff. eapply N.lt_trans; eassumption.
  - apply N.compare_gt_iff in H1. apply N.compare_gt_iff in H2.
    apply N.compare_gt_iff. eapply N.lt_trans; eassumption.
Qed.

Lemma string_leb_trans s1 : forall s2 s3,
  String.leb s1 s2 = true -> String.leb s2 s3 = true -> String.leb s1 s3 = true.
Proof.
  unfold String.leb.
  induction s1 as [|a s1 IH]; intros [|b s2] [|c s3]; cbn [String.compare];
    try reflexivity; try discriminate.
  destruct (Ascii.compare a b) eqn:E1; try discriminate;
    destruct (Ascii.compare b c) eqn:E2; try discriminate.
  - rewrite (ascii_compare_trans a b c Eq E1 E2). apply IH.
  - apply Ascii.compare_eq_iff in E1. subst b. rewrite E2. reflexivity.
  - apply Ascii.compare_eq_iff in E2. subst c. rewrite E1. reflexivity.
  - rewrite (ascii_compare_trans a b c Lt E1 E2). reflexivity.
Qed.

Lemma sorted_strongly l : StronglySorted (fun x y => String.leb x y = true) (sorted l).
Proof.
  apply Sorted_StronglySorted.
  - intros x y z. apply string_leb_trans.
  - apply StringSort.Sorted_sort.
Qed.

(** Two sorted lists with the same items are the same list. *)
Lemma strongly_sorted_unique l1 : forall l2,
  StronglySorted (fun x y => String.leb x y = true) l1 ->
  StronglySorted (fun x y => String.leb x y = true) l2 ->
  Permutation l1 l2 -> l1 = l2.
Proof.
  induction l1 as [|a l1 IH]; intros l2 S1 S2 P.
  - apply Permutation_nil in P. congruence.
  - destruct l2 as [|b l2].
    { apply Permutation_sym, Permutation_nil in P. discriminate P. }
    inversion S1 as [|? ? S1' F1]; subst. inversion S2 as [|? ? S2' F2]; subst.
    rewrite Forall_forall in F1, F2.
    assert (E : a = b).
    { assert (Ia : In a (b :: l2)) by (apply (Permutation_in _ P); left; reflexivity).
      assert (Ib : In b (a :: l1))
        by (apply (Permutation_in _ (Permutation_sym P)); left; reflexivity).
      destruct Ia as [->|Ia]; [reflexivity|]. destruct Ib as [->|Ib]; [reflexivity|].
      apply String.leb_antisym; [apply F1; exact Ib|apply F2; exact Ia]. }
    subst b. f_equal. apply IH; try assumption.
    apply (Permutation_cons_inv P).
Qed.

Lemma sorted_permutation l1 l2 : Permutation l1 l2 -> sorted l1 = sorted l2.
Proof.
  intros P. apply strongly_sorted_unique; try apply sorted_strongly.
  unfold sorted.
  apply Permutation_trans with l1; [apply Permutation_sym, StringSort.Permuted_sort|].
  apply Permutation_trans with l2; [exact P|apply StringSort.Permuted_sort].
Qed.

Lemma In_item_get {V} k (v : V) d :
  NoDup (PyDict.keys d) -> In (k, v) d -> PyDict.get k d = Some v.
Proof.
  induction d as [|[k' v'] d IH]; [intros _ []|].
  cbn [PyDict.keys map fst PyDict.get]. intros N [E|I].
  - injection E as -> ->. rewrite String.eqb_refl. reflexivity.
  - inversion N as [|? ? X N']; subst.
    destruct (String.eqb_spec k' k) as [->|_].
    + exfalso. apply X. change (In (fst (k, v)) (map fst d)). apply in_map. exact I.
    + apply IH; assumption.
Qed.

Lemma get_permutation {V} (d1 d2 : dict V) k :
  NoDup (PyDict.keys d1) -> Permutation d1 d2 ->
  PyDict.get k d1 = PyDict.get k d2.
Proof.
  intros N P.
  assert (N2 : NoDup (PyDict.keys d2)).
  { apply (Permutation_NoDup (l := PyDict.keys d1)); [|exact N].
    apply Permutation_map. exact P. }
  destruct (PyDict.get k d1) as [v|] eqn:G1.
  - symmetry. apply In_item_get; [exact N2|].
    apply (Permutation_in _ P). apply get_In_item. exact G1.
  - destruct (PyDict.get k d2) as [v|] eqn:G2; [|reflexivity].
    apply get_In_item in G2. apply (Permutation_in _ (Permutation_sym P)) in G2.
    rewrite (In_item_get _ _ _ N G2) in G1. discriminate G1.
Qed.

Lemma mapM_ext {A B : Type} (f g : A -> result B) l :
  (forall a, f a = g a) -> mapM f l = mapM g l.
Proof.
  intros H. induction l as [|a l IH]; [reflexivity|].
  cbn [mapM]. rewrite (H a), IH. reflexivity.
Qed.

(** X16. What [save_csv] writes does not depend on the order in which the
    records were put in the mapping: two mappings with the same records
    give the same file, in the cleanup mode and in the other. *)
Theorem save_csv_insertion_order filename metadata1 metadata2 cleanup fs :
  NoDup (PyDict.keys metadata1) -> Permutation metadata1 metadata2 ->
  save_csv filename metadata1 cleanup fs = save_csv filename metadata2 cleanup fs.
Proof.
  intros N P. unfold save_csv.
  rewrite (sorted_permutation (PyDict.keys metadata1) (PyDict.keys metadata2))
    by (apply Permutation_map; exact P).
  rewrite (mapM_ext _ (fun gfn => data <- PyDict.item gfn metadata2 ;;
                                  Csv.writerow (data_row cleanup gfn data))).
  - reflexivity.
  - intros gfn. unfold PyDict.item. rewrite (get_permutation _ _ gfn N P). reflexivity.
Qed.

Lemma save_csv_insertion_order_witness :
  save_csv "fonts.csv" two_fonts false []
  = save_csv "fonts.csv" two_fonts_swapped false [].
Proof.
  apply (save_csv_insertion_order "fonts.csv" two_fonts two_fonts_swapped false []).
  - repeat constructor; cbn; intuition discriminate.
  - apply perm_swap.
Defined.

(** *** The rows that are read *)

(** The loop of [read_csv] once the first row is taken. *)
Lemma read_body_rows rows : forall acc,
  foldM (fun a r => read_body r a) rows (true, acc)
  = (md <- foldM read_step rows acc ;; Ok (true, md)).
Proof.
  induction rows as [|row rows IH]; intros acc; cbn [foldM]; [reflexivity|].
  unfold read_body at 1, read_step at 1. cbn [fst snd].
  destruct (read_row row) as [[gfn data]|e]; [|reflexivity].
  cbn [bind]. apply IH.
Qed.

(** [read_csv] on a file of which the reader gives the rows. *)
Lemma read_csv_rows filename fs text rows :
  PyDict.get filename fs = Some text ->
  Csv.rows (universal_newlines text) = Ok rows ->
  read_csv filename fs
  = match rows with
    | [] => Raise StopIteration
    | _ :: data => foldM read_step data []
    end.
Proof.
  intros G R. unfold read_csv, open_read. rewrite G. cbn [bind].
  destruct (for_rows_rows _ _ _ _ _ R) as (rs & E & L). cbn [app] in E. subst rs.
  rewrite L. destruct rows as [|header data]; [reflexivity|].
  cbn [foldM]. unfold read_body at 1. cbn [fst snd bind].
  rewrite read_body_rows. destruct (foldM read_step data []); reflexivity.
Qed.

(** X17. [read_csv] does not look at the first row: two files whose rows
    after the first are the same give the same result. *)
Theorem read_csv_ignores_header filename1 filename2 fs text1 text2
  header1 header2 data :
  PyDict.get filename1 fs = Some text1 ->
  PyDict.get filename2 fs = Some text2 ->
  Csv.rows (universal_newlines text1) = Ok (header1 :: data) ->
  Csv.rows (universal_newlines text2) = Ok (header2 :: data) ->
  read_csv filename1 fs = read_csv filename2 fs.
Proof.
  intros G1 G2 R1 R2.
  rewrite (read_csv_rows _ _ _ _ G1 R1), (read_csv_rows _ _ _ _ G2 R2). reflexivity.
Qed.

Lemma read_csv_ignores_header_witness :
  read_csv "fonts.csv" headed_files = read_csv "other.csv" headed_files.
Proof.
  apply (read_csv_ignores_header "fonts.csv" "other.csv" headed_files
           (text_of_lines ["GFN,FWE,FIA,FWI,USAGE,SUBSETS"%string;
                           "Abel-Regular.ttf,3,1,4,body,latin"%string])
           (text_of_lines ["Lato-Bold.ttf,7,1,5,header,"%string;
                           "Abel-Regular.ttf,3,1,4,body,latin"%string])
           ["GFN"; "FWE"; "FIA"; "FWI"; "USAGE"; "SUBSETS"]%string
           ["Lato-Bold.ttf"; "7"; "1"; "5"; "header"; ""]%string
           [["Abel-Regular.ttf"; "3"; "1"; "4"; "body"; "latin"]%string]);
    reflexivity.
Defined.

Lemma foldM_app {A B : Type} (f : A -> B -> result A) l1 l2 a :
  foldM f (l1 ++ l2) a = (a' <- foldM f l1 a ;; foldM f l2 a').
Proof.
  revert a. induction l1 as [|b l1 IH]; intros a; cbn [app foldM]; [reflexivity|].
  destruct (f a b) as [a'|e]; [|reflexivity]. cbn [bind]. apply IH.
Qed.

(** X18. When [read_csv] returns, the record it holds for the font
    identifier of the last row of the file is the record of that row: a
    later row replaces an earlier row of the same identifier. *)
Theorem read_csv_last_row filename fs text header data row metadata :
  PyDict.get filename fs = Some text ->
  Csv.rows (universal_newlines text) = Ok (header :: data ++ [row]) ->
  read_csv filename fs = Ok metadata ->
  exists gfn record,
    read_row row = Ok (gfn, record) /\ PyDict.get gfn metadata = Some record.
Proof.
  intros G R H. rewrite (read_csv_rows _ _ _ _ G R), foldM_app in H.
  destruct (foldM read_step data []) as [md|e]; [|discriminate H].
  cbn [bind foldM] in H. unfold read_step in H.
  destruct (read_row row) as [[gfn rec]|e]; [|discriminate H].
  cbn [bind] in H. injection H as <-. exists gfn, rec.
  split; [reflexivity|apply get_set_same].
Qed.

Lemma read_csv_last_row_witness :
  exists gfn record,
    read_row ["Abel-Regular.ttf"; "9"; "1"; "4"; "header"; "latin"]%string
    = Ok (gfn, record)
    /\ PyDict.get gfn
         [("Abel-Regular.ttf"%string,
           {| weight_int := 9; angle_int := 1; width_int := 4;
              usage := "header"; subsets := Some "latin"%string |});
          ("Lato-Bold.ttf"%string,
           {| weight_int := 7; angle_int := 1; width_int := 5;
              usage := "header"; subsets := Some ""%string |})]
       = Some record.
Proof.
  apply (read_csv_last_row "fonts.csv" twice_files
           (text_of_lines ["GFN,FWE,FIA,FWI,USAGE,SUBSETS"%string;
                           "Abel-Regular.ttf,3,1,4,body,latin"%string;
                           "Lato-Bold.ttf,7,1,5,header,"%string;
                           "Abel-Regular.ttf,9,1,4,header,latin"%string])
           ["GFN"; "FWE"; "FIA"; "FWI"; "USAGE"; "SUBSETS"]%string
           [["Abel-Regular.ttf"; "3"; "1"; "4"; "body"; "latin"];
            ["Lato-Bold.ttf"; "7"; "1"; "5"; "header"; ""]]%string);
    reflexivity.
Defined.

(** X19. On a file in which the reader finds no row, [read_csv] raises
    [StopIteration]; on a file of one row, it returns the empty mapping. *)
Theorem read_csv_no_data filename fs text rows :
  PyDict.get filename fs = Some text ->
  Csv.rows (universal_newlines text) = Ok rows ->
  (List.length rows <= 1)%nat ->
  read_csv filename fs
  = match rows with
    | [] => Raise StopIteration
    | _ => Ok []
    end.
Proof.
  intros G R L. rewrite (read_csv_rows _ _ _ _ G R).
  destruct rows as [|header [|row rows]]; try reflexivity.
  cbn [List.length] in L. lia.
Qed.

Lemma read_csv_no_data_witness :
  read_csv "fonts.csv" header_only_files = Ok []
  /\ read_csv "empty.csv" [("empty.csv"%string, [])] = Raise StopIteration.
Proof.
  split.
  - apply (read_csv_no_data "fonts.csv" header_only_files
             (text_of_lines ["GFN,FWE,FIA,FWI,USAGE,SUBSETS"%string])
             [["GFN"; "FWE"; "FIA"; "FWI"; "USAGE"; "SUBSETS"]%string]);
      [reflexivity|reflexivity|cbn; lia].
  - apply (read_csv_no_data "empty.csv" [("empty.csv"%string, [])] [] []);
      [reflexivity|reflexivity|cbn; lia].
Defined.

Lemma read_rows_ok rows : forall acc,
  forallb (fun r => is_ok (read_row r)) rows = true ->
  exists md, foldM read_step rows acc = Ok md.
Proof.
  induction rows as [|row rows IH]; intros acc H; cbn [foldM]; [eauto|].
  cbn [forallb] in H. apply andb_true_iff in H. destruct H as [R H].
  unfold read_step at 1. destruct (read_row row) as [[gfn data]|e]; [|discriminate R].
  cbn [bind]. apply IH. exact H.
Qed.

(** X20. [read_csv] raises the exception of the first row that cannot be
    read, a missing field ([IndexError]) or a band that is not an integer
    ([ValueError]): the rows before it and after it give nothing. *)
Theorem read_csv_bad_row filename fs text header before row after e :
  PyDict.get filename fs = Some text ->
  Csv.rows (universal_newlines text) = Ok (header :: before ++ row :: after) ->
  forallb (fun r => is_ok (read_row r)) before = true ->
  read_row row = Raise e ->
  read_csv filename fs = Raise e.
Proof.
  intros G R B F. rewrite (read_csv_rows _ _ _ _ G R), foldM_app.
  destruct (read_rows_ok before [] B) as [md E]. rewrite E. cbn [bind foldM].
  unfold read_step at 1. rewrite F. reflexivity.
Qed.

Lemma read_csv_bad_row_witness :
  read_csv "fonts.csv" bold_files = Raise ValueError.
Proof.
  apply (read_csv_bad_row "fonts.csv" bold_files
           (text_of_lines ["GFN,FWE,FIA,FWI,USAGE,SUBSETS"%string;
                           "Abel-Regular.ttf,3,1,4,body,latin"%string;
                           "Lato-Bold.ttf,bold,1,5,header,"%string;
                           "Lato-Regular.ttf,4,1,5,body,"%string])
           ["GFN"; "FWE"; "FIA"; "FWI"; "USAGE"; "SUBSETS"]%string
           [["Abel-Regular.ttf"; "3"; "1"; "4"; "body"; "latin"]%string]
           ["Lato-Bold.ttf"; "bold"; "1"; "5"; "header"; ""]%string
           [["Lato-Regular.ttf"; "4"; "1"; "5"; "body"; ""]%string]);
    reflexivity.
Defined.

(** *** Rows of five fields *)

Lemma read_row_more g a b c u x rest :
  read_row (g :: a :: b :: c :: u :: x :: rest)
  = (fwe <- PyInt.of_string a ;;
     fia <- PyInt.of_string b ;;
     fwi <- PyInt.of_string c ;;
     Ok (g, {| weight_int := fwe; angle_int := fia; width_int := fwi;
               usage := u; subsets := Some x |})).
Proof.
  unfold read_row.
  replace (Z.of_nat (List.length (g :: a :: b :: c :: u :: x :: rest)) <? 6)
    with false by (symmetry; apply Z.ltb_ge; cbn [List.length]; lia).
  reflexivity.
Qed.

(** A row of five fields or more, with integer bands, is read, under its
    first field; its record has no subsets when it has five fields. *)
Lemma read_row_ok row :
  at_least_five_fields row = true ->
  exists data,
    read_row row = Ok (first_field row, data)
    /\ (List.length row = 5%nat -> subsets data = None).
Proof.
  destruct row as [|g [|a [|b [|c [|u rest]]]]]; try discriminate.
  cbn [at_least_five_fields first_field hd]. intros H.
  apply andb_true_iff in H. destruct H as [H C].
  apply andb_true_iff in H. destruct H as [A B].
  destruct (PyInt.of_string a) as [w|] eqn:Ea; [|discriminate].
  destruct (PyInt.of_string b) as [n|] eqn:Eb; [|discriminate].
  destruct (PyInt.of_string c) as [i|] eqn:Ec; [|discriminate].
  destruct rest as [|x rest].
  - rewrite read_row_five, Ea, Eb, Ec. cbn [bind]. eexists. split; reflexivity.
  - rewrite read_row_more, Ea, Eb, Ec. cbn [bind]. eexists. split; [reflexivity|].
    cbn [List.length]. intros L. lia.
Qed.

(** The loop of [read_csv] over such rows ends, and keeps the record of a
    font identifier that no row has. *)
Lemma read_rows_get rows : forall acc,
  forallb at_least_five_fields rows = true ->
  exists md,
    foldM read_step rows acc = Ok md
    /\ forall g, (forall r, In r rows -> first_field r <> g) ->
                 PyDict.get g md = PyDict.get g acc.
Proof.
  induction rows as [|row rows IH]; intros acc H; cbn [foldM].
  - exists acc. split; reflexivity.
  - cbn [forallb] in H. apply andb_true_iff in H. destruct H as [R H].
    destruct (read_row_ok row R) as (data & E & _).
    unfold read_step at 1. rewrite E. cbn [bind].
    destruct (IH (PyDict.set (first_field row) data acc) H) as (md & F & Q).
    exists md. split; [exact F|]. intros g N.
    rewrite Q by (intros r I; apply N; right; exact I).
    apply get_set_other. intros ->. apply (N row); [left|]; reflexivity.
Qed.

(** C9, as amended. In a file whose data rows all have five fields or
    more, with integer literals for the three bands, [read_csv] succeeds,
    and a data row of exactly five fields is read with subsets [None]; its
    record is the one kept for its font identifier, unless a later row has
    the same identifier. *)
Theorem five_field_rows_read filename fs text header data_rows :
  PyDict.get filename fs = Some text ->
  Csv.rows (universal_newlines text) = Ok (header :: data_rows) ->
  forallb at_least_five_fields data_rows = true ->
  exists metadata,
    read_csv filename fs = Ok metadata
    /\ forall before row after,
         data_rows = before ++ row :: after ->
         List.length row = 5%nat ->
         exists data,
           read_row row = Ok (first_field row, data)
           /\ subsets data = None
           /\ ((forall r, In r after -> first_field r <> first_field row) ->
               PyDict.get (first_field row) metadata = Some data).
Proof.
  intros G R F. rewrite (read_csv_rows _ _ _ _ G R).
  destruct (read_rows_get data_rows [] F) as (metadata & E & _).
  exists metadata. split; [exact E|].
  intros before row after S L. subst data_rows.
  rewrite forallb_app in F. apply andb_true_iff in F. destruct F as [Fb Fr].
  cbn [forallb] in Fr. apply andb_true_iff in Fr. destruct Fr as [Fr Fa].
  destruct (read_row_ok row Fr) as (data & Er & Sd).
  exists data. split; [exact Er|]. split; [exact (Sd L)|]. intros N.
  rewrite foldM_app in E.
  destruct (read_rows_get before [] Fb) as (md1 & E1 & _).
  rewrite E1 in E. cbn [bind foldM] in E.
  unfold read_step at 1 in E. rewrite Er in E. cbn [bind] in E.
  destruct (read_rows_get after (PyDict.set (first_field row) data md1) Fa)
    as (md2 & E2 & Q).
  rewrite E2 in E. injection E as <-.
  rewrite (Q (first_field row) N). apply get_set_same.
Qed.

Lemma five_field_rows_read_witness :
  exists metadata,
    read_csv "fonts.csv" mixed_files = Ok metadata
    /\ forall before row after,
         [["Abel-Regular.ttf"; "3"; "1"; "4"; "body"; "latin"];
          ["Lato-Bold.ttf"; " 7 "; "1"; "+5"; ""]]%string
         = before ++ row :: after ->
         List.length row = 5%nat ->
         exists data,
           read_row row = Ok (first_field row, data)
           /\ subsets data = None
           /\ ((forall r, In r after -> first_field r <> first_field row) ->
               PyDict.get (first_field row) metadata = Some data).
Proof.
  apply (five_field_rows_read "fonts.csv" mixed_files
           (text_of_lines ["GFN,FWE,FIA,FWI,USAGE,SUBSETS"%string;
                           "Abel-Regular.ttf,3,1,4,body,latin"%string;
                           "Lato-Bold.ttf, 7 ,1,+5,"%string])
           ["GFN"; "FWE"; "FIA"; "FWI"; "USAGE"; "SUBSETS"]%string);
    reflexivity.
Defined.

(** *** Published files *)

Lemma published_band_text b :
  field_ok (list_ascii_of_string (published_band b)) = true
  /\ PyInt.of_string (published_band b)
     = if in_range b then Ok b else Raise ValueError.
Proof.
  unfold published_band, in_range.
  destruct ((1 <=? b) && (b <=? 10)) eqn:E; [|split; reflexivity].
  apply andb_true_iff in E. destruct E as [L U].
  apply Z.leb_le in L. apply Z.leb_le in U.
  assert (C : b = 1 \/ b = 2 \/ b = 3 \/ b = 4 \/ b = 5 \/ b = 6 \/ b = 7
              \/ b = 8 \/ b = 9 \/ b = 10) by lia.
  repeat (destruct C as [->|C]; [split; reflexivity|]). subst b. split; reflexivity.
Qed.

Lemma published_usage_ok u :
  field_ok (list_ascii_of_string (published_usage u)) = true.
Proof.
  unfold published_usage.
  destruct (String.eqb_spec u "body") as [->|_]; [reflexivity|].
  destruct (String.eqb_spec u "header") as [->|_]; reflexivity.
Qed.

Lemma published_row_ok gfn data :
  field_ok (list_ascii_of_string gfn) = true ->
  forallb field_ok (published_row gfn data) = true.
Proof.
  intros G. unfold published_row. cbn [map forallb].
  rewrite G, published_usage_ok.
  rewrite (proj1 (published_band_text (weight_int data))),
          (proj1 (published_band_text (angle_int data))),
          (proj1 (published_band_text (width_int data))).
  reflexivity.
Qed.

Lemma read_published_row gfn data :
  read_row (map string_of_list_ascii (published_row gfn data))
  = if publishable data then Ok (gfn, published data) else Raise ValueError.
Proof.
  unfold published_row. cbn [map]. rewrite !string_of_list_ascii_of_string.
  rewrite read_row_five.
  rewrite (proj2 (published_band_text (weight_int data))),
          (proj2 (published_band_text (angle_int data))),
          (proj2 (published_band_text (width_int data))).
  unfold publishable.
  destruct (in_range (weight_int data)); [|reflexivity].
  destruct (in_range (angle_int data)); [|reflexivity].
  destruct (in_range (width_int data)); reflexivity.
Qed.

Section Published.

Variable metadata : dict record.

Hypothesis readable :
  forall k, In k (PyDict.keys metadata) ->
            field_ok (list_ascii_of_string k) = true.

Lemma published_lines_no_cr keys :
  (forall k, In k keys -> In k (PyDict.keys metadata)) ->
  forallb no_cr (map (published_line metadata) keys) = true.
Proof.
  induction keys as [|k keys IH]; intros H; [reflexivity|].
  cbn [map forallb]. rewrite IH by (intros; apply H; right; assumption).
  rewrite andb_true_r. unfold published_line.
  destruct (PyDict.get k metadata) as [data|]; [|reflexivity].
  apply no_cr_line, field_ok_no_cr, published_row_ok, readable, H. left. reflexivity.
Qed.

(** What the loop of [read_csv] makes of the lines of a published file. *)
Lemma read_published_lines keys : forall acc,
  (forall k, In k keys -> In k (PyDict.keys metadata)) ->
  Csv.for_rows read_body Csv.reset false
    (List.concat (map (published_line metadata) keys)) (true, acc)
  = (md <- foldM (publish_step metadata) keys acc ;; Ok (true, md)).
Proof.
  induction keys as [|k keys IH]; intros acc H; [reflexivity|].
  cbn [map List.concat foldM].
  assert (Hk : In k (PyDict.keys metadata)) by (apply H; left; reflexivity).
  pose proof (keys_get k metadata Hk) as G.
  unfold published_line at 1, publish_step at 1.
  destruct (PyDict.get k metadata) as [data|]; [|contradiction].
  pose proof (published_row_ok k data (readable k Hk)) as K.
  unfold published_row in K |- *. cbn [map] in K |- *.
  rewrite line_fields by exact K.
  change (map string_of_list_ascii _)
    with (map string_of_list_ascii (published_row k data)).
  unfold read_body at 1. cbn [fst snd]. rewrite read_published_row.
  destruct (publishable data); [|reflexivity]. cbn [bind].
  apply IH. intros k' I. apply H. right. exact I.
Qed.

Lemma publish_steps_ok keys : forall acc,
  (forall k, In k keys ->
     exists data, PyDict.get k metadata = Some data /\ publishable data = true) ->
  foldM (publish_step metadata) keys acc
  = Ok (fold_left (published_step metadata) keys acc).
Proof.
  induction keys as [|k keys IH]; intros acc H; cbn [foldM fold_left]; [reflexivity|].
  destruct (H k (or_introl eq_refl)) as (data & G & P).
  unfold publish_step at 1, published_step at 2. rewrite G, P. cbn [bind].
  apply IH. intros k' I. apply H. right. exact I.
Qed.

Lemma published_get keys : forall acc gfn,
  (forall k, In k keys -> PyDict.get k metadata <> None) ->
  PyDict.get gfn (fold_left (published_step metadata) keys acc)
  = if in_dec string_dec gfn keys
    then option_map published (PyDict.get gfn metadata)
    else PyDict.get gfn acc.
Proof.
  induction keys as [|k keys IH]; intros acc gfn H; [reflexivity|].
  cbn [fold_left]. rewrite IH by (intros; apply H; right; assumption).
  assert (Hk : PyDict.get k metadata <> None) by (apply H; left; reflexivity).
  unfold published_step.
  destruct (PyDict.get k metadata) as [data|] eqn:E; [|contradiction].
  destruct (in_dec string_dec gfn keys) as [I|I];
    destruct (in_dec string_dec gfn (k :: keys)) as [J|J]; try reflexivity.
  - exfalso. apply J. right. exact I.
  - destruct J as [->|J]; [|contradiction].
    rewrite get_set_same, E. reflexivity.
  - apply get_set_other. intros ->. apply J. left. reflexivity.
Qed.

Lemma publish_steps_raise keys : forall acc k data,
  In k keys -> PyDict.get k metadata = Some data -> publishable data = false ->
  foldM (publish_step metadata) keys acc = Raise ValueError.
Proof.
  induction keys as [|k' keys IH]; intros acc k data I G P; [destruct I|].
  cbn [foldM]. unfold publish_step at 1.
  destruct (string_dec k' k) as [->|N].
  - rewrite G, P. reflexivity.
  - destruct I as [E|I]; [contradiction|].
    destruct (PyDict.get k' metadata) as [d'|].
    + destruct (publishable d'); [|reflexivity]. cbn [bind]. eapply IH; eassumption.
    + cbn [bind]. eapply IH; eassumption.
Qed.

(** The file that [save_csv] publishes, and what [read_csv] makes of it. *)
Lemma publish_then_read filename fs :
  exists fs',
    save_csv filename metadata true fs = Ok fs'
    /\ read_csv filename fs'
       = foldM (publish_step metadata) (sorted (PyDict.keys metadata)) [].
Proof.
  set (keys := sorted (PyDict.keys metadata)).
  assert (K : forall k, In k keys -> In k (PyDict.keys metadata))
    by (intros k I; apply sorted_In; exact I).
  eexists. split.
  - unfold save_csv. fold keys.
    change (Csv.writerow (header_row true)) with (Ok (Csv.line published_header)).
    cbn [bind]. rewrite published_lines by (intros k I; apply keys_get, K, I).
    reflexivity.
  - unfold read_csv, open_read. rewrite get_set_same. cbn [bind].
    rewrite universal_newlines_no_cr.
    2:{ rewrite no_cr_app, no_cr_concat by (apply published_lines_no_cr; exact K).
        reflexivity. }
    unfold published_header. cbn [map].
    rewrite line_fields by reflexivity.
    unfold read_body at 1. cbn [fst snd bind].
    rewrite (read_published_lines keys [] K).
    destruct (foldM (publish_step metadata) keys []); reflexivity.
Qed.

End Published.

Lemma readable_keys_inv metadata :
  readable_keys metadata = true ->
  forall k, In k (PyDict.keys metadata) -> field_ok (list_ascii_of_string k) = true.
Proof.
  unfold readable_keys. rewrite forallb_forall. auto.
Qed.

(** X21. A published file in which a band has been blanked cannot be read
    back: when the font identifiers have no carriage return and at most
    131072 characters, and a record has a band out of the range 1-10,
    [save_csv] in cleanup mode succeeds and [read_csv] on its file raises
    [ValueError]. *)
Theorem published_blank_band_unreadable filename metadata fs gfn data :
  readable_keys metadata = true ->
  PyDict.get gfn metadata = Some data -> publishable data = false ->
  exists fs',
    save_csv filename metadata true fs = Ok fs'
    /\ read_csv filename fs' = Raise ValueError.
Proof.
  intros R G P.
  destruct (publish_then_read metadata (readable_keys_inv metadata R) filename fs)
    as (fs' & S & E).
  exists fs'. split; [exact S|]. rewrite E.
  apply (publish_steps_raise metadata _ [] gfn data); try assumption.
  apply sorted_In, get_keys. rewrite G. discriminate.
Qed.

Lemma published_blank_band_unreadable_witness :
  exists fs',
    save_csv "fonts.csv" unclassified_fonts true [] = Ok fs'
    /\ read_csv "fonts.csv" fs' = Raise ValueError.
Proof.
  exact (published_blank_band_unreadable "fonts.csv" unclassified_fonts []
           "Lato-Bold.ttf" _ eq_refl eq_refl eq_refl).
Defined.

(** X22. When every band of every record is in the range 1-10, the file
    that [save_csv] publishes is read back by [read_csv] with, for each
    font identifier, the same three bands, the usage tag as it was
    published, and no subsets. *)
Theorem published_file_read_back filename metadata fs :
  readable_keys metadata = true ->
  forallb (fun kv => publishable (snd kv)) metadata = true ->
  exists fs' metadata',
    save_csv filename metadata true fs = Ok fs'
    /\ read_csv filename fs' = Ok metadata'
    /\ forall gfn,
         PyDict.get gfn metadata' = option_map published (PyDict.get gfn metadata).
Proof.
  intros R A.
  destruct (publish_then_read metadata (readable_keys_inv metadata R) filename fs)
    as (fs' & S & E).
  assert (F : foldM (publish_step metadata) (sorted (PyDict.keys metadata)) []
              = Ok (fold_left (published_step metadata)
                      (sorted (PyDict.keys metadata)) [])).
  { apply publish_steps_ok. intros k I.
    pose proof (sorted_keys_get metadata k I) as G.
    destruct (PyDict.get k metadata) as [data|] eqn:Gk; [|contradiction].
    exists data. split; [reflexivity|].
    apply get_In_item in Gk. rewrite forallb_forall in A. exact (A _ Gk). }
  eexists fs', _. split; [exact S|]. split; [rewrite E; exact F|].
  intros gfn. rewrite published_get by (apply sorted_keys_get).
  destruct (in_dec string_dec gfn (sorted (PyDict.keys metadata))) as [I|I];
    [reflexivity|].
  destruct (PyDict.get gfn metadata) eqn:G; [|reflexivity].
  exfalso. apply I. apply sorted_In, get_keys. rewrite G. discriminate.
Qed.

Lemma published_file_read_back_witness :
  exists fs' metadata',
    save_csv "fonts.csv" decorative_fonts true [] = Ok fs'
    /\ read_csv "fonts.csv" fs' = Ok metadata'
    /\ forall gfn,
         PyDict.get gfn metadata'
         = option_map published (PyDict.get gfn decorative_fonts).
Proof.
  exact (published_file_read_back "fonts.csv" decorative_fonts [] eq_refl eq_refl).
Defined.
